(** * ccrtble: protocol codec, device session and discovery engine

    A shallow embedding of [lib/ccrtble-device.js] and [lib/ccrtble.js]
    together with the properties of the natural-language specification
    that can be settled on it.

    Conventions of the embedding:
    - a Node [Buffer] is a [list byte]; reading [data[i]] past the end
      gives JavaScript's [undefined], modelled by [None];
    - a JavaScript number is a [number]: a rational, an infinity or NaN.
      The only arithmetic the code performs on non-integers is a product
      or a quotient by two, which binary floating point computes without
      rounding, so the rational model is exact for the finite values;
    - a string is a sequence of code units below 256 (Rocq's [string]);
    - promises are cells that are settled at most once, timers and
      listeners are explicit components of the state. *)

From Stdlib Require Import ZArith QArith Qround Lia Ascii String List.
From Stdlib.Strings Require Import Byte.
From stdpp Require Import base option list gmap strings.
Import ListNotations.

Local Open Scope Z_scope.

(** ** JavaScript numbers *)
Module JS.

Inductive number :=
| NaN
| PosInf
| NegInf
| Num (q : Q).

(** Equality of numbers as values ([Q] has several representations of one
    rational). NaN is related to itself here: this is equality of the model,
    not the [===] of the language. *)
Definition num_eq (a b : number) : Prop :=
  match a, b with
  | NaN, NaN | PosInf, PosInf | NegInf, NegInf => True
  | Num p, Num q => Qeq p q
  | _, _ => False
  end.

Definition of_int (z : Z) : number := Num (inject_Z z).

(** [x * k] and [x / k] for a positive finite constant [k]. *)
Definition mul_const (x : number) (k : Z) : number :=
  match x with
  | Num q => Num (q * inject_Z k)
  | other => other
  end.

Definition div_const (x : number) (k : Z) : number :=
  match x with
  | Num q => Num (q / inject_Z k)
  | other => other
  end.

(** [x + k] and [x - k] for a finite constant [k]. *)
Definition add_const (x : number) (k : Z) : number :=
  match x with
  | Num q => Num (q + inject_Z k)
  | other => other
  end.

Definition sub_const (x : number) (k : Z) : number :=
  match x with
  | Num q => Num (q - inject_Z k)
  | other => other
  end.

(** Truncation toward zero, the integer part used by the typed-array
    conversions. *)
Definition truncate (q : Q) : Z := Z.quot (Qnum q) (Zpos (Qden q)).

(** ECMAScript [ToUint8]: NaN and the infinities become 0, a finite number
    is truncated toward zero and reduced modulo 256. *)
Definition ToUint8 (x : number) : Z :=
  match x with
  | Num q => truncate q mod 256
  | _ => 0
  end.

(** ECMAScript [Math.round] on finite numbers: the nearest integer, ties
    toward positive infinity. Only used to state what the specification
    asks for. *)
Definition round (q : Q) : Z := Qfloor (q + (1 # 2)).

(** A value read out of a buffer, as a number: [undefined] converts to NaN. *)
Definition ToNumber (v : option Z) : number :=
  match v with
  | Some z => of_int z
  | None => NaN
  end.

(** A value read out of a buffer, as a 32-bit integer for the bitwise
    operators: [undefined] converts to 0. *)
Definition ToInt32 (v : option Z) : Z :=
  match v with
  | Some z => z
  | None => 0
  end.

End JS.

(** ** Buffers *)
Module Buffer.

Definition t := list byte.

Definition byteZ (b : byte) : Z := Z.of_N (Byte.to_N b).

(** Storing an integer into a byte cell keeps it modulo 256. *)
Definition u8 (z : Z) : byte :=
  match Byte.of_N (Z.to_N (z mod 256)) with
  | Some b => b
  | None => x00
  end.

(** [data[i]]: the byte at index [i], [None] for [undefined]. *)
Definition get (data : t) (i : nat) : option Z :=
  byteZ <$> data !! i.

(** [Buffer.of(...items)]: every item goes through [ToUint8]. *)
Definition of_items (items : list JS.number) : t :=
  map (fun x => u8 (JS.ToUint8 x)) items.

End Buffer.

(** ** Protocol codec ([lib/ccrtble-device.js]) *)
Module Codec.

(** The console, as the list of lines written so far. *)
Definition console := list string.

Record AwayRecord := {
  day : option Z;
  year : JS.number;
  min : Z;
  hour : JS.number;
  month : option Z
}.

Record WindowOpenRecord := {
  temp : JS.number;
  time : JS.number
}.

Record StatusRecord := {
  mode : Z;
  isBoost : bool;
  isDst : bool;
  isWindowOpen : bool;
  isLocked : bool;
  isLowBattery : bool;
  valve : option Z;
  targetTemp : JS.number;
  away : option AwayRecord;
  windowOpen : WindowOpenRecord;
  comfortTemp : JS.number;
  ecoTemp : JS.number;
  tempOffset : JS.number
}.

(** The object [_parseStatus] returns: [{}] with no property set, or the
    record with every property of the sub-type 1 branch. *)
Inductive StatusResult :=
| EmptyObject
| Status (r : StatusRecord).

(** [(x & mask) !== 0] *)
Definition flag (x mask : Z) : bool := negb (Z.land x mask =? 0).

(** [_parseStatus(data)], with the lines it writes to the console. *)
Definition _parseStatus (data : Buffer.t) : StatusResult * console :=
  let infoType := Z.land (JS.ToInt32 (Buffer.get data 1)) 0xF in
  if infoType =? 0x1 then
    let b2 := JS.ToInt32 (Buffer.get data 2) in
    let b8 := JS.ToInt32 (Buffer.get data 8) in
    (Status {|
       mode := Z.land b2 0x3;
       isBoost := flag b2 0x4;
       isDst := flag b2 0x8;
       isWindowOpen := flag b2 0x10;
       isLocked := flag b2 0x20;
       isLowBattery := flag b2 0x80;
       valve := Buffer.get data 3;
       targetTemp := JS.div_const (JS.ToNumber (Buffer.get data 5)) 2;
       away :=
         if flag b2 0x02 then
           Some {|
             day := Buffer.get data 6;
             year := JS.add_const (JS.ToNumber (Buffer.get data 7)) 2000;
             min := if flag b8 0x01 then 30 else 0;
             hour := JS.div_const (JS.ToNumber (Buffer.get data 8)) 2;
             month := Buffer.get data 9
           |}
         else None;
       windowOpen := {|
         temp := JS.div_const (JS.ToNumber (Buffer.get data 10)) 2;
         time := JS.mul_const (JS.ToNumber (Buffer.get data 11)) 5
       |};
       comfortTemp := JS.div_const (JS.ToNumber (Buffer.get data 12)) 2;
       ecoTemp := JS.div_const (JS.ToNumber (Buffer.get data 13)) 2;
       tempOffset :=
         JS.div_const (JS.sub_const (JS.ToNumber (Buffer.get data 14)) 7) 2
     |}, [])
  else
    (EmptyObject, ["unknown status"%string]).

Record InfoRecord := {
  version : option Z;
  serial : list JS.number
}.

(** [_parseInfo(data)]. The serial is kept as the list of the ten character
    codes [data[n] - 0x30] handed to [String.fromCharCode]. *)
Definition _parseInfo (data : Buffer.t) : InfoRecord :=
  {| version := Buffer.get data 1;
     serial :=
       map (fun n => JS.sub_const (JS.ToNumber (Buffer.get data n)) 0x30)
           (seq 4 10) |}.

(** The command buffers of the operations that take no clock reading. *)
Definition getInfo_buffer : Buffer.t := Buffer.of_items [JS.of_int 0x0].

Definition setTargetTemperature_buffer (temperature : JS.number) : Buffer.t :=
  Buffer.of_items [JS.of_int 0x41; JS.mul_const temperature 2].

Definition setComfortTemperature_buffer : Buffer.t :=
  Buffer.of_items [JS.of_int 0x43].

Definition setEcoTemperature_buffer : Buffer.t :=
  Buffer.of_items [JS.of_int 0x44].

Definition setBoost_buffer (isBoost : bool) : Buffer.t :=
  Buffer.of_items [JS.of_int 0x45; JS.of_int (if isBoost then 0x1 else 0x0)].

(** *** Addresses *)

Definition dash : ascii := "-"%char.
Definition colon : ascii := ":"%char.

(** [s.replace(/-/g, ':')] *)
Fixpoint replace_dashes (s : string) : string :=
  match s with
  | EmptyString => EmptyString
  | String c rest =>
      String (if Ascii.eqb c dash then colon else c) (replace_dashes rest)
  end.

(** The lower-case mapping of a code unit below 256: the letters A to Z
    and the capital letters of the Latin-1 block (0xC0 to 0xDE without the
    multiplication sign 0xD7) move up by 0x20. *)
Definition lower_char (c : ascii) : ascii :=
  let n := N_of_ascii c in
  if ((65 <=? n) && (n <=? 90))%N
     || ((192 <=? n) && (n <=? 222) && negb (n =? 215))%N
  then ascii_of_N (n + 32)
  else c.

(** [s.toLowerCase()] *)
Fixpoint toLowerCase (s : string) : string :=
  match s with
  | EmptyString => EmptyString
  | String c rest => String (lower_char c) (toLowerCase rest)
  end.

(** [CcrtbleDevice.normaliseAddress(address)] *)
Definition normaliseAddress (address : string) : string :=
  toLowerCase (replace_dashes address).

End Codec.

(** ** Device session ([CcrtbleDevice]) *)
Module Session.

(** What a promise is fulfilled with. *)
Inductive value :=
| Undefined
| StatusInfo (r : Codec.StatusResult)
| VersionInfo (r : Codec.InfoRecord).

(** What a promise is rejected with. [NoReason] is the [reject()] of
    [_writeCharacteristic], which passes no error on. *)
Inductive error :=
| TimeoutError (ms : Z)
| AdapterError (e : string)
| TypeError
| NoReason.

Inductive outcome :=
| Fulfilled (v : value)
| Rejected (e : error).

(** The event names used on [_dataEvents]. *)
Inductive EventName := status | version.

(** Every call of [timeout] creates one promise, a cell. The operation of a
    cell records which method created it and which cell awaits it. *)
Inductive operation :=
| Connect (caller : option nat)
| Disconnect
| SendCommand (buffer : Buffer.t) (event : EventName)
| ResolveCharacteristics (caller : nat)
| WriteCharacteristic (caller : nat).

Record cell := {
  op : operation;
  created : Z;
  result : option (outcome * Z)
}.

(** Single-shot listeners, each resolving one cell. *)
Inductive target :=
| OnConnect
| OnDisconnect
| OnData (event : EventName).

(** Calls into the adapter. *)
Inductive call :=
| PeripheralConnect
| PeripheralDisconnect
| DiscoverAllServicesAndCharacteristics (r : nat)
| DataCharacteristicOn
| DataCharacteristicSubscribe (k : nat)
| CharacteristicWrite (w : nat) (data : Buffer.t).

Inductive effect :=
| Debug (line : string)
| Console (line : string)
| ConsoleData (data : Buffer.t)
| Adapter (c : call).

Record timer := {
  deadline : Z;
  owner : nat;
  duration : Z
}.

Record t := {
  peripheral_state : string;
  isConnected : bool;
  dataCharacteristic : bool;
  commandCharacteristic : bool;
  listeners : list (target * nat);
  cells : list cell;
  timers : list timer;
  now : Z;
  effects : list effect
}.

Definition set_peripheral_state (v : string) (s : t) : t :=
  {| peripheral_state := v; isConnected := isConnected s;
     dataCharacteristic := dataCharacteristic s;
     commandCharacteristic := commandCharacteristic s;
     listeners := listeners s; cells := cells s; timers := timers s;
     now := now s; effects := effects s |}.

Definition set_isConnected (v : bool) (s : t) : t :=
  {| peripheral_state := peripheral_state s; isConnected := v;
     dataCharacteristic := dataCharacteristic s;
     commandCharacteristic := commandCharacteristic s;
     listeners := listeners s; cells := cells s; timers := timers s;
     now := now s; effects := effects s |}.

Definition set_characteristics (d c : bool) (s : t) : t :=
  {| peripheral_state := peripheral_state s; isConnected := isConnected s;
     dataCharacteristic := d; commandCharacteristic := c;
     listeners := listeners s; cells := cells s; timers := timers s;
     now := now s; effects := effects s |}.

Definition set_listeners (v : list (target * nat)) (s : t) : t :=
  {| peripheral_state := peripheral_state s; isConnected := isConnected s;
     dataCharacteristic := dataCharacteristic s;
     commandCharacteristic := commandCharacteristic s;
     listeners := v; cells := cells s; timers := timers s;
     now := now s; effects := effects s |}.

Definition set_cells (v : list cell) (s : t) : t :=
  {| peripheral_state := peripheral_state s; isConnected := isConnected s;
     dataCharacteristic := dataCharacteristic s;
     commandCharacteristic := commandCharacteristic s;
     listeners := listeners s; cells := v; timers := timers s;
     now := now s; effects := effects s |}.

Definition set_timers (v : list timer) (s : t) : t :=
  {| peripheral_state := peripheral_state s; isConnected := isConnected s;
     dataCharacteristic := dataCharacteristic s;
     commandCharacteristic := commandCharacteristic s;
     listeners := listeners s; cells := cells s; timers := v;
     now := now s; effects := effects s |}.

Definition set_now (v : Z) (s : t) : t :=
  {| peripheral_state := peripheral_state s; isConnected := isConnected s;
     dataCharacteristic := dataCharacteristic s;
     commandCharacteristic := commandCharacteristic s;
     listeners := listeners s; cells := cells s; timers := timers s;
     now := v; effects := effects s |}.

Definition emit_effects (es : list effect) (s : t) : t :=
  {| peripheral_state := peripheral_state s; isConnected := isConnected s;
     dataCharacteristic := dataCharacteristic s;
     commandCharacteristic := commandCharacteristic s;
     listeners := listeners s; cells := cells s; timers := timers s;
     now := now s; effects := effects s ++ es |}.

(** The session the constructor builds around a peripheral in the given
    adapter state. *)
Definition new (state : string) : t :=
  {| peripheral_state := state; isConnected := false;
     dataCharacteristic := false; commandCharacteristic := false;
     listeners := []; cells := []; timers := []; now := 0; effects := [] |}.

(** *** Promises *)

Definition outcome_of (c : nat) (s : t) : option (outcome * Z) :=
  cl ← cells s !! c; result cl.

Definition pending (c : nat) (s : t) : bool :=
  match cells s !! c with
  | Some cl => match result cl with None => true | Some _ => false end
  | None => false
  end.

(** [resolve] and [reject]: the first call settles the cell, later calls
    change nothing. *)
Definition settle_cell (o : outcome) (at_time : Z) (cl : cell) : cell :=
  match result cl with
  | None => {| op := op cl; created := created cl; result := Some (o, at_time) |}
  | Some _ => cl
  end.

Definition mark (c : nat) (o : outcome) (s : t) : t :=
  set_cells (alter (settle_cell o (now s)) c (cells s)) s.

(** The same settlement for several cells, in order. *)
Definition mark_all (o : outcome) (l : list nat) (s : t) : t :=
  foldl (fun s c => mark c o s) s l.

Definition alloc (o : operation) (s : t) : nat * t :=
  (length (cells s),
   set_cells (cells s ++ [{| op := o; created := now s; result := None |}]) s).

(** The second promise of [timeout]: a timer that rejects the race when it
    fires. It is never cleared. *)
Definition arm (ms : Z) (c : nat) (s : t) : t :=
  if 0 <? ms then
    set_timers
      (timers s ++ [{| deadline := now s + ms; owner := c; duration := ms |}]) s
  else s.

Definition once (tg : target) (c : nat) (s : t) : t :=
  set_listeners (listeners s ++ [(tg, c)]) s.

(** [timeout(timeout, promiseFuncs)]: the promise of the executor is
    created and the executor runs; then the timer is set. The cell stands
    for the race of the two. The executor is given the cell it resolves or
    rejects. *)
Definition timeout (ms : Z) (o : operation) (promiseFuncs : nat -> t -> t)
    (s : t) : nat * t :=
  let (c, s) := alloc o s in
  (c, arm ms c (promiseFuncs c s)).

Definition target_eqb (a b : target) : bool :=
  match a, b with
  | OnConnect, OnConnect | OnDisconnect, OnDisconnect => true
  | OnData status, OnData status | OnData version, OnData version => true
  | _, _ => false
  end.

Definition registered (tg : target) (s : t) : list nat :=
  map snd (filter (fun l => target_eqb (fst l) tg = true) (listeners s)).

Definition remove_listeners (tg : target) (s : t) : t :=
  set_listeners
    (filter (fun l => target_eqb (fst l) tg = false) (listeners s)) s.

(** *** Operations

    An [await] continues in a microtask once the awaited cell is settled.
    The functions [after_write], [after_connect] and [after_resolve] are
    these continuations; they act on the outcome of the awaited cell. *)

(** The rest of [_sendCommand] after [await this._writeCharacteristic(..)]:
    a rejection reaches the [catch] and rejects the command. *)
Definition after_write (w : nat) (s : t) : t :=
  match cells s !! w with
  | Some cl =>
      match op cl, result cl with
      | WriteCharacteristic caller, Some (Rejected e, _) =>
          mark caller (Rejected e) s
      | _, _ => s
      end
  | None => s
  end.

Definition settle_write (w : nat) (o : outcome) (s : t) : t :=
  if pending w s then after_write w (mark w o s) else s.

(** [_writeCharacteristic(this._commandCharacteristic, data)] as called by
    the command cell [caller]. Calling [write] on an undefined
    characteristic throws inside the [try]. *)
Definition _writeCharacteristic (caller : nat) (data : Buffer.t) (s : t) : t :=
  let (w, s) :=
    timeout 10000 (WriteCharacteristic caller)
      (fun w s =>
         if commandCharacteristic s
         then emit_effects [Adapter (CharacteristicWrite w data)] s
         else mark w (Rejected TypeError) s) s in
  after_write w s.

(** The rest of [_sendCommand] after [await this.connect()]. *)
Definition after_connect (k : nat) (s : t) : t :=
  match cells s !! k with
  | Some cl =>
      match op cl, result cl with
      | Connect (Some caller), Some (Fulfilled _, _) =>
          match op <$> cells s !! caller with
          | Some (SendCommand buffer event) =>
              _writeCharacteristic caller buffer (once (OnData event) caller s)
          | _ => s
          end
      | Connect (Some caller), Some (Rejected e, _) =>
          mark caller (Rejected e) s
      | _, _ => s
      end
  | None => s
  end.

Definition settle_connect (k : nat) (o : outcome) (s : t) : t :=
  if pending k s then after_connect k (mark k o s) else s.

(** The rest of the connect listener after
    [await this._resolveCharacteristics()]. *)
Definition after_resolve (r : nat) (s : t) : t :=
  match cells s !! r with
  | Some cl =>
      match op cl, result cl with
      | ResolveCharacteristics k, Some (Fulfilled _, _) =>
          if dataCharacteristic s then
            emit_effects
              [Adapter DataCharacteristicOn;
               Debug "subscribing to data characteristic";
               Adapter (DataCharacteristicSubscribe k)] s
          else settle_connect k (Rejected TypeError) s
      | ResolveCharacteristics k, Some (Rejected e, _) =>
          settle_connect k (Rejected e) s
      | _, _ => s
      end
  | None => s
  end.

Definition settle_resolve (r : nat) (o : outcome) (s : t) : t :=
  if pending r s then after_resolve r (mark r o s) else s.

(** Settling any cell, with the continuation its operation has. *)
Definition settle (c : nat) (o : outcome) (s : t) : t :=
  match op <$> cells s !! c with
  | Some (Connect _) => settle_connect c o s
  | Some (WriteCharacteristic _) => settle_write c o s
  | Some (ResolveCharacteristics _) => settle_resolve c o s
  | Some _ => mark c o s
  | None => s
  end.

(** [connect()], up to its first suspension. [caller] is the command cell
    that awaits the connection when [_sendCommand] makes the call, and
    [None] when the user of the session does. *)
Definition connect (caller : option nat) (s : t) : nat * t :=
  timeout 10000 (Connect caller)
    (fun k s =>
       if String.eqb (peripheral_state s) "connected"
       then mark k (Fulfilled Undefined) s
       else emit_effects [Debug "initiating connection"; Adapter PeripheralConnect]
              (once OnConnect k s)) s.

Definition disconnect (s : t) : nat * t :=
  timeout 10000 Disconnect
    (fun d s =>
       if String.eqb (peripheral_state s) "disconnected"
       then mark d (Fulfilled Undefined) s
       else emit_effects [Debug "closing connection"; Adapter PeripheralDisconnect]
              (once OnDisconnect d s)) s.

(** [_sendCommand(buffer, event)]: the executor runs up to its first
    [await], which is on the promise of [connect()], the cell created right
    after the one of the command; the timer of the command is set; the
    executor continues when the connection promise is already settled. *)
Definition _sendCommand (buffer : Buffer.t) (event : EventName) (s : t)
  : nat * t :=
  let (c, s) :=
    timeout 10000 (SendCommand buffer event)
      (fun c s => snd (connect (Some c) s)) s in
  (c, after_connect (S c) s).

(** The reading of the clock [getStatus] sends along. *)
Record Date := {
  getFullYear : Z;
  getMonth : Z;
  getDate : Z;
  getHours : Z;
  getMinutes : Z;
  getSeconds : Z
}.

(** The seven bytes [getStatus] writes with [writeInt8]; the readings of a
    clock are small enough to be stored as they are. *)
Definition getStatus_buffer (d : Date) : Buffer.t :=
  map Buffer.u8
    [0x03; getFullYear d mod 100; getMonth d + 1; getDate d; getHours d;
     getMinutes d; getSeconds d].

Definition getStatus (d : Date) : t -> nat * t :=
  _sendCommand (getStatus_buffer d) status.

Definition getInfo : t -> nat * t :=
  _sendCommand Codec.getInfo_buffer version.

Definition setTargetTemperature (temperature : JS.number) : t -> nat * t :=
  _sendCommand (Codec.setTargetTemperature_buffer temperature) status.

Definition setComfortTemperature : t -> nat * t :=
  _sendCommand Codec.setComfortTemperature_buffer status.

Definition setEcoTemperature : t -> nat * t :=
  _sendCommand Codec.setEcoTemperature_buffer status.

Definition setBoost (isBoost : bool) : t -> nat * t :=
  _sendCommand (Codec.setBoost_buffer isBoost) status.

(** [_resolveCharacteristics()] as called by the connect listener of the
    cell [caller]. *)
Definition _resolveCharacteristics (caller : nat) (s : t) : t :=
  snd (timeout 10000 (ResolveCharacteristics caller)
         (fun r s =>
            emit_effects
              [Debug "resolving services and characteristic";
               Adapter (DiscoverAllServicesAndCharacteristics r)] s) s).

(** [this._dataEvents.emit(event, v)]: every listener registered for the
    event is removed and called; each one resolves its cell. *)
Definition emit (event : EventName) (v : value) (s : t) : t :=
  let ls := registered (OnData event) s in
  mark_all (Fulfilled v) ls (remove_listeners (OnData event) s).

(** [_dataHandler(data)] *)
Definition _dataHandler (data : Buffer.t) (s : t) : t :=
  let s := emit_effects [ConsoleData data] s in
  match Buffer.get data 0 with
  | Some 0x01 =>
      emit version (VersionInfo (Codec._parseInfo data))
        (emit_effects [Debug "received version message"] s)
  | Some 0x02 =>
      let s := emit_effects [Debug "received status message"] s in
      let (r, lines) := Codec._parseStatus data in
      emit status (StatusInfo r) (emit_effects (map Console lines) s)
  | _ => emit_effects [Debug "unknown code: 0x%s"] s
  end.

(** *** What the adapter and the clock do to a session

    [PeripheralState] is the adapter changing [peripheral.state];
    [AdapterConnect] and [AdapterDisconnect] are the events it emits on the
    peripheral; [ServicesDiscovered], [Subscribed] and [Written] are its
    callbacks to the calls recorded with the same cell. In
    [ServicesDiscovered] without an error the service is among the services
    of the peripheral, and the two booleans say whether its data and its
    command characteristic were found. [Notification] is a value pushed on
    the data characteristic, [Elapse] the passing of time. *)
Inductive event :=
| PeripheralState (state : string)
| AdapterConnect (error : option string)
| AdapterDisconnect (error : option string)
| ServicesDiscovered (r : nat) (error : option string) (data command : bool)
| Subscribed (k : nat) (error : option string)
| Written (w : nat) (error : bool)
| Notification (data : Buffer.t)
| Elapse (ms : Z).

(** The listener the constructor registers for ['connect']. *)
Definition on_connect (error : option string) (s : t) : t :=
  match error with
  | Some _ => emit_effects [Debug "error while connecting to device: %s"] s
  | None => set_isConnected true (emit_effects [Debug "connected to device"] s)
  end.

(** The listener the constructor registers for ['disconnect']. *)
Definition on_disconnect (error : option string) (s : t) : t :=
  match error with
  | Some _ => emit_effects [Debug "error while disconnecting: %s"] s
  | None =>
      set_isConnected false (emit_effects [Debug "disconnected from device"] s)
  end.

(** A timer of [timeout] fires: the race is rejected, at the deadline of the
    timer or at the time the clock already shows. *)
Definition fire (tm : timer) (s : t) : t :=
  settle (owner tm) (Rejected (TimeoutError (duration tm)))
    (set_now (Z.max (now s) (deadline tm)) s).

Definition is_due (limit : Z) (tm : timer) : bool := deadline tm <=? limit.

(** The events, one by one. When time elapses, the timers that are due fire
    in the order they were set. *)
Definition handle (e : event) (s : t) : t :=
  match e with
  | PeripheralState state => set_peripheral_state state s
  | AdapterConnect error =>
      let s := on_connect error s in
      let ks := registered OnConnect s in
      foldl (fun s k => _resolveCharacteristics k s)
        (remove_listeners OnConnect s) ks
  | AdapterDisconnect error =>
      let s := on_disconnect error s in
      let ds := registered OnDisconnect s in
      mark_all (Fulfilled Undefined) ds (remove_listeners OnDisconnect s)
  | ServicesDiscovered r error data command =>
      match op <$> cells s !! r with
      | Some (ResolveCharacteristics _) =>
          match error with
          | Some e => settle_resolve r (Rejected (AdapterError e)) s
          | None =>
              settle_resolve r (Fulfilled Undefined)
                (set_characteristics data command
                   (emit_effects
                      [Debug "successfully resolved services and characteristics (%d / %d)"]
                      s))
          end
      | _ => s
      end
  | Subscribed k error =>
      match op <$> cells s !! k with
      | Some (Connect _) =>
          match error with
          | Some e => settle_connect k (Rejected (AdapterError e)) s
          | None => settle_connect k (Fulfilled Undefined) s
          end
      | _ => s
      end
  | Written w error =>
      match op <$> cells s !! w with
      | Some (WriteCharacteristic _) =>
          if error then settle_write w (Rejected NoReason) s
          else
            settle_write w (Fulfilled Undefined)
              (emit_effects
                 [Debug "successfully wrote value '0x%s' to characteristic %s"] s)
      | _ => s
      end
  | Notification data => _dataHandler data s
  | Elapse ms =>
      let limit := now s + Z.max 0 ms in
      let due := filter (fun tm => is_due limit tm = true) (timers s) in
      let rest := filter (fun tm => is_due limit tm = false) (timers s) in
      set_now limit (foldl (fun s tm => fire tm s) (set_timers rest s) due)
  end.

(** A run of the session: events in the order they happen. *)
Definition run (es : list event) (s : t) : t :=
  foldl (fun s e => handle e s) s es.

(** The states a session can be in: those the constructor builds, and those
    reached from them by the calls of the public methods and by events. *)
Inductive reachable : t -> Prop :=
| reachable_new state : reachable (new state)
| reachable_connect s : reachable s -> reachable (snd (connect None s))
| reachable_disconnect s : reachable s -> reachable (snd (disconnect s))
| reachable_command buffer event s :
    reachable s -> reachable (snd (_sendCommand buffer event s))
| reachable_event e s : reachable s -> reachable (handle e s).

(** The timer of a bounded operation: it belongs to a cell, lasts 10 000 ms
    and is due 10 000 ms after the cell was created. *)
Definition timer_of_operation (s : t) (tm : timer) : Prop :=
  duration tm = 10000
  /\ exists cl, cells s !! owner tm = Some cl
               /\ deadline tm = created cl + 10000.

End Session.

(** ** Values handed to [discover] *)
Module Value.

(** An entry of an array. An entry that is neither a string, [undefined]
    nor [null] (a number, a boolean, a plain object) is given by its
    conversion to a string, which is all the code can observe of it. *)
Inductive element :=
| EString (s : string)
| EUndefined
| ENull
| EOther (image : string).

(** A value of an option. Arrays are references into the heap; [VObject]
    is a plain object. *)
Inductive value :=
| VUndefined
| VNull
| VBool (b : bool)
| VNumber (n : JS.number)
| VString (s : string)
| VArray (ref : nat)
| VObject.

Definition code (c : ascii) : N := N_of_ascii c.

Definition is_digit (c : ascii) : bool :=
  ((48 <=? code c) && (code c <=? 57))%N.

Definition is_hex_digit (c : ascii) : bool :=
  is_digit c
  || ((65 <=? code c) && (code c <=? 70))%N
  || ((97 <=? code c) && (code c <=? 102))%N.

Definition is_octal_digit (c : ascii) : bool :=
  ((48 <=? code c) && (code c <=? 55))%N.

Definition is_binary_digit (c : ascii) : bool :=
  ((code c =? 48) || (code c =? 49))%N.

(** White space and line terminators below 256. *)
Definition is_white_space (c : ascii) : bool :=
  (((9 <=? code c) && (code c <=? 13)) || (code c =? 32) || (code c =? 160))%N.

Fixpoint trim_start (s : list ascii) : list ascii :=
  match s with
  | c :: rest => if is_white_space c then trim_start rest else s
  | [] => []
  end.

Definition trim (s : list ascii) : list ascii :=
  rev (trim_start (rev (trim_start s))).

Fixpoint span (p : ascii -> bool) (s : list ascii) : list ascii * list ascii :=
  match s with
  | c :: rest =>
      if p c then let (a, b) := span p rest in (c :: a, b) else ([], s)
  | [] => ([], [])
  end.

Definition nonempty (s : list ascii) : bool :=
  match s with [] => false | _ => true end.

Definition all_of (p : ascii -> bool) (s : list ascii) : bool :=
  nonempty s && forallb p s.

Definition is_sign (c : ascii) : bool := ((code c =? 43) || (code c =? 45))%N.

Definition strip_sign (s : list ascii) : list ascii :=
  match s with
  | c :: rest => if is_sign c then rest else s
  | [] => []
  end.

(** ExponentPart, or nothing. *)
Definition exponent_opt (s : list ascii) : bool :=
  match s with
  | [] => true
  | c :: rest =>
      ((code c =? 101) || (code c =? 69))%N && all_of is_digit (strip_sign rest)
  end.

(** StrUnsignedDecimalLiteral *)
Definition unsigned_decimal (s : list ascii) : bool :=
  if String.eqb (string_of_list_ascii s) "Infinity" then true
  else
    let (int_part, r1) := span is_digit s in
    match r1 with
    | c :: r2 =>
        if (code c =? 46)%N then
          let (frac_part, r3) := span is_digit r2 in
          (nonempty int_part || nonempty frac_part) && exponent_opt r3
        else nonempty int_part && exponent_opt r1
    | [] => nonempty int_part
    end.

(** NonDecimalIntegerLiteral *)
Definition non_decimal (s : list ascii) : bool :=
  match s with
  | z :: x :: rest =>
      (code z =? 48)%N
      && (if ((code x =? 120) || (code x =? 88))%N then all_of is_hex_digit rest
          else if ((code x =? 111) || (code x =? 79))%N then all_of is_octal_digit rest
          else if ((code x =? 98) || (code x =? 66))%N then all_of is_binary_digit rest
          else false)
  | _ => false
  end.

(** Whether [StringToNumber] gives NaN: the trimmed string is neither empty
    nor a StrNumericLiteral. *)
Definition string_isNaN (s : string) : bool :=
  let t := trim (list_ascii_of_string s) in
  match t with
  | [] => false
  | _ => negb (non_decimal t || unsigned_decimal (strip_sign t))
  end.

Definition image (e : element) : string :=
  match e with
  | EString s => s
  | EUndefined | ENull => ""
  | EOther k => k
  end.

(** [Array.prototype.join] with the default separator, which is what an
    array converts to as a primitive. *)
Definition join (l : list element) : string :=
  String.concat "," (map image l).

(** The key [obj[e]] reads. *)
Definition ToPropertyKey (e : element) : string :=
  match e with
  | EString s => s
  | EUndefined => "undefined"
  | ENull => "null"
  | EOther k => k
  end.

Abbreviation heap := (gmap nat (list element)).

Definition array_at (h : heap) (a : nat) : list element :=
  match h !! a with
  | Some l => l
  | None => []
  end.

(** The global [isNaN(v)]. *)
Definition isNaN (h : heap) (v : value) : bool :=
  match v with
  | VUndefined => true
  | VNull => false
  | VBool _ => false
  | VNumber JS.NaN => true
  | VNumber _ => false
  | VString s => string_isNaN s
  | VArray a => string_isNaN (join (array_at h a))
  | VObject => true
  end.

(** [Array.isArray(v)] *)
Definition isArray (v : value) : bool :=
  match v with VArray _ => true | _ => false end.

(** [typeof v === typeof true] *)
Definition isBoolean (v : value) : bool :=
  match v with VBool _ => true | _ => false end.

End Value.

(** ** Discovery engine ([lib/ccrtble.js]) *)
Module Discovery.
Import Value.

Definition UUID_SERVICE_CCRTBLE : string := "3e135142654f9090134aa6ff5bb77046".

Record Advertisement := {
  localName : option string;
  serviceUuids : list string
}.

Record Peripheral := {
  address : string;
  advertisement : Advertisement
}.

(** What the constructor of [CcrtbleDevice] keeps of the peripheral. *)
Record Device := {
  device_peripheral : Peripheral;
  name : option string;
  device_address : string
}.

Definition new_CcrtbleDevice (p : Peripheral) : Device :=
  {| device_peripheral := p;
     name := localName (advertisement p);
     device_address := Codec.normaliseAddress (address p) |}.

(** The property names every object inherits from [Object.prototype]. *)
Definition Object_prototype : list string :=
  ["constructor"; "__defineGetter__"; "__defineSetter__"; "hasOwnProperty";
   "__lookupGetter__"; "__lookupSetter__"; "isPrototypeOf";
   "propertyIsEnumerable"; "toString"; "valueOf"; "__proto__";
   "toLocaleString"]%string.

(** What [this._devices[key]] evaluates to. *)
Inductive property :=
| Own (d : Device)
| Inherited
| Missing.

Definition get_device (devices : gmap string Device) (key : string) : property :=
  match devices !! key with
  | Some d => Own d
  | None => if bool_decide (key ∈ Object_prototype) then Inherited else Missing
  end.

(** [this._devices[key] !== undefined] *)
Definition is_defined (p : property) : bool :=
  match p with Missing => false | _ => true end.

(** [Object.values(this._devices)]. The embedding does not track the order
    of the properties; the array is given in the order of the map. *)
Definition Object_values (devices : gmap string Device) : list Device :=
  (map_to_list devices).*2.

Inductive exn :=
| TypeError (message : string).

Inductive phase :=
| AwaitingPowerOn
| Scanning
| Stopping
| Resolved (devices : list Device)
| Failed (error : string).

(** The timer [_startScan] sets for the duration. *)
Inductive timer_state :=
| NotSet
| Armed
| Cleared
| Fired.

(** One call of [discover] that passed validation. *)
Record Call := {
  optAddresses : nat;
  optDuration : value;
  optIgnoreUnknown : bool;
  call_phase : phase;
  call_timer : timer_state
}.

Definition with_phase (ph : phase) (c : Call) : Call :=
  {| optAddresses := optAddresses c; optDuration := optDuration c;
     optIgnoreUnknown := optIgnoreUnknown c; call_phase := ph;
     call_timer := call_timer c |}.

Definition with_timer (tm : timer_state) (c : Call) : Call :=
  {| optAddresses := optAddresses c; optDuration := optDuration c;
     optIgnoreUnknown := optIgnoreUnknown c; call_phase := call_phase c;
     call_timer := tm |}.

(** What the engine asks of the adapter and of the timers, and what it
    logs. *)
Inductive action :=
| Debug (line : string)
| OnStateChange (c : nat)
| SetTimeout (c : nat) (duration : value)
| ClearTimeout (c : nat)
| OnDiscover (c : nat)
| StartScanning (c : nat)
| StopScanning (c : nat).

(** The single exported instance, with the part of the world it touches. *)
Record t := {
  _devices : gmap string Device;
  heap : Value.heap;
  calls : list Call;
  discover_listeners : list nat;
  noble_state : string;
  trace : list action
}.

Definition set_devices (v : gmap string Device) (s : t) : t :=
  {| _devices := v; heap := heap s; calls := calls s;
     discover_listeners := discover_listeners s;
     noble_state := noble_state s; trace := trace s |}.

Definition set_heap (v : Value.heap) (s : t) : t :=
  {| _devices := _devices s; heap := v; calls := calls s;
     discover_listeners := discover_listeners s;
     noble_state := noble_state s; trace := trace s |}.

Definition set_calls (v : list Call) (s : t) : t :=
  {| _devices := _devices s; heap := heap s; calls := v;
     discover_listeners := discover_listeners s;
     noble_state := noble_state s; trace := trace s |}.

Definition set_discover_listeners (v : list nat) (s : t) : t :=
  {| _devices := _devices s; heap := heap s; calls := calls s;
     discover_listeners := v;
     noble_state := noble_state s; trace := trace s |}.

Definition set_noble_state (v : string) (s : t) : t :=
  {| _devices := _devices s; heap := heap s; calls := calls s;
     discover_listeners := discover_listeners s;
     noble_state := v; trace := trace s |}.

Definition act (l : list action) (s : t) : t :=
  {| _devices := _devices s; heap := heap s; calls := calls s;
     discover_listeners := discover_listeners s;
     noble_state := noble_state s; trace := trace s ++ l |}.

(** [new Ccrtble()] in a process whose adapter is in the given state and
    whose heap holds the given arrays. *)
Definition new (state : string) (h : Value.heap) : t :=
  {| _devices := ∅; heap := h; calls := []; discover_listeners := [];
     noble_state := state; trace := [] |}.

Definition update_call (c : nat) (f : Call -> Call) (s : t) : t :=
  set_calls (alter f c (calls s)) s.

Definition phase_of (c : nat) (s : t) : option phase :=
  call_phase <$> calls s !! c.

Definition timer_of (c : nat) (s : t) : option timer_state :=
  call_timer <$> calls s !! c.

(** [getOpt(options, value, def)]; an absent options object and an absent
    property both read as [undefined]. *)
Definition getOpt (options : option value) (def : value) : value :=
  match options with
  | Some VUndefined | None => def
  | Some v => v
  end.

Record Options := {
  duration : value;
  addresses : value;
  ignoreUnknown : value
}.

(** [_checkDiscovered(addresses)] *)
Definition _checkDiscovered (devices : gmap string Device)
    (addresses : list element) : bool :=
  forallb (fun a => is_defined (get_device devices (ToPropertyKey a))) addresses.

(** [_stopScan()], up to the call of the adapter. *)
Definition _stopScan (c : nat) (s : t) : t :=
  act [StopScanning c] (update_call c (with_phase Stopping) s).

(** [resolve()] of the promise of [_startScan]: the first settlement lets
    [discover] go on to [_stopScan], later ones change nothing. *)
Definition resolve_scan (c : nat) (s : t) : t :=
  match phase_of c s with
  | Some Scanning => _stopScan c s
  | _ => s
  end.

(** [_startScan(addresses, duration, ignoreUnknown)] for the call [c]. *)
Definition _startScan (c : nat) (s : t) : t :=
  match calls s !! c with
  | None => s
  | Some cl =>
      let addrs := array_at (heap s) (optAddresses cl) in
      let s :=
        act [Debug "starting discovery with %sms duration"]
          (update_call c (with_phase Scanning) s) in
      let listed := (0 <? length addrs)%nat in
      let s :=
        if listed
        then act [Debug "(discovery will be stopped when %o %s found)"] s
        else s in
      if listed && _checkDiscovered (_devices s) addrs then resolve_scan c s
      else
        act [SetTimeout c (optDuration cl); OnDiscover c; StartScanning c]
          (set_discover_listeners (discover_listeners s ++ [c])
             (update_call c (with_timer Armed) s))
  end.

(** [addresses.find(addr => addr === deviceAddress)] *)
Definition find_address (addrs : list element) (deviceAddress : string)
  : option element :=
  List.find
    (fun a => match a with EString s => String.eqb s deviceAddress | _ => false end)
    addrs.

(** [!v] for the result of [find_address]. *)
Definition not_found (r : option element) : bool :=
  match r with
  | None => true
  | Some (EString s) => String.eqb s ""
  | Some _ => false
  end.

(** The listener [_startScan] registers for ['discover'], for the call [c]. *)
Definition on_discover (p : Peripheral) (s : t) (c : nat) : t :=
  match calls s !! c with
  | None => s
  | Some cl =>
      let addrs := array_at (heap s) (optAddresses cl) in
      let deviceAddress := Codec.normaliseAddress (address p) in
      if optIgnoreUnknown cl && not_found (find_address addrs deviceAddress)
      then act [Debug "ignoring device with address %s"] s
      else if negb (bool_decide
                      (UUID_SERVICE_CCRTBLE ∈ serviceUuids (advertisement p)))
      then s
      else
        match get_device (_devices s) deviceAddress with
        | Missing =>
            let s :=
              act [Debug "discovered device @ %s"]
                (set_devices
                   (<[deviceAddress := new_CcrtbleDevice p]> (_devices s)) s) in
            if (0 <? length addrs)%nat && _checkDiscovered (_devices s) addrs
            then
              let s := act [Debug "found all requested devices, stopping discovery"] s in
              let s :=
                match call_timer cl with
                | Armed => update_call c (with_timer Cleared) s
                | _ => s
                end in
              resolve_scan c (act [ClearTimeout c] s)
            else s
        | _ => s
        end
  end.

(** The entries of the caller's array are replaced one by one; the first
    entry that has no [replace] method raises a [TypeError] and leaves the
    entries after it as they were. *)
Fixpoint normalise_entries (l : list element) : list element * bool :=
  match l with
  | [] => ([], true)
  | EString s :: rest =>
      let (rest', ok) := normalise_entries rest in
      (EString (Codec.normaliseAddress s) :: rest', ok)
  | e :: rest => (e :: rest, false)
  end.

Inductive result :=
| Throw (e : exn)
| Promise (c : nat).

(** [_ensurePowerOnState()] and what follows it in [discover]. *)
Definition _ensurePowerOnState (c : nat) (s : t) : t :=
  if String.eqb (noble_state s) "poweredOn" then _startScan c s
  else act [Debug "waiting for adapter state change"; OnStateChange c] s.

(** [discover(options)]: the synchronous part up to the first suspension
    of the promise it returns. The array of the default [[]] is allocated
    only when it is used. The message of the [TypeError] an entry without a
    [replace] method raises depends on the entry; one message stands for
    all of them. *)
Definition discover (options : option Options) (s : t) : result * t :=
  let optDuration := getOpt (duration <$> options) (VNumber (JS.of_int 10000)) in
  let optAddresses := getOpt (addresses <$> options) VUndefined in
  let optIgnoreUnknown := getOpt (ignoreUnknown <$> options) (VBool false) in
  let fresh_ref := fresh (dom (heap s)) in
  let (optAddresses, h) :=
    match optAddresses with
    | VUndefined => (VArray fresh_ref, <[fresh_ref := []]> (heap s))
    | v => (v, heap s)
    end in
  if isNaN h optDuration then
    (Throw (TypeError "argument [duration] must be a number"), s)
  else
    match optAddresses with
    | VArray a =>
        match optIgnoreUnknown with
        | VBool ignore =>
            let (entries, ok) := normalise_entries (array_at h a) in
            let s := set_heap (<[a := entries]> h) s in
            if ok then
              let c := length (calls s) in
              let s :=
                set_calls
                  (calls s ++
                   [{| optAddresses := a; optDuration := optDuration;
                       optIgnoreUnknown := ignore;
                       call_phase := AwaitingPowerOn;
                       call_timer := NotSet |}]) s in
              (Promise c, _ensurePowerOnState c s)
            else (Throw (TypeError "address.replace is not a function"), s)
        | _ =>
            (Throw (TypeError "argument [skipUnknown] must be of type boolean"), s)
        end
    | _ => (Throw (TypeError "argument [addresses] must be an array"), s)
    end.

(** *** What the adapter and the timers do to the engine

    [StateChange], [Discover] and [ScanStop] are the events of the adapter
    of these names; [DurationElapsed] is the timer of a call firing;
    [ScanStartError] is the callback of [startScanning] reporting an
    error. *)
Inductive event :=
| StateChange (state : string)
| Discover (p : Peripheral)
| DurationElapsed (c : nat)
| ScanStartError (c : nat) (error : string)
| ScanStop.

Definition is_awaiting (ph : option phase) : bool :=
  match ph with Some AwaitingPowerOn => true | _ => false end.

Definition is_stopping (ph : option phase) : bool :=
  match ph with Some Stopping => true | _ => false end.

(** The calls whose state-change listener still has something to resolve,
    and the calls whose [stopScanning] callback is outstanding. *)
Definition awaiting_power (s : t) : list nat :=
  List.filter (fun c => is_awaiting (phase_of c s)) (seq 0 (length (calls s))).

Definition stopping (s : t) : list nat :=
  List.filter (fun c => is_stopping (phase_of c s)) (seq 0 (length (calls s))).

Definition handle (e : event) (s : t) : t :=
  match e with
  | StateChange state =>
      let s := act [Debug "adapter changed to to '%s'"] (set_noble_state state s) in
      if String.eqb state "poweredOn"
      then foldl (fun s c => _startScan c s) s (awaiting_power s)
      else s
  | Discover p => foldl (on_discover p) s (discover_listeners s)
  | DurationElapsed c =>
      match timer_of c s with
      | Some Armed =>
          resolve_scan c
            (act [Debug "duration reached, stopping discovery"]
               (update_call c (with_timer Fired) s))
      | _ => s
      end
  | ScanStartError c error =>
      match phase_of c s with
      | Some Scanning => update_call c (with_phase (Failed error)) s
      | _ => s
      end
  | ScanStop =>
      let s := act [Debug "discovery finished"] s in
      foldl
        (fun s c => update_call c (with_phase (Resolved (Object_values (_devices s)))) s)
        s (stopping s)
  end.

(** What happens to the engine: a call of [discover] or an event. *)
Inductive step :=
| CallDiscover (options : option Options)
| Event (e : event).

Definition do_step (s : t) (st : step) : t :=
  match st with
  | CallDiscover options => snd (discover options s)
  | Event e => handle e s
  end.

Definition run (sts : list step) (s : t) : t := foldl do_step s sts.

End Discovery.

(** ** Notions of the specification *)
Module Spec.

(** The two separators an address may be written with. *)
Definition is_separator (c : ascii) : Prop :=
  c = Codec.dash \/ c = Codec.colon.

(** [l] is the lower-case form of the capital letter [u]: A to Z, and the
    capital letters of the Latin-1 block. *)
Definition case_pair (u l : ascii) : Prop :=
  let n := N_of_ascii u in
  ((65 <= n <= 90) \/ (192 <= n <= 222 /\ n <> 215))%N
  /\ N_of_ascii l = (n + 32)%N.

(** Two characters that are equal, or differ only in the separator used or
    in letter case. *)
Inductive same_char : ascii -> ascii -> Prop :=
| same_char_refl c : same_char c c
| same_char_separator c d : is_separator c -> is_separator d -> same_char c d
| same_char_lower u l : case_pair u l -> same_char u l
| same_char_upper u l : case_pair u l -> same_char l u.

(** Two addresses that differ only in separator character or letter case. *)
Inductive same_address : string -> string -> Prop :=
| same_address_nil : same_address EmptyString EmptyString
| same_address_cons c d s t :
    same_char c d -> same_address s t ->
    same_address (String c s) (String d t).

End Spec.

(** ** Sessions and buffers used in examples *)
Module Scenario.

(** A session that went through [connect()] on a disconnected peripheral:
    the adapter acknowledged the connection, both characteristics were
    found and the subscription succeeded. *)
Definition ready : Session.t :=
  Session.run
    [Session.PeripheralState "connected";
     Session.AdapterConnect None;
     Session.ServicesDiscovered 1 None true true;
     Session.Subscribed 0 None]
    (snd (Session.connect None (Session.new "disconnected"))).

Definition noon : Session.Date :=
  {| Session.getFullYear := 2020; Session.getMonth := 0;
     Session.getDate := 15; Session.getHours := 12;
     Session.getMinutes := 0; Session.getSeconds := 0 |}.

(** The ready session after [getStatus()]: cell 2 is the command, cell 3
    its connection, cell 4 its write, none acknowledged yet. *)
Definition awaiting_status : Session.t := snd (Session.getStatus noon ready).

(** A session whose [connect()] the adapter has not answered. *)
Definition connecting : Session.t :=
  snd (Session.connect None (Session.new "disconnected")).

(** A status notification of sub-type 1 with the given mode byte and
    target temperature byte. *)
Definition status_notification (b2 b5 : byte) : Buffer.t :=
  [x02; x01; b2; x32; x04; b5; x0f; x14; x19; x03; x18; x03; x2a; x22; x07].

(** A status notification of sub-type 2. *)
Definition unknown_status_notification : Buffer.t := [x02; x02].

(** A thermostat advertising the service, and the options that list it. *)
Definition thermostat : Discovery.Peripheral :=
  {| Discovery.address := "00:1A:22:0E:54:19";
     Discovery.advertisement :=
       {| Discovery.localName := Some "CC-RT-BLE"%string;
          Discovery.serviceUuids := [Discovery.UUID_SERVICE_CCRTBLE] |} |}.

Definition listed : Discovery.Options :=
  {| Discovery.duration := Value.VUndefined;
     Discovery.addresses := Value.VArray 0;
     Discovery.ignoreUnknown := Value.VUndefined |}.

(** The engine of a process whose adapter is powered on; the caller holds
    one array, at reference 0, with the address of the thermostat. *)
Definition fresh_engine : Discovery.t :=
  Discovery.new "poweredOn"
    {[ 0%nat := [Value.EString "00-1A-22-0E-54-19"] ]}.

(** A first [discover()] without options that ran for its whole duration
    and saw nothing. *)
Definition after_empty_scan : Discovery.t :=
  Discovery.run
    [Discovery.CallDiscover None;
     Discovery.Event (Discovery.DurationElapsed 0);
     Discovery.Event Discovery.ScanStop]
    fresh_engine.

(** A first [discover()] without options that saw the thermostat. *)
Definition after_full_scan : Discovery.t :=
  Discovery.run
    [Discovery.CallDiscover None;
     Discovery.Event (Discovery.Discover thermostat);
     Discovery.Event (Discovery.DurationElapsed 0);
     Discovery.Event Discovery.ScanStop]
    fresh_engine.

(** After the empty scan, a second [discover()] lists the thermostat, and
    the thermostat is seen. The listener of the first call is still
    registered. *)
Definition second_call_sees_thermostat : Discovery.t :=
  Discovery.run
    [Discovery.CallDiscover (Some listed);
     Discovery.Event (Discovery.Discover thermostat)]
    after_empty_scan.

(** The same call and the same advertisement on the fresh engine. *)
Definition first_call_sees_thermostat : Discovery.t :=
  Discovery.run
    [Discovery.CallDiscover (Some listed);
     Discovery.Event (Discovery.Discover thermostat)]
    fresh_engine.

(** Two more peripherals advertising the service, and a call that lists
    the thermostat and the first of them and ignores every other address. *)
Definition neighbour : Discovery.Peripheral :=
  {| Discovery.address := "00:1A:22:0E:54:20";
     Discovery.advertisement :=
       {| Discovery.localName := Some "CC-RT-BLE"%string;
          Discovery.serviceUuids := [Discovery.UUID_SERVICE_CCRTBLE] |} |}.

Definition stranger : Discovery.Peripheral :=
  {| Discovery.address := "00:1A:22:0E:54:21";
     Discovery.advertisement :=
       {| Discovery.localName := Some "CC-RT-BLE"%string;
          Discovery.serviceUuids := [Discovery.UUID_SERVICE_CCRTBLE] |} |}.

Definition pair_listed : Discovery.Options :=
  {| Discovery.duration := Value.VUndefined;
     Discovery.addresses := Value.VArray 0;
     Discovery.ignoreUnknown := Value.VBool true |}.

Definition pair_engine : Discovery.t :=
  Discovery.new "poweredOn"
    {[ 0%nat := [Value.EString "00-1A-22-0E-54-19";
                 Value.EString "00:1a:22:0e:54:20"] ]}.

Definition pair_scan : list Discovery.step :=
  [Discovery.CallDiscover (Some pair_listed);
   Discovery.Event (Discovery.Discover thermostat);
   Discovery.Event (Discovery.Discover neighbour)].

End Scenario.

(** ** Character codes ([String.fromCharCode]) *)
Module CharCode.

(** ECMAScript [ToUint16]: NaN and the infinities become 0, a finite number
    is truncated toward zero and reduced modulo 65536. *)
Definition ToUint16 (x : JS.number) : Z :=
  match x with
  | JS.Num q => JS.truncate q mod 65536
  | _ => 0
  end.

(** [String.fromCharCode(x)]: the one code unit of the string it returns. *)
Definition fromCharCode (x : JS.number) : Z := ToUint16 x.

(** [result.serial] as the loop of [_parseInfo] builds it, one code unit
    for every iteration. *)
Definition serial_string (r : Codec.InfoRecord) : list Z :=
  map fromCharCode (Codec.serial r).

End CharCode.

(** ** The sample script ([samples/sample.js]) *)
Module Sample.

(** The address the script looks for. *)
Definition wanted : string := "00:1a:22:0e:54:19".

(** The array literal of [discoverOptions.addresses], the one array of the
    process, at reference 0. *)
Definition arrays : Value.heap := {[ 0%nat := [Value.EString wanted] ]}.

Definition discoverOptions : Discovery.Options :=
  {| Discovery.duration := Value.VNumber (JS.of_int 30000);
     Discovery.addresses := Value.VArray 0;
     Discovery.ignoreUnknown := Value.VBool true |}.

(** The engine [require('../lib/ccrtble.js')] gives the script, in a
    process whose adapter is in the given state. *)
Definition ccrtble (state : string) : Discovery.t := Discovery.new state arrays.

(** The script up to the end of [await ccrtble.discover(discoverOptions)]:
    the call, and what the adapter and the timer do after it. *)
Definition scan (state : string) (es : list Discovery.event) : Discovery.t :=
  Discovery.run
    (Discovery.CallDiscover (Some discoverOptions) :: map Discovery.Event es)
    (ccrtble state).

(** [devices.find(entry => entry.address === '00:1a:22:0e:54:19')] *)
Definition find_device (devices : list Discovery.Device) : option Discovery.Device :=
  List.find (fun entry => String.eqb (Discovery.device_address entry) wanted) devices.

End Sample.

(** * Properties *)

(** ** Numbers and buffers *)
Section NumberFacts.

Lemma byteZ_range b : 0 <= Buffer.byteZ b < 256.
Proof. unfold Buffer.byteZ. destruct b; vm_compute; split; congruence. Qed.

Lemma byteZ_u8 z : Buffer.byteZ (Buffer.u8 z) = z mod 256.
Proof.
  unfold Buffer.u8, Buffer.byteZ.
  assert (Hr : 0 <= z mod 256 < 256) by (apply Z.mod_pos_bound; lia).
  destruct (Byte.of_N (Z.to_N (z mod 256))) as [b|] eqn:E.
  - apply Byte.to_of_N in E. rewrite E. lia.
  - apply Byte.of_N_None_iff in E. lia.
Qed.

Lemma get_Some_byte (data : Buffer.t) i z :
  Buffer.get data i = Some z -> exists b, data !! i = Some b /\ z = Buffer.byteZ b.
Proof.
  unfold Buffer.get. destruct (data !! i) as [b|]; simpl; [|discriminate].
  intros [= <-]. eauto.
Qed.

(** Truncation does not depend on the fraction that represents a rational
    integer. *)
Lemma truncate_integer q n : Qeq q (inject_Z n) -> JS.truncate q = n.
Proof.
  unfold Qeq, JS.truncate. simpl. intros H.
  rewrite Z.mul_1_r in H. rewrite H. apply Z.quot_mul. discriminate.
Qed.

End NumberFacts.

(** ** Lists used as tables of cells *)
Section ListFacts.
Context {A : Type}.

Lemma lookup_new (l : list A) x : (l ++ [x]) !! length l = Some x.
Proof. by apply list_lookup_middle. Qed.

Lemma lookup_new2 (l : list A) x y : ((l ++ [x]) ++ [y]) !! length l = Some x.
Proof.
  rewrite lookup_app_l; [apply lookup_new|]. rewrite length_app; simpl; lia.
Qed.

Lemma lookup_new_S (l : list A) x y :
  ((l ++ [x]) ++ [y]) !! S (length l) = Some y.
Proof.
  replace (S (length l)) with (length (l ++ [x])); [apply lookup_new|].
  rewrite length_app. simpl. lia.
Qed.

Lemma alter_new (f : A -> A) (l : list A) x :
  alter f (length l) (l ++ [x]) = l ++ [f x].
Proof.
  replace (length l) with (length l + 0)%nat by lia.
  by rewrite alter_app_r.
Qed.

End ListFacts.

(** ** Sessions: sending a command on a connected peripheral *)
Section SendCommandFacts.

Ltac session_eval :=
  cbv beta iota zeta delta
    [Session._sendCommand Session.connect Session.timeout Session.alloc Session.mark
     Session.arm Session.once Session.emit_effects Session.set_timers
     Session.set_cells Session.set_listeners Session._writeCharacteristic
     Session.after_connect Session.after_write
     Session.peripheral_state Session.isConnected Session.dataCharacteristic
     Session.commandCharacteristic Session.listeners Session.cells
     Session.timers Session.now Session.effects
     Session.op Session.created Session.result Session.settle_cell
     fst snd String.eqb Ascii.eqb Bool.eqb Z.ltb Z.compare
     fmap option_fmap option_map].

(** On a peripheral the adapter reports connected, with a command
    characteristic resolved, [_sendCommand] registers its listener and
    hands the buffer to the adapter at once. *)
Lemma sendCommand_connected buffer ev s :
  Session.peripheral_state s = "connected"%string ->
  Session.commandCharacteristic s = true ->
  let c := length (Session.cells s) in
  let t := Session.now s in
  Session._sendCommand buffer ev s =
  (c,
   {| Session.peripheral_state := "connected";
      Session.isConnected := Session.isConnected s;
      Session.dataCharacteristic := Session.dataCharacteristic s;
      Session.commandCharacteristic := true;
      Session.listeners := Session.listeners s ++ [(Session.OnData ev, c)];
      Session.cells :=
        ((Session.cells s
          ++ [{| Session.op := Session.SendCommand buffer ev;
                 Session.created := t; Session.result := None |}])
          ++ [{| Session.op := Session.Connect (Some c);
                 Session.created := t;
                 Session.result := Some (Session.Fulfilled Session.Undefined, t) |}])
          ++ [{| Session.op := Session.WriteCharacteristic c;
                 Session.created := t; Session.result := None |}];
      Session.timers :=
        ((Session.timers s
          ++ [{| Session.deadline := t + 10000; Session.owner := S c;
                 Session.duration := 10000 |}])
          ++ [{| Session.deadline := t + 10000; Session.owner := c;
                 Session.duration := 10000 |}])
          ++ [{| Session.deadline := t + 10000; Session.owner := S (S c);
                 Session.duration := 10000 |}];
      Session.now := t;
      Session.effects :=
        Session.effects s
        ++ [Session.Adapter (Session.CharacteristicWrite (S (S c)) buffer)] |}).
Proof.
  intros Hp Hc.
  destruct s as [ps ic dc cc ls cs ts nw es]. simpl in Hp, Hc. subst ps cc.
  session_eval.
  rewrite alter_new. session_eval.
  rewrite lookup_new_S. session_eval.
  rewrite lookup_new2. session_eval.
  rewrite lookup_new. session_eval.
  rewrite !length_app. simpl length.
  replace (length cs + 1)%nat with (S (length cs)) by lia.
  replace (S (length cs) + 1)%nat with (S (S (length cs))) by lia.
  reflexivity.
Qed.

End SendCommandFacts.

(** ** Protocol codec *)
Section CodecFacts.

Lemma truncate_double q :
  JS.truncate (q * inject_Z 2) = Z.quot (2 * Qnum q) (Zpos (Qden q)).
Proof.
  unfold JS.truncate. simpl. rewrite Pos.mul_1_r. f_equal. lia.
Qed.

(** C2, as stated, fails: for 21.3 the payload byte written is 42, while
    round(21.3 x 2) is 43. *)
Lemma setTargetTemperature_21_3_writes_42 :
  Session.effects
    (snd (Session.setTargetTemperature (JS.Num (213 # 10)) Scenario.ready))
    = Session.effects Scenario.ready
      ++ [Session.Adapter (Session.CharacteristicWrite 4 [x41; x2a])]
  /\ Buffer.byteZ x2a = 42
  /\ JS.round ((213 # 10) * inject_Z 2) = 43.
Proof. vm_compute. repeat split. Qed.

(** C2, amended: [setTargetTemperature(value)] on a connected session with
    a command characteristic writes the two-byte buffer [0x41, b] where [b]
    is twice the value truncated toward zero and reduced modulo 256, and 0
    when the value is NaN or infinite. *)
Theorem setTargetTemperature_writes_truncated
    (temperature : JS.number) (s : Session.t) :
  Session.peripheral_state s = "connected"%string ->
  Session.commandCharacteristic s = true ->
  exists w b,
    Session.effects (snd (Session.setTargetTemperature temperature s))
      = Session.effects s
        ++ [Session.Adapter (Session.CharacteristicWrite w [x41; b])]
    /\ Buffer.byteZ b =
       match temperature with
       | JS.Num q => Z.quot (2 * Qnum q) (Zpos (Qden q)) mod 256
       | _ => 0
       end.
Proof.
  intros Hp Hc.
  exists (S (S (length (Session.cells s)))).
  exists (Buffer.u8 (JS.ToUint8 (JS.mul_const temperature 2))).
  split.
  - unfold Session.setTargetTemperature.
    rewrite (sendCommand_connected _ _ s Hp Hc). reflexivity.
  - rewrite byteZ_u8. destruct temperature; try reflexivity.
    simpl JS.mul_const. unfold JS.ToUint8. rewrite truncate_double.
    apply Z.mod_mod. lia.
Qed.

Lemma setTargetTemperature_writes_truncated_witness :
  exists w b,
    Session.effects
      (snd (Session.setTargetTemperature (JS.Num (213 # 10)) Scenario.ready))
      = Session.effects Scenario.ready
        ++ [Session.Adapter (Session.CharacteristicWrite w [x41; b])]
    /\ Buffer.byteZ b = Z.quot (2 * 213) 10 mod 256.
Proof.
  apply (setTargetTemperature_writes_truncated (JS.Num (213 # 10)) Scenario.ready);
    reflexivity.
Defined.

Lemma parseStatus_Status data r :
  fst (Codec._parseStatus data) = Codec.Status r ->
  Z.land (JS.ToInt32 (Buffer.get data 1)) 0xF = 1 /\
  Codec.targetTemp r = JS.div_const (JS.ToNumber (Buffer.get data 5)) 2.
Proof.
  unfold Codec._parseStatus.
  destruct (Z.land (JS.ToInt32 (Buffer.get data 1)) 15 =? 1) eqn:E; simpl; [|discriminate].
  intros [= <-]. split; [by apply Z.eqb_eq|reflexivity].
Qed.

(** C3: a temperature representable in half-degree steps, written as the
    payload byte of the target-temperature command and read back as the
    [targetTemp] field of a status notification carrying that byte at
    offset 5, is recovered exactly. *)
Theorem target_temperature_roundtrip (t : Q) (n : Z) (data : Buffer.t) (b : byte) (r : Codec.StatusRecord) :
  0 <= n <= 255 -> Qeq (t * inject_Z 2) (inject_Z n) ->
  Codec.setTargetTemperature_buffer (JS.Num t) !! 1%nat = Some b ->
  data !! 5%nat = Some b ->
  fst (Codec._parseStatus data) = Codec.Status r ->
  JS.num_eq (Codec.targetTemp r) (JS.Num t).
Proof.
  intros Hn Ht Hb Hd Hr.
  apply parseStatus_Status in Hr as [_ ->].
  unfold Buffer.get. rewrite Hd. simpl.
  injection Hb as <-.
  rewrite byteZ_u8. unfold JS.ToUint8. simpl JS.mul_const in *.
  rewrite (truncate_integer _ n Ht).
  rewrite !(Z.mod_small n 256) by lia.
  rewrite <- Ht. field.
Qed.

Lemma target_temperature_roundtrip_witness :
  exists r,
    fst (Codec._parseStatus (Scenario.status_notification x08 x2b)) = Codec.Status r
    /\ JS.num_eq (Codec.targetTemp r) (JS.Num (43 # 2)).
Proof.
  eexists. split; [reflexivity|].
  apply (target_temperature_roundtrip (43 # 2) 43
           (Scenario.status_notification x08 x2b) x2b);
    [lia | reflexivity | reflexivity | reflexivity | reflexivity].
Defined.

Local Abbreviation normalise_char c :=
  (Codec.lower_char (if Ascii.eqb c Codec.dash then Codec.colon else c)).

Lemma normaliseAddress_cons c s :
  Codec.normaliseAddress (String c s) = String (normalise_char c) (Codec.normaliseAddress s).
Proof. reflexivity. Qed.

Lemma normalise_char_idempotent c : normalise_char (normalise_char c) = normalise_char c.
Proof. destruct c as [[] [] [] [] [] [] [] []]; reflexivity. Qed.

Lemma case_pair_normalise u l : Spec.case_pair u l -> normalise_char u = normalise_char l.
Proof.
  intros [Hu Hl].
  assert (El : l = ascii_of_N (N_of_ascii u + 32)).
  { rewrite <- Hl. symmetry. apply ascii_N_embedding. }
  subst l. clear Hl.
  destruct u as [[] [] [] [] [] [] [] []]; try reflexivity;
    exfalso; cbn in Hu; lia.
Qed.

Lemma same_char_normalise c d : Spec.same_char c d -> normalise_char c = normalise_char d.
Proof.
  intros [c'|c' d' Hc Hd|u l H|u l H].
  - reflexivity.
  - destruct Hc as [-> | ->], Hd as [-> | ->]; reflexivity.
  - by apply case_pair_normalise.
  - symmetry. by apply case_pair_normalise.
Qed.

(** C4: [normaliseAddress] is idempotent, two addresses that differ only
    in the separator used or in letter case have the same normal form, and
    so do "00-1A-22" and "00:1a:22". *)
Theorem normaliseAddress_canonical (a b : string) :
  Codec.normaliseAddress (Codec.normaliseAddress a) = Codec.normaliseAddress a
  /\ (Spec.same_address a b -> Codec.normaliseAddress a = Codec.normaliseAddress b)
  /\ Codec.normaliseAddress "00-1A-22" = Codec.normaliseAddress "00:1a:22".
Proof.
  split; [|split].
  - induction a as [|c a IH]; [reflexivity|].
    rewrite !normaliseAddress_cons, normalise_char_idempotent. by f_equal.
  - induction 1 as [|c d s t Hc _ IH]; [reflexivity|].
    rewrite !normaliseAddress_cons. f_equal; [by apply same_char_normalise|done].
  - reflexivity.
Qed.

Lemma normaliseAddress_canonical_witness :
  Spec.same_address "00-1A-22" "00:1a:22"
  /\ Codec.normaliseAddress "00-1A-22" = Codec.normaliseAddress "00:1a:22".
Proof.
  assert (Hsep : Spec.same_char "-" ":").
  { apply Spec.same_char_separator; [left|right]; reflexivity. }
  assert (Hcase : Spec.same_char "A" "a").
  { apply Spec.same_char_lower. unfold Spec.case_pair. cbn. lia. }
  assert (H : Spec.same_address "00-1A-22" "00:1a:22").
  { repeat first
      [ apply Spec.same_address_nil
      | apply Spec.same_address_cons;
        [ first [ exact Hsep | exact Hcase | apply Spec.same_char_refl ] | ] ]. }
  split; [exact H|].
  exact (proj1 (proj2 (normaliseAddress_canonical "00-1A-22" "00:1a:22")) H).
Defined.

Lemma byte_bits (b : byte) :
  let z := Buffer.byteZ b in
  Z.land z 0x3 = z mod 4
  /\ Codec.flag z 0x01 = Z.odd z
  /\ Codec.flag z 0x02 = Z.testbit z 1
  /\ Codec.flag z 0x04 = Z.testbit z 2
  /\ Codec.flag z 0x08 = Z.testbit z 3
  /\ Codec.flag z 0x10 = Z.testbit z 4
  /\ Codec.flag z 0x20 = Z.testbit z 5
  /\ Codec.flag z 0x80 = Z.testbit z 7.
Proof. destruct b; vm_compute; repeat split. Qed.





End CodecFacts.

(** ** Sessions: settling cells *)
Section MarkFacts.
Import Session.


Lemma settle_cell_idempotent o t cl :
  settle_cell o t (settle_cell o t cl) = settle_cell o t cl.
Proof. unfold settle_cell. destruct cl as [? ? [r|]]; reflexivity. Qed.

Lemma foldl_mark o l s :
  mark_all o l s
  = set_cells (foldl (fun cs c => alter (settle_cell o (now s)) c cs) (cells s) l) s.
Proof.
  unfold mark_all. revert s. induction l as [|c l IH]; intros s; simpl.
  - by destruct s.
  - rewrite IH. reflexivity.
Qed.

Lemma lookup_foldl_alter (f : cell -> cell) l (cs : list cell) i :
  (forall x, f (f x) = f x) ->
  foldl (fun cs c => alter f c cs) cs l !! i
  = if decide (i ∈ l) then f <$> cs !! i else cs !! i.
Proof.
  intros Hf. revert cs. induction l as [|c l IH]; intros cs; simpl.
  - reflexivity.
  - rewrite IH. destruct (decide (i = c)) as [->|Hne].
    + rewrite list_lookup_alter_eq.
      destruct (decide (c ∈ c :: l)) as [_|n]; [|exfalso; apply n; left].
      destruct (decide (c ∈ l)); [|done].
      destruct (cs !! c); simpl; [by rewrite Hf|done].
    + rewrite list_lookup_alter_ne by done.
      destruct (decide (i ∈ l)) as [Hin|Hin],
               (decide (i ∈ c :: l)) as [Hin'|Hin']; try done.
      * exfalso; apply Hin'; by right.
      * apply elem_of_cons in Hin' as [?|?]; contradiction.
Qed.

Lemma marks_outcome o l s c :
  outcome_of c (mark_all o l s)
  = if decide (c ∈ l)
    then (if pending c s then Some (o, now s) else outcome_of c s)
    else outcome_of c s.
Proof.
  rewrite foldl_mark. unfold outcome_of, pending. cbn.
  rewrite lookup_foldl_alter by apply settle_cell_idempotent.
  destruct (decide _); [|reflexivity].
  destruct (cells s !! c) as [[? ? [r|]]|]; reflexivity.
Qed.

Lemma marks_pending o l s c :
  pending c (mark_all o l s) = if decide (c ∈ l) then false else pending c s.
Proof.
  rewrite foldl_mark. unfold pending. cbn.
  rewrite lookup_foldl_alter by apply settle_cell_idempotent.
  destruct (decide _); [|reflexivity].
  destruct (cells s !! c) as [[? ? [r|]]|]; reflexivity.
Qed.

Lemma marks_app o l1 l2 s : mark_all o l2 (mark_all o l1 s) = mark_all o (l1 ++ l2) s.
Proof. unfold mark_all. by rewrite foldl_app. Qed.

Lemma mark_lookup_self c o s cl :
  cells s !! c = Some cl -> result cl = None ->
  cells (mark c o s) !! c
  = Some {| op := op cl; created := created cl; result := Some (o, now s) |}.
Proof.
  intros Hc Hr. unfold mark. cbn. rewrite list_lookup_alter_eq, Hc. simpl.
  unfold settle_cell. by rewrite Hr.
Qed.

Lemma pending_lookup c s :
  pending c s = true -> exists cl, cells s !! c = Some cl /\ result cl = None.
Proof.
  unfold pending. destruct (cells s !! c) as [cl|]; [|discriminate].
  destruct (result cl) eqn:E; [discriminate|]. eauto.
Qed.

(** A rejection travels from a cell to the cells that await it, and does
    nothing else. *)
Lemma settle_connect_rejected k e s :
  exists l,
    settle_connect k (Rejected e) s = mark_all (Rejected e) l s
    /\ (pending k s = true -> k ∈ l).
Proof.
  unfold settle_connect. destruct (pending k s) eqn:Hp.
  - destruct (pending_lookup _ _ Hp) as (cl & Hc & Hr).
    unfold after_connect.
    rewrite (mark_lookup_self _ _ _ _ Hc Hr). cbn.
    destruct (op cl) as [[caller|]| | | |].
    + exists [k; caller]. split; [reflexivity|]. intros _. left.
    + exists [k]. split; [reflexivity|]. intros _. left.
    + exists [k]. split; [reflexivity|]. intros _. left.
    + exists [k]. split; [reflexivity|]. intros _. left.
    + exists [k]. split; [reflexivity|]. intros _. left.
    + exists [k]. split; [reflexivity|]. intros _. left.
  - exists []. split; [reflexivity|discriminate].
Qed.

Lemma settle_write_rejected w e s :
  exists l,
    settle_write w (Rejected e) s = mark_all (Rejected e) l s
    /\ (pending w s = true -> w ∈ l).
Proof.
  unfold settle_write. destruct (pending w s) eqn:Hp.
  - destruct (pending_lookup _ _ Hp) as (cl & Hc & Hr).
    unfold after_write.
    rewrite (mark_lookup_self _ _ _ _ Hc Hr). cbn.
    destruct (op cl) as [[caller|]| | | |caller].
    all: try (exists [w]; split; [reflexivity|]; intros _; left).
    exists [w; caller]. split; [reflexivity|]. intros _. left.
  - exists []. split; [reflexivity|discriminate].
Qed.

Lemma settle_resolve_rejected r e s :
  exists l,
    settle_resolve r (Rejected e) s = mark_all (Rejected e) l s
    /\ (pending r s = true -> r ∈ l).
Proof.
  unfold settle_resolve. destruct (pending r s) eqn:Hp.
  - destruct (pending_lookup _ _ Hp) as (cl & Hc & Hr).
    unfold after_resolve.
    rewrite (mark_lookup_self _ _ _ _ Hc Hr). cbn.
    destruct (op cl) as [[caller|]| | |k|caller].
    all: try (exists [r]; split; [reflexivity|]; intros _; left).
    destruct (settle_connect_rejected k e (mark r (Rejected e) s)) as (l & -> & _).
    exists (r :: l). split; [reflexivity|]. intros _. left.
  - exists []. split; [reflexivity|discriminate].
Qed.

Lemma settle_rejected c e s :
  exists l,
    settle c (Rejected e) s = mark_all (Rejected e) l s
    /\ (pending c s = true -> c ∈ l).
Proof.
  unfold settle. destruct (cells s !! c) as [cl|] eqn:Hc; simpl.
  - destruct (op cl) as [[caller|]| | |k|caller].
    all: try apply settle_connect_rejected.
    all: try apply settle_resolve_rejected.
    all: try apply settle_write_rejected.
    all: exists [c]; split; [reflexivity|]; intros _; left.
  - exists []. split; [reflexivity|]. unfold pending. by rewrite Hc.
Qed.

Lemma fire_marks tm s :
  exists l,
    fire tm s
    = mark_all (Rejected (TimeoutError (duration tm))) l
        (set_now (Z.max (now s) (deadline tm)) s)
    /\ (pending (owner tm) s = true -> owner tm ∈ l).
Proof.
  unfold fire.
  destruct (settle_rejected (owner tm) (TimeoutError (duration tm))
              (set_now (Z.max (now s) (deadline tm)) s)) as (l & H1 & H2).
  exists l. split; [exact H1|exact H2].
Qed.

(** Firing the timers that are due settles their owners, settles nothing
    but by a timeout, and leaves the rest of the session alone. *)
Lemma fire_all limit due : forall s,
  Forall (fun tm => deadline tm <= limit) due ->
  now s <= limit ->
  let s' := foldl (fun s tm => fire tm s) s due in
  (exists cs t, s' = set_now t (set_cells cs s))
  /\ now s' <= limit
  /\ (forall c, pending c s = false -> pending c s' = false)
  /\ (forall tm, tm ∈ due -> pending (owner tm) s' = false)
  /\ (forall c,
        (outcome_of c s' = outcome_of c s /\ pending c s' = pending c s)
        \/ (pending c s = true
            /\ exists tm t,
                 tm ∈ due
                 /\ outcome_of c s'
                    = Some (Rejected (TimeoutError (duration tm)), t)
                 /\ t <= limit)).
Proof.
  induction due as [|tm due IH]; intros s Hdue Hnow; simpl.
  - repeat split.
    + exists (cells s), (now s). by destruct s.
    + done.
    + done.
    + intros tm [] %elem_of_nil.
    + intros c. by left.
  - apply Forall_cons in Hdue as [Htm Hdue].
    destruct (fire_marks tm s) as (l & Hfire & Hin).
    set (s1 := fire tm s) in *.
    assert (Hnow1 : now s1 = Z.max (now s) (deadline tm)).
    { rewrite Hfire, foldl_mark. reflexivity. }
    assert (Hle1 : now s1 <= limit) by lia.
    assert (Hp1 : forall c, pending c s1
                            = if decide (c ∈ l) then false else pending c s).
    { intros c. rewrite Hfire, marks_pending. reflexivity. }
    assert (Ho1 : forall c, outcome_of c s1
                            = if decide (c ∈ l)
                              then (if pending c s
                                    then Some (Rejected (TimeoutError (duration tm)), now s1)
                                    else outcome_of c s)
                              else outcome_of c s).
    { intros c. rewrite Hnow1, Hfire, marks_outcome. reflexivity. }
    destruct (IH s1 Hdue Hle1) as ((cs & t & Hfr) & Hle & Hmono & Hown & Hout).
    repeat split.
    + rewrite Hfr, Hfire, foldl_mark. eexists _, _. by destruct s.
    + exact Hle.
    + intros c Hc. apply Hmono. rewrite Hp1, Hc. by destruct (decide _).
    + intros tm0 [->|Hin0]%elem_of_cons; [|by apply Hown].
      apply Hmono. rewrite Hp1.
      destruct (decide (owner tm ∈ l)) as [|Hn]; [done|].
      destruct (pending (owner tm) s) eqn:E; [|done].
      exfalso. by apply Hn, Hin.
    + intros c. destruct (Hout c) as [[Heq Hpe]|(Hpc & tm0 & t0 & Hin0 & Ho & Hle0)].
      * rewrite Heq, Hpe, Ho1, Hp1. destruct (decide (c ∈ l)); [|by left].
        destruct (pending c s) eqn:E; [|by left].
        right. split; [done|]. exists tm, (now s1).
        split; [left|]. split; [done|lia].
      * right. split.
        { rewrite Hp1 in Hpc. by destruct (decide (c ∈ l)). }
        exists tm0, t0. split; [by right|]. done.
Qed.

End MarkFacts.

(** ** Sessions: emitting a data event *)
Section EmitFacts.
Import Session.

Lemma emit_listeners ev v s :
  listeners (emit ev v s)
  = filter (fun l => target_eqb (fst l) (OnData ev) = false) (listeners s).
Proof. unfold emit. rewrite foldl_mark. reflexivity. Qed.

Lemma emit_effects_same ev v s : effects (emit ev v s) = effects s.
Proof. unfold emit. rewrite foldl_mark. reflexivity. Qed.

Lemma emit_outcome ev v s c :
  outcome_of c (emit ev v s)
  = if decide (c ∈ registered (OnData ev) s)
    then (if pending c s then Some (Fulfilled v, now s) else outcome_of c s)
    else outcome_of c s.
Proof. unfold emit. rewrite marks_outcome. reflexivity. Qed.

Lemma target_eqb_eq a b : target_eqb a b = true <-> a = b.
Proof.
  destruct a as [| |[]], b as [| |[]]; simpl; split; congruence.
Qed.

Lemma registered_filter_other tg tg' ls :
  tg <> tg' ->
  map snd (filter (fun l => target_eqb (fst l) tg' = true)
             (filter (fun l : target * nat => target_eqb (fst l) tg = false) ls))
  = map snd (filter (fun l : target * nat => target_eqb (fst l) tg' = true) ls).
Proof.
  intros Hne. induction ls as [|[a c] ls IH]; [reflexivity|].
  rewrite !filter_cons. simpl.
  destruct (decide (target_eqb a tg = false)) as [E|E].
  - rewrite filter_cons. simpl. destruct (decide _); simpl; by rewrite IH.
  - apply not_false_is_true, target_eqb_eq in E. subst a.
    rewrite decide_False; [exact IH|].
    intros H%target_eqb_eq. congruence.
Qed.

Lemma registered_filter_same tg ls :
  map snd (filter (fun l => target_eqb (fst l) tg = true)
             (filter (fun l : target * nat => target_eqb (fst l) tg = false) ls))
  = [].
Proof.
  induction ls as [|[a c] ls IH]; [reflexivity|].
  rewrite filter_cons. simpl.
  destruct (decide (target_eqb a tg = false)) as [E|E]; [|exact IH].
  rewrite filter_cons. simpl. rewrite decide_False; [exact IH|congruence].
Qed.

End EmitFacts.

(** ** Sessions: timers of the reachable states *)
Section TimerFacts.
Import Session.

(** [s'] comes after [s] within one turn of the event loop: the cells of
    [s] are still there, created when they were; every timer of [s'] is a
    timer of [s] or the timer of an operation; the clock has not moved. *)
Local Abbreviation calm s s' :=
  ((forall c cl, cells s !! c = Some cl ->
      exists cl', cells s' !! c = Some cl' /\ created cl' = created cl)
   /\ (forall tm, tm ∈ timers s' -> tm ∈ timers s \/ timer_of_operation s' tm)
   /\ now s' = now s
   /\ (forall tm, tm ∈ timers s -> tm ∈ timers s')
   /\ (forall c, pending c s' = true ->
         pending c s = true \/ exists tm, tm ∈ timers s' /\ owner tm = c)).

Lemma calm_refl s : calm s s.
Proof. repeat split; eauto. Qed.

Lemma calm_trans s1 s2 s3 : calm s1 s2 -> calm s2 s3 -> calm s1 s3.
Proof.
  intros (Hc1 & Ht1 & Hn1 & Hs1 & Hp1) (Hc2 & Ht2 & Hn2 & Hs2 & Hp2).
  repeat split.
  - intros c cl H. destruct (Hc1 c cl H) as (cl' & H' & E').
    destruct (Hc2 c cl' H') as (cl'' & H'' & E''). exists cl''. split; [done|congruence].
  - intros tm H. destruct (Ht2 tm H) as [H2|H2]; [|by right].
    destruct (Ht1 tm H2) as [H1|(Hd & cl & Hcl & Hdl)]; [by left|].
    right. split; [done|].
    destruct (Hc2 _ cl Hcl) as (cl' & H' & E'). exists cl'. split; [done|congruence].
  - congruence.
  - auto.
  - intros c H. destruct (Hp2 c H) as [H2|H2]; [|by right].
    destruct (Hp1 c H2) as [H1|(tm & Htm & Ho)]; [by left|].
    right. exists tm. auto.
Qed.

Lemma calm_same s s' :
  cells s' = cells s -> timers s' = timers s -> now s' = now s -> calm s s'.
Proof.
  intros Hc Ht Hn. unfold pending. rewrite Hc, Ht. repeat split; eauto.
Qed.

Lemma calm_mark_all o l s : calm s (mark_all o l s).
Proof.
  repeat split.
  - intros c cl H. rewrite foldl_mark. cbn.
    rewrite lookup_foldl_alter by apply settle_cell_idempotent.
    rewrite H. destruct (decide _); simpl; eexists; (split; [done|]); [|done].
    unfold settle_cell. by destruct (result cl).
  - rewrite foldl_mark. by left.
  - by rewrite foldl_mark.
  - by rewrite foldl_mark.
  - intros c. rewrite marks_pending. destruct (decide _); [discriminate|by left].
Qed.

Lemma calm_mark c o s : calm s (mark c o s).
Proof. apply (calm_mark_all o [c] s). Qed.

(** The pattern of [timeout]: a cell is created, the executor runs, the
    timer is armed. *)
Lemma calm_timeout o (f : nat -> t -> t) s :
  (forall k s1, calm s1 (f k s1)) ->
  calm s (arm 10000 (length (cells s)) (f (length (cells s)) (snd (alloc o s)))).
Proof.
  intros Hf.
  set (k := length (cells s)). set (s1 := snd (alloc o s)).
  destruct (Hf k s1) as (Hc & Ht & Hn & Hs & Hp).
  assert (Hk : exists cl, cells (f k s1) !! k = Some cl /\ created cl = now s).
  { destruct (Hc k {| op := o; created := now s; result := None |})
      as (cl & H & E); [apply lookup_new|]. eauto. }
  assert (Harm : {| deadline := now (f k s1) + 10000; owner := k; duration := 10000 |}
                 ∈ timers (arm 10000 k (f k s1))).
  { apply elem_of_app. right. left. }
  repeat split.
  - intros c cl H. apply Hc. cbn. by apply lookup_app_l_Some.
  - intros tm [H|H]%elem_of_app.
    + destruct (Ht tm H) as [H1|H1]; [by left|by right].
    + apply list_elem_of_singleton in H. subst tm. right.
      split; [reflexivity|]. destruct Hk as (cl & Hcl & E).
      exists cl. split; [exact Hcl|]. cbn. rewrite E. cbn in Hn. lia.
  - exact Hn.
  - intros tm H. apply elem_of_app. left. by apply Hs.
  - intros c H. destruct (Hp c H) as [H1|(tm & Htm & Ho)].
    + unfold pending in H1. cbn in H1.
      destruct (decide (c < length (cells s))%nat) as [Hlt|Hge].
      * left. unfold pending. by rewrite lookup_app_l in H1.
      * right. eexists. split; [exact Harm|]. cbn.
        destruct (decide (c = k)) as [->|Hne]; [done|].
        rewrite lookup_ge_None_2 in H1; [discriminate|].
        rewrite length_app. simpl. subst k. lia.
    + right. exists tm. split; [|done]. apply elem_of_app. by left.
Qed.

Lemma calm_once tg c s : calm s (once tg c s).
Proof. by apply calm_same. Qed.

Lemma calm_emit_effects es s : calm s (emit_effects es s).
Proof. by apply calm_same. Qed.

Lemma calm_after_write w s : calm s (after_write w s).
Proof.
  unfold after_write. repeat case_match; first [apply calm_mark|apply calm_refl].
Qed.

Lemma calm_writeCharacteristic caller data s :
  calm s (_writeCharacteristic caller data s).
Proof.
  unfold _writeCharacteristic, timeout. cbn [alloc].
  eapply calm_trans; [|apply calm_after_write].
  apply (calm_timeout (WriteCharacteristic caller)
           (fun w s1 => if commandCharacteristic s1
                        then emit_effects [Adapter (CharacteristicWrite w data)] s1
                        else mark w (Rejected TypeError) s1)).
  intros k s1. destruct (commandCharacteristic s1);
    [apply calm_emit_effects|apply calm_mark].
Qed.

Lemma calm_after_connect k s : calm s (after_connect k s).
Proof.
  unfold after_connect. repeat case_match;
    try apply calm_refl; try apply calm_mark.
  eapply calm_trans; [apply calm_once|apply calm_writeCharacteristic].
Qed.

Lemma calm_settle_connect k o s : calm s (settle_connect k o s).
Proof.
  unfold settle_connect. destruct (pending k s); [|apply calm_refl].
  eapply calm_trans; [apply calm_mark|apply calm_after_connect].
Qed.

Lemma calm_settle_write w o s : calm s (settle_write w o s).
Proof.
  unfold settle_write. destruct (pending w s); [|apply calm_refl].
  eapply calm_trans; [apply calm_mark|apply calm_after_write].
Qed.

Lemma calm_after_resolve r s : calm s (after_resolve r s).
Proof.
  unfold after_resolve. repeat case_match;
    try apply calm_refl; try apply calm_settle_connect; apply calm_emit_effects.
Qed.

Lemma calm_settle_resolve r o s : calm s (settle_resolve r o s).
Proof.
  unfold settle_resolve. destruct (pending r s); [|apply calm_refl].
  eapply calm_trans; [apply calm_mark|apply calm_after_resolve].
Qed.

Lemma calm_settle c o s : calm s (settle c o s).
Proof.
  unfold settle. repeat case_match;
    first [apply calm_settle_connect | apply calm_settle_write
          | apply calm_settle_resolve | apply calm_mark | apply calm_refl].
Qed.

Lemma calm_connect caller s : calm s (snd (connect caller s)).
Proof.
  apply (calm_timeout (Connect caller)
           (fun k s1 => if String.eqb (peripheral_state s1) "connected"
                        then mark k (Fulfilled Undefined) s1
                        else emit_effects
                               [Debug "initiating connection"; Adapter PeripheralConnect]
                               (once OnConnect k s1))).
  intros k s1. destruct (String.eqb _ _); [apply calm_mark|].
  eapply calm_trans; [apply calm_once|apply calm_emit_effects].
Qed.

Lemma calm_disconnect s : calm s (snd (disconnect s)).
Proof.
  apply (calm_timeout Disconnect
           (fun d s1 => if String.eqb (peripheral_state s1) "disconnected"
                        then mark d (Fulfilled Undefined) s1
                        else emit_effects
                               [Debug "closing connection"; Adapter PeripheralDisconnect]
                               (once OnDisconnect d s1))).
  intros k s1. destruct (String.eqb _ _); [apply calm_mark|].
  eapply calm_trans; [apply calm_once|apply calm_emit_effects].
Qed.

Lemma calm_sendCommand buffer event s :
  calm s (snd (_sendCommand buffer event s)).
Proof.
  unfold _sendCommand, timeout. cbn [alloc snd].
  eapply calm_trans; [|apply calm_after_connect].
  apply (calm_timeout (SendCommand buffer event)
           (fun k s1 => snd (connect (Some k) s1))).
  intros k s1. apply calm_connect.
Qed.

Lemma calm_resolveCharacteristics caller s :
  calm s (_resolveCharacteristics caller s).
Proof.
  apply (calm_timeout (ResolveCharacteristics caller)
           (fun r s1 =>
              emit_effects
                [Debug "resolving services and characteristic";
                 Adapter (DiscoverAllServicesAndCharacteristics r)] s1)).
  intros k s1. apply calm_emit_effects.
Qed.

Lemma calm_foldl {A} (f : t -> A -> t) l :
  (forall s x, calm s (f s x)) -> forall s, calm s (foldl f s l).
Proof.
  intros Hf. induction l as [|x l IH]; intros s; simpl; [apply calm_refl|].
  eapply calm_trans; [apply Hf|apply IH].
Qed.

Lemma calm_emit ev v s : calm s (emit ev v s).
Proof.
  unfold emit. eapply calm_trans; [|apply calm_mark_all]. by apply calm_same.
Qed.

Lemma calm_dataHandler data s : calm s (_dataHandler data s).
Proof.
  unfold _dataHandler. repeat case_match;
    try (eapply calm_trans; [|apply calm_emit]);
    by apply calm_same.
Qed.

Lemma calm_handle e s : (forall ms, e <> Elapse ms) -> calm s (handle e s).
Proof.
  intros He.
  destruct e as [state|error|error|r error d c|k error|w error|data|ms];
    [| | | | | | |by destruct (He ms)]; cbn [handle].
  - by apply calm_same.
  - eapply calm_trans;
      [|apply calm_foldl; intros; apply calm_resolveCharacteristics].
    unfold on_connect. destruct error; by apply calm_same.
  - eapply calm_trans; [|apply calm_mark_all].
    unfold on_disconnect. destruct error; by apply calm_same.
  - repeat case_match; try apply calm_refl.
    + apply calm_settle_resolve.
    + eapply calm_trans; [|apply calm_settle_resolve]. by apply calm_same.
  - repeat case_match; try apply calm_refl; apply calm_settle_connect.
  - repeat case_match; try apply calm_refl.
    + apply calm_settle_write.
    + eapply calm_trans; [|apply calm_settle_write]. by apply calm_same.
  - apply calm_dataHandler.
Qed.

Lemma fire_keeps tm s :
  (forall c cl, cells s !! c = Some cl ->
     exists cl', cells (fire tm s) !! c = Some cl' /\ created cl' = created cl)
  /\ timers (fire tm s) = timers s.
Proof.
  destruct (fire_marks tm s) as (l & -> & _).
  destruct (calm_mark_all (Rejected (TimeoutError (duration tm))) l
              (set_now (Z.max (now s) (deadline tm)) s)) as (H1 & _).
  split; [exact H1|]. rewrite foldl_mark. reflexivity.
Qed.

Lemma fire_all_keeps l : forall s,
  (forall c cl, cells s !! c = Some cl ->
     exists cl', cells (foldl (fun s tm => fire tm s) s l) !! c = Some cl'
                 /\ created cl' = created cl)
  /\ timers (foldl (fun s tm => fire tm s) s l) = timers s.
Proof.
  induction l as [|tm l IH]; intros s; simpl; [by eauto|].
  destruct (IH (fire tm s)) as [IH1 IH2].
  destruct (fire_keeps tm s) as [F1 F2].
  split; [|congruence].
  intros c cl H. destruct (F1 c cl H) as (cl' & H' & E').
  destruct (IH1 c cl' H') as (cl'' & H'' & E''). exists cl''.
  split; [done|congruence].
Qed.

(** What an event does to the cells and the timers: the cells stay, and no
    timer appears that is not the timer of an operation. *)
Lemma handle_timers e s :
  (forall c cl, cells s !! c = Some cl ->
      exists cl', cells (handle e s) !! c = Some cl' /\ created cl' = created cl)
  /\ (forall tm, tm ∈ timers (handle e s) ->
        tm ∈ timers s \/ timer_of_operation (handle e s) tm).
Proof.
  assert (He : (exists ms, e = Elapse ms) \/ (forall ms, e <> Elapse ms)).
  { destruct e; try (right; discriminate). left. eauto. }
  destruct He as [[ms ->]|Hne].
  - cbn [handle].
    set (limit := now s + Z.max 0 ms).
    set (due := filter (fun tm => is_due limit tm = true) (timers s)).
    set (rest := filter (fun tm => is_due limit tm = false) (timers s)).
    destruct (fire_all_keeps due (set_timers rest s)) as [H1 H2].
    split; [exact H1|].
    intros tm Htm. left.
    change (tm ∈ timers (foldl (fun s tm => fire tm s) (set_timers rest s) due)) in Htm.
    rewrite H2 in Htm.
    by apply list_elem_of_filter in Htm as [_ ?].
  - destruct (calm_handle e s Hne) as (H1 & H2 & _). by split.
Qed.

(** In a reachable session every timer is the timer of an operation. *)
Lemma reachable_timers s :
  reachable s -> forall tm, tm ∈ timers s -> timer_of_operation s tm.
Proof.
  assert (Hstep : forall s s',
            (forall c cl, cells s !! c = Some cl ->
               exists cl', cells s' !! c = Some cl' /\ created cl' = created cl) ->
            (forall tm, tm ∈ timers s' -> tm ∈ timers s \/ timer_of_operation s' tm) ->
            (forall tm, tm ∈ timers s -> timer_of_operation s tm) ->
            forall tm, tm ∈ timers s' -> timer_of_operation s' tm).
  { intros s0 s' Hc Ht IH tm Htm.
    destruct (Ht tm Htm) as [H|H]; [|exact H].
    destruct (IH tm H) as (Hd & cl & Hcl & Hdl).
    split; [exact Hd|].
    destruct (Hc _ cl Hcl) as (cl' & H' & E'). exists cl'. split; [done|congruence]. }
  induction 1 as [state|s Hs IH|s Hs IH|buffer event s Hs IH|e s Hs IH].
  - intros tm []%elem_of_nil.
  - destruct (calm_connect None s) as (H1 & H2 & _). by apply (Hstep s).
  - destruct (calm_disconnect s) as (H1 & H2 & _). by apply (Hstep s).
  - destruct (calm_sendCommand buffer event s) as (H1 & H2 & _). by apply (Hstep s).
  - destruct (handle_timers e s) as (H1 & H2). by apply (Hstep s).
Qed.

(** In a reachable session every pending operation has its timer. *)
Lemma reachable_pending_timer s :
  reachable s ->
  forall c, pending c s = true -> exists tm, tm ∈ timers s /\ owner tm = c.
Proof.
  assert (Hstep : forall s s',
            (forall tm, tm ∈ timers s -> tm ∈ timers s') ->
            (forall c, pending c s' = true ->
               pending c s = true \/ exists tm, tm ∈ timers s' /\ owner tm = c) ->
            (forall c, pending c s = true -> exists tm, tm ∈ timers s /\ owner tm = c) ->
            forall c, pending c s' = true -> exists tm, tm ∈ timers s' /\ owner tm = c).
  { intros s0 s' Hs Hp IH c Hc.
    destruct (Hp c Hc) as [H|H]; [|exact H].
    destruct (IH c H) as (tm & Htm & Ho). exists tm. auto. }
  induction 1 as [state|s Hs IH|s Hs IH|buffer event s Hs IH|e s Hs IH].
  - intros c. unfold pending. cbn. by rewrite lookup_nil.
  - destruct (calm_connect None s) as (_ & _ & _ & H4 & H5). by apply (Hstep s).
  - destruct (calm_disconnect s) as (_ & _ & _ & H4 & H5). by apply (Hstep s).
  - destruct (calm_sendCommand buffer event s) as (_ & _ & _ & H4 & H5).
    by apply (Hstep s).
  - assert (He : (exists ms, e = Elapse ms) \/ (forall ms, e <> Elapse ms)).
    { destruct e; try (right; discriminate). left. eauto. }
    destruct He as [[ms ->]|Hne].
    + intros c Hc. cbn [handle] in *.
      set (limit := now s + Z.max 0 ms) in *.
      set (due := filter (fun tm => is_due limit tm = true) (timers s)) in *.
      set (rest := filter (fun tm => is_due limit tm = false) (timers s)) in *.
      assert (Hdue : Forall (fun tm => deadline tm <= limit) due).
      { apply Forall_forall. intros x [Hx _]%list_elem_of_filter.
        unfold is_due in Hx. by apply Z.leb_le. }
      destruct (fire_all limit due (set_timers rest s) Hdue)
        as ((cs & t & Hfr) & _ & Hmono & Hown & _).
      { cbn. lia. }
      cbv zeta in Hfr, Hmono, Hown.
      change (pending c (foldl (fun s tm => fire tm s) (set_timers rest s) due) = true)
        in Hc.
      assert (Hcs : pending c s = true).
      { destruct (pending c s) eqn:E; [done|].
        rewrite (Hmono c) in Hc; [discriminate|exact E]. }
      destruct (IH c Hcs) as (tm & Htm & Ho).
      exists tm. split; [|exact Ho].
      change (tm ∈ timers (foldl (fun s tm => fire tm s) (set_timers rest s) due)).
      rewrite Hfr. cbn.
      apply list_elem_of_filter. split; [|exact Htm].
      destruct (is_due limit tm) eqn:E; [|done].
      exfalso. assert (Hin : tm ∈ due) by (by apply list_elem_of_filter).
      specialize (Hown tm Hin). rewrite Ho in Hown. congruence.
    + destruct (calm_handle e s Hne) as (_ & _ & _ & H4 & H5). by apply (Hstep s).
Qed.

End TimerFacts.

(** ** Sessions: notifications and timeouts *)
Section SessionClaims.

(** C1, amended: a notification whose first byte is 0x02 and whose
    sub-type nibble is not 1 is reported on the console as an unknown
    status, raises nothing, and is emitted as a ['status'] event carrying an
    empty record: every single-shot listener registered for ['status'] is
    removed and the pending command it belongs to is resolved with the
    empty record; nothing else is resolved and no other listener is
    touched. *)
Theorem unknown_status_is_emitted (data : Buffer.t) (s : Session.t) :
  Buffer.get data 0 = Some 0x02 ->
  Z.land (JS.ToInt32 (Buffer.get data 1)) 0xF <> 1 ->
  let s' := Session._dataHandler data s in
  Session.effects s'
    = Session.effects s
      ++ [Session.ConsoleData data; Session.Debug "received status message";
          Session.Console "unknown status"]
  /\ Session.registered (Session.OnData Session.status) s' = []
  /\ (forall c,
        c ∈ Session.registered (Session.OnData Session.status) s ->
        Session.pending c s = true ->
        Session.outcome_of c s'
        = Some (Session.Fulfilled (Session.StatusInfo Codec.EmptyObject),
                Session.now s))
  /\ (forall c,
        c ∉ Session.registered (Session.OnData Session.status) s ->
        Session.outcome_of c s' = Session.outcome_of c s)
  /\ (forall tg,
        tg <> Session.OnData Session.status ->
        Session.registered tg s' = Session.registered tg s).
Proof.
  intros H0 H1 s'. subst s'.
  unfold Session._dataHandler. rewrite H0.
  unfold Codec._parseStatus.
  destruct (Z.eqb_spec (Z.land (JS.ToInt32 (Buffer.get data 1)) 15) 1) as [E|_];
    [contradiction|].
  cbv zeta. cbv beta iota.
  repeat split.
  - rewrite emit_effects_same. cbn. rewrite <- !app_assoc. reflexivity.
  - unfold Session.registered at 1. rewrite emit_listeners. cbn.
    apply registered_filter_same.
  - intros c Hc Hp. rewrite emit_outcome.
    cbn in *. rewrite decide_True by exact Hc.
    unfold Session.pending in *. cbn. rewrite Hp. reflexivity.
  - intros c Hc. rewrite emit_outcome. cbn in *.
    rewrite decide_False by exact Hc. reflexivity.
  - intros tg Hne. unfold Session.registered at 1. rewrite emit_listeners. cbn.
    apply registered_filter_other. congruence.
Qed.

Lemma unknown_status_is_emitted_witness :
  Session.registered (Session.OnData Session.status)
    (Session._dataHandler Scenario.unknown_status_notification
       Scenario.awaiting_status) = [].
Proof.
  assert (H : Z.land (JS.ToInt32 (Buffer.get Scenario.unknown_status_notification 1)) 0xF <> 1)
    by (vm_compute; discriminate).
  exact (proj1 (proj2 (unknown_status_is_emitted
                         Scenario.unknown_status_notification
                         Scenario.awaiting_status eq_refl H))).
Defined.

(** C1, as stated, fails: the command cell 2 of a pending [getStatus()] is
    pending before a status notification of sub-type 2 arrives and is
    resolved with the empty record by it. *)
Lemma unknown_status_resolves_pending_command :
  Session.registered (Session.OnData Session.status) Scenario.awaiting_status
    = [2%nat]
  /\ Session.pending 2 Scenario.awaiting_status = true
  /\ Session.outcome_of 2
       (Session.handle (Session.Notification Scenario.unknown_status_notification)
          Scenario.awaiting_status)
     = Some (Session.Fulfilled (Session.StatusInfo Codec.EmptyObject), 0).
Proof. vm_compute. repeat split. Qed.

(** When the clock passes the deadline of a timer whose owner is pending,
    the owner is rejected; nothing but cells and the clock changes. *)
Lemma elapse_settles_due_timer (s : Session.t) (ms : Z) (tm : Session.timer) :
  tm ∈ Session.timers s ->
  Session.pending (Session.owner tm) s = true ->
  (forall tm', tm' ∈ Session.timers s -> Session.duration tm' = 10000) ->
  0 <= ms ->
  Session.deadline tm <= Session.now s + ms ->
  let s' := Session.handle (Session.Elapse ms) s in
  (exists t,
      Session.outcome_of (Session.owner tm) s'
      = Some (Session.Rejected (Session.TimeoutError 10000), t)
      /\ t <= Session.now s + ms)
  /\ Session.listeners s' = Session.listeners s
  /\ Session.peripheral_state s' = Session.peripheral_state s
  /\ Session.isConnected s' = Session.isConnected s
  /\ Session.dataCharacteristic s' = Session.dataCharacteristic s
  /\ Session.commandCharacteristic s' = Session.commandCharacteristic s
  /\ Session.effects s' = Session.effects s.
Proof.
  intros Htm Hp Hdur Hms Hdl s'. subst s'.
  unfold Session.handle. rewrite Z.max_r by lia.
  set (limit := Session.now s + ms).
  set (due := filter (fun tm => Session.is_due limit tm = true) (Session.timers s)).
  set (rest := filter (fun tm => Session.is_due limit tm = false) (Session.timers s)).
  assert (Hdue : Forall (fun tm => Session.deadline tm <= limit) due).
  { apply Forall_forall. intros x [Hx _]%list_elem_of_filter.
    unfold Session.is_due in Hx. by apply Z.leb_le. }
  assert (Hin : tm ∈ due).
  { apply list_elem_of_filter. split; [|done].
    unfold Session.is_due. apply Z.leb_le. done. }
  destruct (fire_all limit due (Session.set_timers rest s) Hdue)
    as ((cs & t & Hfr) & Hle & _ & Hown & Hout).
  { simpl. lia. }
  cbv zeta in Hfr, Hle, Hown, Hout.
  split.
  - specialize (Hown tm Hin).
    destruct (Hout (Session.owner tm)) as [[_ Hpe]|(_ & tm0 & t0 & Hin0 & Ho & Hle0)].
    + exfalso. rewrite Hown in Hpe. change (false = Session.pending (Session.owner tm) s) in Hpe.
      congruence.
    + exists t0. split; [|done].
      change (Session.outcome_of (Session.owner tm)
                (foldl (fun s tm => Session.fire tm s) (Session.set_timers rest s) due)
              = Some (Session.Rejected (Session.TimeoutError 10000), t0)).
      rewrite Ho. rewrite (Hdur tm0); [done|].
      by apply list_elem_of_filter in Hin0 as [_ ?].
  - rewrite Hfr. repeat split.
Qed.



(** C8, amended: in every reachable session, an operation (connect,
    disconnect, characteristic resolution, write or command) that is still
    pending when the clock passes the 10 000 ms after its start is rejected
    with the timeout error of 10 000 ms, no later than the time the clock
    has reached. The firing of timers removes no listener and changes
    neither the state of the peripheral, the connection flag, the resolved
    characteristics nor what was asked of the adapter: the single-shot
    listener of the operation stays registered. *)
Theorem timeout_rejects_and_keeps_listeners
    (s : Session.t) (c : nat) (cl : Session.cell) (ms : Z) :
  Session.reachable s ->
  Session.cells s !! c = Some cl ->
  Session.result cl = None ->
  0 <= ms ->
  Session.created cl + 10000 <= Session.now s + ms ->
  let s' := Session.handle (Session.Elapse ms) s in
  (exists t,
      Session.outcome_of c s'
      = Some (Session.Rejected (Session.TimeoutError 10000), t)
      /\ t <= Session.now s + ms)
  /\ Session.listeners s' = Session.listeners s
  /\ Session.peripheral_state s' = Session.peripheral_state s
  /\ Session.isConnected s' = Session.isConnected s
  /\ Session.dataCharacteristic s' = Session.dataCharacteristic s
  /\ Session.commandCharacteristic s' = Session.commandCharacteristic s
  /\ Session.effects s' = Session.effects s.
Proof.
  intros Hr Hc Hres Hms Hdl.
  assert (Hp : Session.pending c s = true).
  { unfold Session.pending. by rewrite Hc, Hres. }
  destruct (reachable_pending_timer s Hr c Hp) as (tm & Htm & <-).
  destruct (reachable_timers s Hr tm Htm) as (_ & cl' & Hcl' & Hd).
  assert (cl' = cl) by congruence. subst cl'.
  apply (elapse_settles_due_timer s ms tm Htm Hp); [|exact Hms|lia].
  intros tm' Htm'. apply (reachable_timers s Hr tm' Htm').
Qed.

Lemma timeout_rejects_and_keeps_listeners_witness :
  (exists t,
      Session.outcome_of 2
        (Session.handle (Session.Elapse 10000) Scenario.awaiting_status)
      = Some (Session.Rejected (Session.TimeoutError 10000), t)
      /\ t <= 0 + 10000)
  /\ Session.listeners
       (Session.handle (Session.Elapse 10000) Scenario.awaiting_status)
     = Session.listeners Scenario.awaiting_status.
Proof.
  assert (Hready : Session.reachable Scenario.ready).
  { unfold Scenario.ready, Session.run. cbn [foldl].
    apply (Session.reachable_event (Session.Subscribed 0 None)).
    apply (Session.reachable_event (Session.ServicesDiscovered 1 None true true)).
    apply (Session.reachable_event (Session.AdapterConnect None)).
    apply (Session.reachable_event (Session.PeripheralState "connected")).
    apply (Session.reachable_connect (Session.new "disconnected")).
    apply Session.reachable_new. }
  assert (Hr : Session.reachable Scenario.awaiting_status).
  { exact (Session.reachable_command (Session.getStatus_buffer Scenario.noon)
             Session.status Scenario.ready Hready). }
  pose proof (timeout_rejects_and_keeps_listeners Scenario.awaiting_status 2
                {| Session.op :=
                     Session.SendCommand (Session.getStatus_buffer Scenario.noon)
                       Session.status;
                   Session.created := 0; Session.result := None |}
                10000 Hr) as H.
  destruct H as (H1 & H2 & _); [reflexivity|reflexivity|lia|reflexivity|].
  split; [exact H1|exact H2].
Defined.

(** C8, as stated, fails: after a [getStatus()] that times out, the
    single-shot ['status'] listener of the command is still registered and
    is only removed by the next status notification; after a [connect()]
    that times out, its ['connect'] listener is still registered, so that
    when a second [connect()] is acknowledged the characteristics are
    resolved twice. *)
Lemma timed_out_operations_leave_listeners :
  Session.outcome_of 2
    (Session.handle (Session.Elapse 10000) Scenario.awaiting_status)
    = Some (Session.Rejected (Session.TimeoutError 10000), 10000)
  /\ Session.registered (Session.OnData Session.status)
       (Session.handle (Session.Elapse 10000) Scenario.awaiting_status)
     = [2%nat]
  /\ Session.registered (Session.OnData Session.status)
       (Session.run
          [Session.Elapse 10000;
           Session.Notification (Scenario.status_notification x08 x2b)]
          Scenario.awaiting_status)
     = []
  /\ Session.outcome_of 0
       (Session.handle (Session.Elapse 10000) Scenario.connecting)
     = Some (Session.Rejected (Session.TimeoutError 10000), 10000)
  /\ Session.registered Session.OnConnect
       (Session.handle (Session.Elapse 10000) Scenario.connecting)
     = [0%nat]
  /\ Session.effects
       (Session.handle (Session.AdapterConnect None)
          (snd (Session.connect None
                  (Session.handle (Session.Elapse 10000) Scenario.connecting))))
     = [Session.Debug "initiating connection";
        Session.Adapter Session.PeripheralConnect;
        Session.Debug "initiating connection";
        Session.Adapter Session.PeripheralConnect;
        Session.Debug "connected to device";
        Session.Debug "resolving services and characteristic";
        Session.Adapter (Session.DiscoverAllServicesAndCharacteristics 2);
        Session.Debug "resolving services and characteristic";
        Session.Adapter (Session.DiscoverAllServicesAndCharacteristics 3)].
Proof. vm_compute. repeat split. Qed.

End SessionClaims.

(** ** Discovery: validation and normalisation of the options *)
Section DiscoverFacts.
Import Value Discovery.

Lemma resolve_scan_frame c s :
  _devices (resolve_scan c s) = _devices s
  /\ heap (resolve_scan c s) = heap s
  /\ discover_listeners (resolve_scan c s) = discover_listeners s.
Proof.
  unfold resolve_scan. destruct (phase_of c s) as [[]|]; repeat split.
Qed.

Lemma startScan_frame c s :
  _devices (_startScan c s) = _devices s /\ heap (_startScan c s) = heap s.
Proof.
  unfold _startScan. destruct (calls s !! c) as [cl|]; [|done].
  cbv zeta.
  destruct (0 <? length (array_at (heap s) (optAddresses cl)))%nat; cbn [andb].
  - match goal with |- context [if ?b then _ else _] => destruct b end.
    + destruct (resolve_scan_frame c
        (act [Debug "(discovery will be stopped when %o %s found)"]
           (act [Debug "starting discovery with %sms duration"]
              (update_call c (with_phase Scanning) s)))) as (-> & -> & _).
      done.
    + done.
  - done.
Qed.

Lemma ensurePowerOnState_frame c s :
  _devices (_ensurePowerOnState c s) = _devices s
  /\ heap (_ensurePowerOnState c s) = heap s.
Proof.
  unfold _ensurePowerOnState. destruct (String.eqb _ _); [|done].
  apply startScan_frame.
Qed.

Lemma normalise_entries_strings (l : list string) :
  normalise_entries (EString <$> l)
  = (EString <$> (Codec.normaliseAddress <$> l), true).
Proof.
  induction l as [|x l IH]; [reflexivity|].
  rewrite !fmap_cons. cbn [normalise_entries]. rewrite IH. reflexivity.
Qed.

(** C10: [discover] writes into the array the caller passed as
    [addresses]. Once validation has succeeded, every entry of that array
    is its normalised form; no other array of the heap changes, and the
    options object is only read. *)
Theorem discover_normalises_callers_array
    (s : Discovery.t) (o : Options) (a : nat) (l : list string) :
  addresses o = VArray a ->
  heap s !! a = Some (EString <$> l) ->
  isNaN (heap s) (getOpt (Some (duration o)) (VNumber (JS.of_int 10000))) = false ->
  isBoolean (getOpt (Some (ignoreUnknown o)) (VBool false)) = true ->
  exists c s',
    discover (Some o) s = (Promise c, s')
    /\ heap s' !! a = Some (EString <$> (Codec.normaliseAddress <$> l))
    /\ (forall a', a' <> a -> heap s' !! a' = heap s !! a').
Proof.
  intros Ha Hl Hd Hi.
  unfold discover. cbn [fmap option_fmap option_map].
  rewrite Ha.
  change (getOpt (Some (VArray a)) VUndefined) with (VArray a).
  cbv beta iota zeta. rewrite Hd.
  destruct (getOpt (Some (ignoreUnknown o)) (VBool false)) as [| |ignore| | | |];
    try discriminate.
  unfold array_at. rewrite Hl.
  rewrite normalise_entries_strings.
  eexists _, _. split; [reflexivity|].
  match goal with
  | |- context [_ensurePowerOnState ?c ?s0] =>
      destruct (ensurePowerOnState_frame c s0) as (_ & ->)
  end.
  unfold set_calls, set_heap. cbn [heap]. split.
  - apply lookup_insert_eq.
  - intros a1 Hne. by rewrite lookup_insert_ne.
Qed.

Lemma isNaN_fresh (h : Value.heap) v :
  isNaN (<[fresh (dom h) := []]> h) v = isNaN h v.
Proof.
  destruct v as [| | | | |r|]; try reflexivity.
  unfold isNaN, array_at.
  destruct (decide (r = fresh (dom h))) as [->|Hne].
  - rewrite lookup_insert_eq.
    assert (Hnone : h !! fresh (dom h) = None).
    { apply not_elem_of_dom. apply is_fresh. }
    by rewrite Hnone.
  - by rewrite lookup_insert_ne.
Qed.

End DiscoverFacts.

(** ** Discovery: the device map across calls *)
Section EngineFacts.
Import Value Discovery.

Ltac engine_eval :=
  cbv beta iota zeta delta
    [_ensurePowerOnState _startScan resolve_scan _stopScan update_call act
     set_calls set_heap set_discover_listeners set_devices
     phase_of timer_of with_phase with_timer
     _devices heap calls discover_listeners noble_state trace
     optAddresses optDuration optIgnoreUnknown call_phase call_timer
     fst snd String.eqb Ascii.eqb Bool.eqb andb
     fmap option_fmap option_map].


(** [s'] extends [s]: no device was dropped or replaced, and no call has
    a result it did not have. *)
Local Abbreviation extends s s' :=
  (_devices s ⊆ _devices s'
   /\ forall c ds, phase_of c s' = Some (Resolved ds) ->
                   phase_of c s = Some (Resolved ds)).

Lemma extends_refl s : extends s s.
Proof. split; [done|auto]. Qed.

Lemma extends_trans s1 s2 s3 : extends s1 s2 -> extends s2 s3 -> extends s1 s3.
Proof.
  intros [H1 H2] [H3 H4]. split; [by etrans|]. auto.
Qed.

Lemma phase_of_update_call c c0 f s :
  phase_of c (update_call c0 f s)
  = if decide (c = c0) then call_phase <$> (f <$> calls s !! c) else phase_of c s.
Proof.
  unfold phase_of, update_call. cbn.
  destruct (decide (c = c0)) as [->|Hne].
  - by rewrite list_lookup_alter_eq.
  - by rewrite list_lookup_alter_ne.
Qed.

Lemma extends_with_timer c0 tm s : extends s (update_call c0 (with_timer tm) s).
Proof.
  split; [done|]. intros c ds. rewrite phase_of_update_call.
  destruct (decide _) as [->|]; [|done].
  unfold phase_of. by destruct (calls s !! c0).
Qed.

Lemma extends_with_phase c0 ph s :
  (forall ds, ph <> Resolved ds) ->
  extends s (update_call c0 (with_phase ph) s).
Proof.
  intros Hph. split; [done|]. intros c ds. rewrite phase_of_update_call.
  destruct (decide _) as [->|]; [|done].
  destruct (calls s !! c0); simpl; [|done].
  intros [= H]. by destruct (Hph ds).
Qed.

Lemma extends_act l s s' : extends s s' -> extends s (act l s').
Proof. done. Qed.

Lemma extends_listeners l s s' :
  extends s s' -> extends s (set_discover_listeners l s').
Proof. done. Qed.

Lemma extends_stopScan c s : extends s (_stopScan c s).
Proof.
  unfold _stopScan. apply extends_act. by apply extends_with_phase.
Qed.

Lemma extends_resolve_scan c s : extends s (resolve_scan c s).
Proof.
  unfold resolve_scan. destruct (phase_of c s) as [[]|];
    first [apply extends_stopScan | apply extends_refl].
Qed.

Lemma extends_startScan c s : extends s (_startScan c s).
Proof.
  unfold _startScan. destruct (calls s !! c) as [cl|]; [|apply extends_refl].
  cbv zeta.
  assert (H0 : extends s (update_call c (with_phase Scanning) s))
    by (by apply extends_with_phase).
  assert (H1 : forall s0, extends s s0 ->
                 extends s
                   (act [SetTimeout c (optDuration cl); OnDiscover c; StartScanning c]
                      (set_discover_listeners (discover_listeners s0 ++ [c])
                         (update_call c (with_timer Armed) s0)))).
  { intros s0 Hs0. apply extends_act, extends_listeners.
    eapply extends_trans; [exact Hs0|apply extends_with_timer]. }
  destruct (0 <? length (array_at (heap s) (optAddresses cl)))%nat; cbn [andb].
  - match goal with |- context [if ?b then _ else _] => destruct b end.
    + eapply extends_trans; [|apply extends_resolve_scan].
      by do 2 apply extends_act.
    + apply H1. by do 2 apply extends_act.
  - apply H1. by apply extends_act.
Qed.

Lemma extends_ensurePowerOnState c s : extends s (_ensurePowerOnState c s).
Proof.
  unfold _ensurePowerOnState. destruct (String.eqb _ _);
    [apply extends_startScan|apply extends_act, extends_refl].
Qed.

Lemma get_device_Missing devices key :
  get_device devices key = Missing -> devices !! key = None.
Proof.
  unfold get_device. destruct (devices !! key); [discriminate|done].
Qed.

Lemma extends_on_discover p s c : extends s (on_discover p s c).
Proof.
  unfold on_discover. destruct (calls s !! c) as [cl|]; [|apply extends_refl].
  cbv zeta.
  destruct (optIgnoreUnknown cl && _); [apply extends_act, extends_refl|].
  destruct (negb _); [apply extends_refl|].
  destruct (get_device (_devices s) (Codec.normaliseAddress (address p))) eqn:Hg;
    try apply extends_refl.
  apply get_device_Missing in Hg.
  set (s1 := act _ (set_devices _ s)).
  assert (H1 : extends s s1).
  { split; [|done]. by apply insert_subseteq. }
  destruct (_ && _); [|exact H1].
  eapply extends_trans; [|apply extends_resolve_scan].
  apply extends_act.
  destruct (call_timer cl); try (by apply extends_act).
  eapply extends_trans; [|apply extends_with_timer].
  by apply extends_act.
Qed.

Lemma extends_foldl {A} (f : Discovery.t -> A -> Discovery.t) l :
  (forall s x, extends s (f s x)) -> forall s, extends s (foldl f s l).
Proof.
  intros Hf. induction l as [|x l IH]; intros s; simpl; [apply extends_refl|].
  eapply extends_trans; [apply Hf|apply IH].
Qed.

Lemma extends_heap h s s' : extends s s' -> extends s (set_heap h s').
Proof. done. Qed.

Lemma extends_new_call cl s :
  (forall ds, call_phase cl <> Resolved ds) ->
  extends s (set_calls (calls s ++ [cl]) s).
Proof.
  intros Hph. split; [done|]. intros c ds. unfold phase_of. cbn.
  destruct (decide (c < length (calls s))%nat) as [Hlt|Hge].
  - by rewrite lookup_app_l.
  - rewrite lookup_app_r by lia.
    destruct (c - length (calls s))%nat as [|n]; simpl.
    + intros [= H]. by destruct (Hph ds).
    + discriminate.
Qed.

Lemma extends_discover options s : extends s (snd (discover options s)).
Proof.
  unfold discover. cbv zeta.
  repeat case_match; cbn [snd];
    try apply extends_refl;
    try (apply extends_heap, extends_refl).
  all: eapply extends_trans; [|apply extends_ensurePowerOnState].
  all: eapply extends_trans;
    [|apply (extends_new_call _ (set_heap _ s)); discriminate].
  all: apply extends_heap, extends_refl.
Qed.

Lemma extends_handle e s :
  e <> ScanStop -> extends s (handle e s).
Proof.
  destruct e as [state|p|c|c error|]; intros He; [| | | |done]; simpl.
  - destruct (String.eqb state "poweredOn").
    + eapply extends_trans; [|apply extends_foldl; intros; apply extends_startScan].
      apply extends_act. done.
    + apply extends_act. done.
  - apply extends_foldl. intros. apply extends_on_discover.
  - destruct (timer_of c s) as [[]|]; try apply extends_refl.
    eapply extends_trans; [|apply extends_resolve_scan].
    apply extends_act, extends_with_timer.
  - destruct (phase_of c s) as [[]|]; try apply extends_refl.
    by apply extends_with_phase.
Qed.

(** When the scan has stopped, every call waiting for it gets the values of
    the device map as its result. *)
Lemma handle_ScanStop s :
  _devices (handle ScanStop s) = _devices s
  /\ forall c ds,
       phase_of c (handle ScanStop s) = Some (Resolved ds) ->
       phase_of c s = Some (Resolved ds)
       \/ ds = Object_values (_devices s).
Proof.
  simpl. set (s0 := act _ s).
  assert (H : forall l s1,
             _devices s1 = _devices s ->
             let s2 := foldl (fun s c => update_call c (with_phase (Resolved (Object_values (_devices s)))) s) s1 l in
             _devices s2 = _devices s
             /\ forall c ds, phase_of c s2 = Some (Resolved ds) ->
                  phase_of c s1 = Some (Resolved ds)
                  \/ ds = Object_values (_devices s)).
  { induction l as [|c0 l IH]; intros s1 Hd; simpl.
    - split; [done|]. intros; by left.
    - destruct (IH (update_call c0 (with_phase (Resolved (Object_values (_devices s1)))) s1) Hd)
        as [Hd2 Hph].
      split; [exact Hd2|]. intros c ds Hc.
      destruct (Hph c ds Hc) as [H1|H1]; [|by right].
      rewrite phase_of_update_call in H1.
      destruct (decide (c = c0)) as [->|]; [|by left].
      destruct (calls s1 !! c0); simpl in H1; [|discriminate].
      injection H1 as <-. right. by rewrite Hd. }
  destruct (H (stopping s0) s0 eq_refl) as [Hd Hph].
  split; [exact Hd|exact Hph].
Qed.







(** X25: the early stop as the code has it: when the only ['discover']
    listener is the one of a scanning call with a non-empty allow-list,
    the advertisement that completes the allow-list clears the timer and
    ends the scan. *)
Lemma sole_listener_stops_early (p : Peripheral) (s : Discovery.t) (c : nat)
    (cl : Call) :
  discover_listeners s = [c] ->
  calls s !! c = Some cl ->
  call_phase cl = Scanning ->
  call_timer cl = Armed ->
  array_at (heap s) (optAddresses cl) <> [] ->
  _checkDiscovered (_devices s) (array_at (heap s) (optAddresses cl)) = false ->
  _checkDiscovered (_devices (handle (Discover p) s))
    (array_at (heap s) (optAddresses cl)) = true ->
  phase_of c (handle (Discover p) s) = Some Stopping
  /\ timer_of c (handle (Discover p) s) = Some Cleared.
Proof.
  intros Hl Hc Hph Htm Hne Hbefore.
  cbn [handle]. rewrite Hl. cbn [foldl].
  unfold on_discover. rewrite Hc. cbv zeta.
  set (addrs := array_at (heap s) (optAddresses cl)) in *.
  destruct (optIgnoreUnknown cl && _).
  { intros H. change (_checkDiscovered (_devices s) addrs = true) in H. congruence. }
  destruct (negb _); [congruence|].
  destruct (get_device _ _); try congruence.
  set (devices' := <[_ := _]> (_devices s)).
  assert (Hlen : (0 <? length addrs)%nat = true) by (by destruct addrs).
  rewrite Hlen, Htm. cbn [andb].
  intros H.
  assert (Hchk : _checkDiscovered devices' addrs = true).
  { revert H. case_match eqn:E; intros H1; [exact E|exact H1]. }
  clear H. revert Hchk.
  destruct s as [devs h cs ls st tr]. cbn in Hc.
  destruct cl as [a d i ph tm]. cbn in Hph, Htm. subst ph tm.
  engine_eval. intros ->.
  rewrite !list_lookup_alter_eq, Hc. engine_eval.
  rewrite !list_lookup_alter_eq, Hc. engine_eval. done.
Qed.

End EngineFacts.

(** ** Discovery: examples *)
Section DiscoveryClaims.
Import Value Discovery.

Lemma discover_normalises_callers_array_witness :
  exists c s',
    discover (Some Scenario.listed) Scenario.fresh_engine = (Promise c, s')
    /\ heap s' !! 0%nat = Some [EString "00:1a:22:0e:54:19"]
    /\ (forall a', a' <> 0%nat -> heap s' !! a' = heap Scenario.fresh_engine !! a').
Proof.
  apply (discover_normalises_callers_array Scenario.fresh_engine Scenario.listed
           0 ["00-1A-22-0E-54-19"%string]); reflexivity.
Defined.

(** C6 at the failing input: [discover({duration: null})] on a powered-on
    adapter. [null] is not a number, and the guard of [discover] is there
    to refuse such a duration: a string that is no number is refused with
    "argument [duration] must be a number", and the guards of [addresses]
    and [ignoreUnknown] refuse [null]. Yet [isNaN(null)] is false: the call
    passes the guard, sets its timer with [null] and starts the scan. A
    boolean and the empty string pass in the same way. *)
Lemma null_duration_is_accepted :
  isNaN (heap Scenario.fresh_engine) VNull = false
  /\ fst (discover
            (Some {| duration := VNull; addresses := VUndefined;
                     ignoreUnknown := VUndefined |})
            Scenario.fresh_engine)
     = Promise 0
  /\ trace
       (snd (discover
               (Some {| duration := VNull; addresses := VUndefined;
                        ignoreUnknown := VUndefined |})
               Scenario.fresh_engine))
     = [Debug "starting discovery with %sms duration";
        SetTimeout 0 VNull; OnDiscover 0; StartScanning 0]
  /\ fst (discover
            (Some {| duration := VBool true; addresses := VUndefined;
                     ignoreUnknown := VUndefined |})
            Scenario.fresh_engine)
     = Promise 0
  /\ fst (discover
            (Some {| duration := VString ""; addresses := VUndefined;
                     ignoreUnknown := VUndefined |})
            Scenario.fresh_engine)
     = Promise 0
  /\ discover
       (Some {| duration := VString "soon"; addresses := VUndefined;
                ignoreUnknown := VUndefined |})
       Scenario.fresh_engine
     = (Throw (TypeError "argument [duration] must be a number"),
        Scenario.fresh_engine)
  /\ discover
       (Some {| duration := VUndefined; addresses := VNull;
                ignoreUnknown := VUndefined |})
       Scenario.fresh_engine
     = (Throw (TypeError "argument [addresses] must be an array"),
        Scenario.fresh_engine)
  /\ discover
       (Some {| duration := VUndefined; addresses := VUndefined;
                ignoreUnknown := VNull |})
       Scenario.fresh_engine
     = (Throw (TypeError "argument [skipUnknown] must be of type boolean"),
        Scenario.fresh_engine).
Proof. vm_compute. repeat split. Qed.


(** C7 at the failing input: a first [discover()] without options runs
    for its whole duration; its ['discover'] listener stays registered. A
    second call lists the thermostat. When the thermostat is seen, the
    listener of the first call records it, the listener of the second call
    finds it recorded and does not check its allow-list: every listed
    address has a session, and the second call is still scanning with its
    timer armed. On the fresh engine the same call stops at once. *)
Lemma leaked_listener_defeats_early_stop :
  discover_listeners Scenario.second_call_sees_thermostat = [0%nat; 1%nat]
  /\ phase_of 0 Scenario.second_call_sees_thermostat = Some (Resolved [])
  /\ _checkDiscovered (_devices Scenario.second_call_sees_thermostat)
       (array_at (heap Scenario.second_call_sees_thermostat) 0) = true
  /\ phase_of 1 Scenario.second_call_sees_thermostat = Some Scanning
  /\ timer_of 1 Scenario.second_call_sees_thermostat = Some Armed
  /\ phase_of 0 Scenario.first_call_sees_thermostat = Some Stopping
  /\ timer_of 0 Scenario.first_call_sees_thermostat = Some Cleared.
Proof. vm_compute. repeat split. Qed.

(** On a fresh engine, with the allow-list [A, B], unknown addresses
    ignored, and advertisements from A, B and then C: the call is still
    scanning after A, stops with its timer cleared at B, and resolves with
    the sessions of A and B only. *)
Example allow_list_of_two_on_fresh_engine :
  phase_of 0
    (run [CallDiscover (Some Scenario.pair_listed);
          Event (Discover Scenario.thermostat)] Scenario.pair_engine)
    = Some Scanning
  /\ phase_of 0 (run Scenario.pair_scan Scenario.pair_engine) = Some Stopping
  /\ timer_of 0 (run Scenario.pair_scan Scenario.pair_engine) = Some Cleared
  /\ (exists ds,
        phase_of 0
          (run (Scenario.pair_scan
                  ++ [Event (Discover Scenario.stranger); Event ScanStop])
             Scenario.pair_engine)
        = Some (Resolved ds)
        /\ Permutation (device_address <$> ds)
             ["00:1a:22:0e:54:19"; "00:1a:22:0e:54:20"]%string).
Proof.
  vm_compute. repeat split. eexists. split; [reflexivity|].
  first [reflexivity | apply perm_swap].
Qed.

End DiscoveryClaims.

(** * Further properties of the code *)

(** ** Lists: entries counted from the end of an unknown list *)
Section TailFacts.
Context {A : Type}.
Implicit Types l t : list A.

Lemma length_tail l t : length (l ++ t) = (length t + length l)%nat.
Proof. rewrite length_app. lia. Qed.

Lemma lookup_tail l t i : (l ++ t) !! (i + length l)%nat = t !! i.
Proof. rewrite lookup_app_r by lia. f_equal. lia. Qed.

Lemma lookup_tail0 l t : (l ++ t) !! length l = t !! 0%nat.
Proof. apply (lookup_tail l t 0). Qed.

Lemma alter_tail (f : A -> A) l t i :
  alter f (i + length l)%nat (l ++ t) = l ++ alter f i t.
Proof. rewrite Nat.add_comm. apply alter_app_r. Qed.

Lemma alter_tail0 (f : A -> A) l t : alter f (length l) (l ++ t) = l ++ alter f 0%nat t.
Proof. apply (alter_tail f l t 0). Qed.

End TailFacts.

(** ** Protocol codec: shape of the results *)
Section CodecShape.

Lemma normalised_char_shape (c : ascii) :
  let d := Codec.lower_char (if Ascii.eqb c Codec.dash then Codec.colon else c) in
  d <> Codec.dash /\ ~ (65 <= N_of_ascii d <= 90)%N.
Proof.
  assert (H : let d := Codec.lower_char (if Ascii.eqb c Codec.dash then Codec.colon else c) in
              negb (Ascii.eqb d Codec.dash)
              && negb ((65 <=? N_of_ascii d)%N && (N_of_ascii d <=? 90)%N) = true).
  { destruct c as [[] [] [] [] [] [] [] []]; reflexivity. }
  cbv zeta in *.
  apply andb_true_iff in H as [H1 H2].
  apply negb_true_iff in H1, H2. split.
  - intros E. rewrite E in H1. discriminate.
  - intros [E1 E2]. apply N.leb_le in E1, E2. rewrite E1, E2 in H2. discriminate.
Qed.

(** X1: [normaliseAddress] keeps the length of the address, and its result
    contains neither a dash nor a capital letter A to Z. *)
Theorem normaliseAddress_shape (a : string) :
  String.length (Codec.normaliseAddress a) = String.length a
  /\ forall c, In c (list_ascii_of_string (Codec.normaliseAddress a)) ->
       c <> Codec.dash /\ ~ (65 <= N_of_ascii c <= 90)%N.
Proof.
  induction a as [|x a [IH1 IH2]].
  - split; [reflexivity|]. intros c [].
  - split.
    + change (S (String.length (Codec.normaliseAddress a)) = S (String.length a)).
      by rewrite IH1.
    + intros c [<-|Hc].
      * apply normalised_char_shape.
      * by apply IH2.
Qed.

Lemma mode_byte (b : byte) :
  let z := Buffer.byteZ b in
  0 <= Z.land z 0x3 <= 3
  /\ (Codec.flag z 0x02 = true <-> 2 <= Z.land z 0x3).
Proof.
  assert (H : let z := Buffer.byteZ b in
              (0 <=? Z.land z 0x3) && (Z.land z 0x3 <=? 3)
              && Bool.eqb (Codec.flag z 0x02) (2 <=? Z.land z 0x3) = true).
  { destruct b; reflexivity. }
  cbv zeta in *.
  apply andb_true_iff in H as [H H3]. apply andb_true_iff in H as [H1 H2].
  apply Z.leb_le in H1, H2. apply Bool.eqb_prop in H3.
  split; [lia|]. rewrite H3. apply Z.leb_le.
Qed.

Lemma ToInt32_byte (data : Buffer.t) i :
  exists b, JS.ToInt32 (Buffer.get data i) = Buffer.byteZ b.
Proof.
  unfold Buffer.get. destruct (data !! i) as [b|]; simpl; [by exists b|by exists x00].
Qed.

(** X2: in a decoded status record the mode is between 0 and 3, and the
    away schedule is present exactly when the mode is 2 or 3: the test for
    the schedule reads the upper of the two mode bits. *)
Theorem away_present_iff_mode_high (data : Buffer.t) (r : Codec.StatusRecord) :
  fst (Codec._parseStatus data) = Codec.Status r ->
  0 <= Codec.mode r <= 3
  /\ (Codec.away r <> None <-> 2 <= Codec.mode r).
Proof.
  unfold Codec._parseStatus.
  destruct (_ =? _); [|discriminate]. cbn [fst]. intros [= <-].
  cbn [Codec.mode Codec.away].
  destruct (ToInt32_byte data 2) as [b ->].
  destruct (mode_byte b) as [Hr Hiff].
  split; [exact Hr|].
  destruct (Codec.flag (Buffer.byteZ b) 2) eqn:E.
  - split; [intros _; by apply Hiff|discriminate].
  - split; [congruence|]. intros H. apply Hiff in H. discriminate.
Qed.

Lemma away_present_iff_mode_high_witness :
  exists r,
    fst (Codec._parseStatus (Scenario.status_notification x0a x2b)) = Codec.Status r
    /\ Codec.mode r = 2 /\ Codec.away r <> None.
Proof.
  eexists. split; [reflexivity|]. split; [reflexivity|].
  apply (proj2 (away_present_iff_mode_high (Scenario.status_notification x0a x2b) _ eq_refl)).
  vm_compute. discriminate.
Defined.


Lemma get_short (data : Buffer.t) i : (length data <= i)%nat -> Buffer.get data i = None.
Proof.
  intros H. unfold Buffer.get, Buffer.t in *.
  by rewrite lookup_ge_None_2.
Qed.

(** X3: [_parseStatus] raises nothing on a buffer of at most five bytes.
    With at most one byte it logs "unknown status" and returns the empty
    object. When it returns a record, every temperature, the window-open
    time and the offset are NaN, and an away schedule, if flagged, has an
    undefined day and month, a NaN year and hour, and minute 0. *)
Theorem parseStatus_truncated (data : Buffer.t) :
  (length data <= 5)%nat ->
  ((length data <= 1)%nat ->
   Codec._parseStatus data = (Codec.EmptyObject, ["unknown status"%string]))
  /\ (forall r,
        fst (Codec._parseStatus data) = Codec.Status r ->
        Codec.targetTemp r = JS.NaN
        /\ Codec.temp (Codec.windowOpen r) = JS.NaN
        /\ Codec.time (Codec.windowOpen r) = JS.NaN
        /\ Codec.comfortTemp r = JS.NaN
        /\ Codec.ecoTemp r = JS.NaN
        /\ Codec.tempOffset r = JS.NaN
        /\ (forall a, Codec.away r = Some a ->
              Codec.day a = None /\ Codec.year a = JS.NaN /\ Codec.min a = 0
              /\ Codec.hour a = JS.NaN /\ Codec.month a = None)).
Proof.
  intros Hlen. split.
  - intros H1. unfold Codec._parseStatus. rewrite (get_short data 1) by lia. reflexivity.
  - intros r. unfold Codec._parseStatus.
    destruct (_ =? _); [|discriminate]. cbn [fst]. intros [= <-].
    rewrite (get_short data 5), (get_short data 6), (get_short data 7),
      (get_short data 8), (get_short data 9), (get_short data 10),
      (get_short data 11), (get_short data 12), (get_short data 13),
      (get_short data 14) by lia.
    cbn [Codec.targetTemp Codec.windowOpen Codec.temp Codec.time Codec.comfortTemp
         Codec.ecoTemp Codec.tempOffset Codec.away JS.ToNumber JS.ToInt32
         JS.div_const JS.mul_const JS.sub_const JS.add_const].
    do 6 (split; [reflexivity|]).
    intros a. destruct (Codec.flag _ 2); [|discriminate].
    intros [= <-]. repeat split.
Qed.

Lemma parseStatus_truncated_witness :
  exists r,
    fst (Codec._parseStatus [x02; x01; x0a]) = Codec.Status r
    /\ Codec.targetTemp r = JS.NaN.
Proof.
  eexists. split; [reflexivity|].
  refine (proj1 (proj2 (parseStatus_truncated [x02; x01; x0a] _) _ eq_refl)).
  simpl. lia.
Defined.

(** X4: in a decoded away schedule with byte 8 present, [min] is 0 or 30
    and [hour] is byte 8 halved without rounding, so that [hour] is the
    whole hours plus [min] sixtieths: the half hour is counted in both
    fields. *)
Theorem away_hour_carries_half_hour
    (data : Buffer.t) (r : Codec.StatusRecord) (a : Codec.AwayRecord) (b8 : Z) :
  fst (Codec._parseStatus data) = Codec.Status r ->
  Codec.away r = Some a ->
  Buffer.get data 8 = Some b8 ->
  (Codec.min a = 0 \/ Codec.min a = 30)
  /\ JS.num_eq (Codec.hour a) (JS.Num (inject_Z (b8 / 2) + (Codec.min a # 60))).
Proof.
  unfold Codec._parseStatus.
  destruct (_ =? _); [|discriminate]. cbn [fst]. intros [= <-].
  cbn [Codec.away]. destruct (Codec.flag _ 2); [|discriminate].
  intros [= <-] H8. cbn [Codec.min Codec.hour]. rewrite H8.
  apply get_Some_byte in H8 as (c8 & _ & ->).
  destruct (byte_bits c8) as (_ & Ho & _). cbn [JS.ToInt32]. rewrite Ho.
  set (z := Buffer.byteZ c8).
  pose proof (Z.div_mod z 2 ltac:(lia)) as Hdm.
  rewrite Zmod_odd in Hdm.
  destruct (Z.odd z); (split; [auto|]); simpl; unfold Qeq; simpl; lia.
Qed.

Lemma away_hour_carries_half_hour_witness :
  exists r a,
    fst (Codec._parseStatus (Scenario.status_notification x0a x2b)) = Codec.Status r
    /\ Codec.away r = Some a
    /\ Codec.min a = 30
    /\ JS.num_eq (Codec.hour a) (JS.Num (inject_Z 12 + (30 # 60))).
Proof.
  eexists. eexists. split; [reflexivity|]. split; [reflexivity|]. split; [reflexivity|].
  exact (proj2 (away_hour_carries_half_hour (Scenario.status_notification x0a x2b)
                  _ _ 25 eq_refl eq_refl eq_refl)).
Defined.

Lemma truncate_sub (b k : Z) : JS.truncate (inject_Z b - inject_Z k) = b - k.
Proof. apply truncate_integer. unfold Qeq. simpl. lia. Qed.

(** X5: [_parseInfo] returns byte 1 as the version and a serial of exactly
    ten code units whatever the length of the buffer. The unit at position
    [i] comes from byte [4 + i]: the byte minus 0x30 when the byte is at
    least 0x30, the byte plus 65488 (the difference taken modulo 65536)
    when it is smaller, and 0 when the buffer has no such byte. *)
Theorem parseInfo_serial (data : Buffer.t) :
  Codec.version (Codec._parseInfo data) = Buffer.get data 1
  /\ length (CharCode.serial_string (Codec._parseInfo data)) = 10%nat
  /\ forall i, (i < 10)%nat ->
       CharCode.serial_string (Codec._parseInfo data) !! i
       = Some (match Buffer.get data (4 + i) with
               | Some b => if 0x30 <=? b then b - 0x30 else b + 65488
               | None => 0
               end).
Proof.
  split; [reflexivity|]. split; [reflexivity|].
  intros i Hi.
  unfold CharCode.serial_string, Codec._parseInfo. cbn [Codec.serial].
  rewrite map_map, list_lookup_fmap, lookup_seq_lt by exact Hi.
  cbn [fmap option_fmap option_map]. f_equal.
  destruct (Buffer.get data (4 + i)) as [b|] eqn:E; [|reflexivity].
  apply get_Some_byte in E as (c & _ & ->).
  pose proof (byteZ_range c) as Hr.
  unfold CharCode.fromCharCode, CharCode.ToUint16. cbn [JS.ToNumber JS.sub_const JS.of_int].
  rewrite truncate_sub.
  destruct (Z.leb_spec 48 (Buffer.byteZ c)).
  - apply Z.mod_small. lia.
  - replace (Buffer.byteZ c - 48) with (Buffer.byteZ c + 65488 + (-1) * 65536) by lia.
    rewrite Z.mod_add by lia. apply Z.mod_small. lia.
Qed.

End CodecShape.

(** ** Sessions: connections, commands and replies *)
Section SessionFlows.
Import Session.

(** Evaluation of a session whose lists of cells, timers, listeners and
    effects are unknown lists followed by known entries. [sdata] computes
    with the records; [stails] looks entries up by their distance from the
    end of the unknown list; [sctrl] opens one of the functions that branch
    on a cell, so that no branch is opened before its test is decided. *)
Ltac sdata :=
  cbv beta iota zeta delta
    [timeout alloc mark arm once emit_effects
     set_timers set_cells set_listeners set_now set_isConnected
     set_characteristics set_peripheral_state
     pending outcome_of on_connect on_disconnect remove_listeners registered
     peripheral_state isConnected dataCharacteristic commandCharacteristic
     listeners cells timers now effects
     op created result settle_cell owner deadline duration
     Z.ltb Z.compare
     fmap option_fmap option_map mbind option_bind];
  cbn [fst snd].

Ltac stails :=
  rewrite <- ?app_assoc; cbn [app];
  rewrite ?length_tail; cbn [length Nat.add];
  change (S (S (S (S (S (length ?l)))))) with (5 + length l)%nat;
  change (S (S (S (S (length ?l))))) with (4 + length l)%nat;
  change (S (S (S (length ?l)))) with (3 + length l)%nat;
  change (S (S (length ?l))) with (2 + length l)%nat;
  change (S (length ?l)) with (1 + length l)%nat;
  rewrite ?lookup_tail, ?lookup_tail0, ?alter_tail, ?alter_tail0;
  cbn [lookup list_lookup alter list_alter Nat.add].

Ltac sdata_run := sdata; repeat (progress stails; sdata).

Ltac sctrl :=
  first
    [ progress cbn [handle]
    | progress unfold _sendCommand
    | progress unfold connect
    | progress unfold disconnect
    | progress unfold _resolveCharacteristics
    | progress unfold settle_resolve
    | progress unfold after_resolve
    | progress unfold settle_connect
    | progress unfold after_connect
    | progress unfold _writeCharacteristic
    | progress unfold settle_write
    | progress unfold after_write ].

Ltac sess_run := sdata_run; repeat (sctrl; sdata_run).

Lemma registered_nil tg (ls : list (target * nat)) :
  map snd (filter (fun l => target_eqb (fst l) tg = true) ls) = [] ->
  filter (fun l : target * nat => target_eqb (fst l) tg = true) ls = []
  /\ filter (fun l : target * nat => target_eqb (fst l) tg = false) ls = ls.
Proof.
  intros H. apply map_eq_nil in H. split; [exact H|].
  induction ls as [|x l IH]; [reflexivity|].
  rewrite filter_cons in H. rewrite filter_cons.
  destruct (target_eqb (fst x) tg) eqn:E.
  - rewrite decide_True in H by reflexivity. discriminate.
  - rewrite decide_False in H by discriminate. rewrite decide_True by reflexivity.
    by rewrite IH.
Qed.

Lemma on_connect_eq error s :
  on_connect error s
  = set_isConnected (match error with None => true | Some _ => isConnected s end)
      (emit_effects
         [Debug (match error with
                 | None => "connected to device"
                 | Some _ => "error while connecting to device: %s"
                 end)] s).
Proof. destruct error, s; reflexivity. Qed.

Lemma on_disconnect_eq error s :
  on_disconnect error s
  = set_isConnected (match error with None => false | Some _ => isConnected s end)
      (emit_effects
         [Debug (match error with
                 | None => "disconnected from device"
                 | Some _ => "error while disconnecting: %s"
                 end)] s).
Proof. destruct error, s; reflexivity. Qed.



(** X6: on a connected session with a command characteristic, [getStatus]
    with a clock reading in the usual ranges hands the adapter one write of
    seven bytes, 0x03 followed by the year modulo 100, the month counted
    from 1, the day, the hours, the minutes and the seconds, registers one
    listener for ['status'], and is pending. *)
Theorem getStatus_request (d : Date) (s : Session.t) :
  peripheral_state s = "connected"%string ->
  commandCharacteristic s = true ->
  0 <= getFullYear d ->
  0 <= getMonth d <= 11 -> 1 <= getDate d <= 31 ->
  0 <= getHours d <= 23 -> 0 <= getMinutes d <= 59 -> 0 <= getSeconds d <= 59 ->
  let c := fst (getStatus d s) in
  let s1 := snd (getStatus d s) in
  exists buf,
    effects s1 = effects s ++ [Adapter (CharacteristicWrite (S (S c)) buf)]
    /\ map Buffer.byteZ buf
       = [0x03; getFullYear d mod 100; getMonth d + 1; getDate d;
          getHours d; getMinutes d; getSeconds d]
    /\ listeners s1 = listeners s ++ [(OnData status, c)]
    /\ pending c s1 = true.
Proof.
  intros Hp Hc Hy Hm Hd Hh Hmi Hs c s1. subst c s1.
  unfold getStatus. rewrite (sendCommand_connected _ _ s Hp Hc). cbn [fst snd].
  eexists. split; [reflexivity|]. split; [|split; [reflexivity|]].
  - unfold getStatus_buffer. rewrite map_map. cbn [map].
    rewrite !byteZ_u8.
    pose proof (Z.mod_pos_bound (getFullYear d) 100 ltac:(lia)).
    rewrite (Z.mod_small 3), (Z.mod_small (getFullYear d mod 100)),
      (Z.mod_small (getMonth d + 1)), (Z.mod_small (getDate d)),
      (Z.mod_small (getHours d)), (Z.mod_small (getMinutes d)),
      (Z.mod_small (getSeconds d)) by lia.
    reflexivity.
  - unfold pending. cbn [cells].
    rewrite <- !app_assoc. cbn [app]. rewrite lookup_tail0. reflexivity.
Qed.

Lemma getStatus_request_witness :
  exists buf,
    effects (snd (getStatus Scenario.noon Scenario.ready))
    = effects Scenario.ready ++ [Adapter (CharacteristicWrite 4 buf)]
    /\ map Buffer.byteZ buf = [3; 20; 1; 15; 12; 0; 0].
Proof.
  destruct (getStatus_request Scenario.noon Scenario.ready eq_refl eq_refl)
    as (buf & H1 & H2 & _); try (cbn; lia).
  exists buf. split; [exact H1|exact H2].
Defined.



(** X7: a command on a peripheral that is not connected, with no connection
    attempt in flight, first goes through the whole connection: nothing is
    written and no data listener is registered until the subscription is
    acknowledged; at that moment the connection promise resolves, the
    listener for the event of the command is registered and the buffer is
    handed to the adapter, and the command is pending. *)
Theorem command_connects_before_writing
    (s : Session.t) (buffer : Buffer.t) (ev : EventName) :
  peripheral_state s <> "connected"%string ->
  registered OnConnect s = [] ->
  let c := length (cells s) in
  let s1 := snd (_sendCommand buffer ev s) in
  let s2 := handle (AdapterConnect None) s1 in
  let s3 := handle (ServicesDiscovered (S (S c)) None true true) s2 in
  let s4 := handle (Subscribed (S c) None) s3 in
  fst (_sendCommand buffer ev s) = c
  /\ listeners s3 = listeners s
  /\ effects s3
     = effects s
       ++ [Debug "initiating connection"; Adapter PeripheralConnect;
           Debug "connected to device";
           Debug "resolving services and characteristic";
           Adapter (DiscoverAllServicesAndCharacteristics (S (S c)));
           Debug "successfully resolved services and characteristics (%d / %d)";
           Adapter DataCharacteristicOn;
           Debug "subscribing to data characteristic";
           Adapter (DataCharacteristicSubscribe (S c))]
  /\ outcome_of (S c) s4 = Some (Fulfilled Undefined, now s)
  /\ listeners s4 = listeners s ++ [(OnData ev, c)]
  /\ effects s4 = effects s3 ++ [Adapter (CharacteristicWrite (S (S (S c))) buffer)]
  /\ pending c s4 = true.
Proof.
  intros Hp Hreg.
  destruct s as [ps ic dc cc ls cs ts nw es].
  cbn [peripheral_state] in Hp. apply String.eqb_neq in Hp.
  unfold registered in Hreg. cbn [listeners] in Hreg.
  apply registered_nil in Hreg as [Hreg1 Hreg2].
  assert (Hks : filter (fun l : target * nat => target_eqb (fst l) OnConnect = true)
              (ls ++ [(OnConnect, S (length cs))]) = [(OnConnect, S (length cs))]).
  { rewrite filter_app, Hreg1. reflexivity. }
  assert (Hrm : filter (fun l : target * nat => target_eqb (fst l) OnConnect = false)
              (ls ++ [(OnConnect, S (length cs))]) = ls).
  { rewrite filter_app, Hreg2. cbn. apply app_nil_r. }
  intros c s1 s2 s3 s4. subst c. cbn [cells] in s3, s4.
  split.
  { unfold _sendCommand, timeout. reflexivity. }
  eassert (E1 : s1 = _).
  { subst s1. unfold _sendCommand, connect. sdata. rewrite Hp. sess_run. reflexivity. }
  clearbody s1. subst s1.
  eassert (E2 : s2 = _).
  { subst s2. cbn [handle]. rewrite on_connect_eq. sdata.
    rewrite Hks, Hrm. cbn [map foldl snd]. sess_run. reflexivity. }
  clearbody s2. subst s2.
  eassert (E3 : s3 = _).
  { subst s3. sess_run. reflexivity. }
  clearbody s3. subst s3.
  eassert (E4 : s4 = _).
  { subst s4. sess_run. reflexivity. }
  clearbody s4. subst s4.
  sess_run. repeat split.
Qed.

Lemma command_connects_before_writing_witness :
  effects
    (run [AdapterConnect None; ServicesDiscovered 2 None true true; Subscribed 1 None]
       (snd (getInfo (new "disconnected"))))
  = effects
      (run [AdapterConnect None; ServicesDiscovered 2 None true true]
         (snd (getInfo (new "disconnected"))))
    ++ [Adapter (CharacteristicWrite 3 [x00])].
Proof.
  exact (proj1 (proj2 (proj2 (proj2 (proj2 (proj2
    (command_connects_before_writing (new "disconnected") Codec.getInfo_buffer version
       ltac:(discriminate) eq_refl))))))).
Defined.


(** X8: [connect()] on a peripheral that is not connected, with no
    connection attempt in flight, asks the adapter to connect; at the
    ['connect'] event it resolves the characteristics, and when both are
    found it subscribes to the data characteristic; it is pending until the
    subscription is acknowledged, and resolved then. The listener of
    [connect()] ignores an error carried by the ['connect'] event: the same
    steps follow, only [isConnected] is left as it was. *)
Theorem connect_handshake (s : Session.t) (error : option string) :
  peripheral_state s <> "connected"%string ->
  registered OnConnect s = [] ->
  let k := length (cells s) in
  let s1 := snd (connect None s) in
  let s2 := handle (AdapterConnect error) s1 in
  let s3 := handle (ServicesDiscovered (S k) None true true) s2 in
  let s4 := handle (Subscribed k None) s3 in
  effects s1
  = effects s ++ [Debug "initiating connection"; Adapter PeripheralConnect]
  /\ pending k s3 = true
  /\ outcome_of k s4 = Some (Fulfilled Undefined, now s)
  /\ dataCharacteristic s4 = true /\ commandCharacteristic s4 = true
  /\ isConnected s4 = match error with None => true | Some _ => isConnected s end
  /\ listeners s4 = listeners s
  /\ effects s4
     = effects s1
       ++ [Debug (match error with
                  | None => "connected to device"
                  | Some _ => "error while connecting to device: %s"
                  end);
           Debug "resolving services and characteristic";
           Adapter (DiscoverAllServicesAndCharacteristics (S k));
           Debug "successfully resolved services and characteristics (%d / %d)";
           Adapter DataCharacteristicOn;
           Debug "subscribing to data characteristic";
           Adapter (DataCharacteristicSubscribe k)].
Proof.
  intros Hp Hreg.
  destruct s as [ps ic dc cc ls cs ts nw es].
  cbn [peripheral_state] in Hp. apply String.eqb_neq in Hp.
  unfold registered in Hreg. cbn [listeners] in Hreg.
  apply registered_nil in Hreg as [Hreg1 Hreg2].
  assert (Hks : filter (fun l : target * nat => target_eqb (fst l) OnConnect = true)
              (ls ++ [(OnConnect, length cs)]) = [(OnConnect, length cs)]).
  { rewrite filter_app, Hreg1. reflexivity. }
  assert (Hrm : filter (fun l : target * nat => target_eqb (fst l) OnConnect = false)
              (ls ++ [(OnConnect, length cs)]) = ls).
  { rewrite filter_app, Hreg2. cbn. apply app_nil_r. }
  intros k s1 s2 s3 s4. subst k. cbn [cells] in s3, s4.
  eassert (E1 : s1 = _).
  { subst s1. unfold connect, disconnect. sdata. rewrite Hp. sdata_run. reflexivity. }
  clearbody s1. subst s1.
  eassert (E2 : s2 = _).
  { subst s2. cbn [handle]. rewrite on_connect_eq. sdata.
    rewrite Hks, Hrm. cbn [map foldl snd]. sess_run. reflexivity. }
  clearbody s2. subst s2.
  eassert (E3 : s3 = _).
  { subst s3. sess_run. reflexivity. }
  clearbody s3. subst s3.
  eassert (E4 : s4 = _).
  { subst s4. sess_run. reflexivity. }
  clearbody s4. subst s4.
  sess_run. repeat split.
Qed.

Lemma connect_handshake_witness :
  outcome_of 0
    (run [AdapterConnect None; ServicesDiscovered 1 None true true; Subscribed 0 None]
       (snd (connect None (new "disconnected"))))
  = Some (Fulfilled Undefined, 0).
Proof.
  exact (proj1 (proj2 (proj2 (connect_handshake (new "disconnected") None
                                ltac:(discriminate) eq_refl)))).
Defined.


(** X9: a command on a peripheral that is not connected fails with the
    error of its connection, and writes nothing: with the error the adapter
    reports for the discovery of the services, with a [TypeError] when the
    data characteristic is not found, and with the error the adapter
    reports for the subscription. No data listener is registered in any of
    these cases. *)
Theorem failed_connect_rejects_command
    (s : Session.t) (buffer : Buffer.t) (ev : EventName) (e : string)
    (data command : bool) :
  peripheral_state s <> "connected"%string ->
  registered OnConnect s = [] ->
  let c := length (cells s) in
  let s1 := snd (_sendCommand buffer ev s) in
  let s2 := handle (AdapterConnect None) s1 in
  let discovery_fails :=
    handle (ServicesDiscovered (S (S c)) (Some e) data command) s2 in
  let no_data_characteristic :=
    handle (ServicesDiscovered (S (S c)) None false command) s2 in
  let subscription_fails :=
    handle (Subscribed (S c) (Some e))
      (handle (ServicesDiscovered (S (S c)) None true command) s2) in
  pending c s2 = true
  /\ effects s2
     = effects s
       ++ [Debug "initiating connection"; Adapter PeripheralConnect;
           Debug "connected to device";
           Debug "resolving services and characteristic";
           Adapter (DiscoverAllServicesAndCharacteristics (S (S c)))]
  /\ outcome_of c discovery_fails = Some (Rejected (AdapterError e), now s)
  /\ effects discovery_fails = effects s2
  /\ outcome_of c no_data_characteristic = Some (Rejected TypeError, now s)
  /\ effects no_data_characteristic
     = effects s2
       ++ [Debug "successfully resolved services and characteristics (%d / %d)"]
  /\ outcome_of c subscription_fails = Some (Rejected (AdapterError e), now s)
  /\ effects subscription_fails
     = effects s2
       ++ [Debug "successfully resolved services and characteristics (%d / %d)";
           Adapter DataCharacteristicOn;
           Debug "subscribing to data characteristic";
           Adapter (DataCharacteristicSubscribe (S c))]
  /\ listeners discovery_fails = listeners s
  /\ listeners no_data_characteristic = listeners s
  /\ listeners subscription_fails = listeners s.
Proof.
  intros Hp Hreg.
  destruct s as [ps ic dc cc ls cs ts nw es].
  cbn [peripheral_state] in Hp. apply String.eqb_neq in Hp.
  unfold registered in Hreg. cbn [listeners] in Hreg.
  apply registered_nil in Hreg as [Hreg1 Hreg2].
  assert (Hks : filter (fun l : target * nat => target_eqb (fst l) OnConnect = true)
              (ls ++ [(OnConnect, S (length cs))]) = [(OnConnect, S (length cs))]).
  { rewrite filter_app, Hreg1. reflexivity. }
  assert (Hrm : filter (fun l : target * nat => target_eqb (fst l) OnConnect = false)
              (ls ++ [(OnConnect, S (length cs))]) = ls).
  { rewrite filter_app, Hreg2. cbn. apply app_nil_r. }
  intros c s1 s2 s3a s3b s3c. subst c. cbn [cells] in s3a, s3b, s3c.
  eassert (E1 : s1 = _).
  { subst s1. unfold _sendCommand, connect. sdata. rewrite Hp. sess_run. reflexivity. }
  clearbody s1. subst s1.
  eassert (E2 : s2 = _).
  { subst s2. cbn [handle]. rewrite on_connect_eq. sdata.
    rewrite Hks, Hrm. cbn [map foldl snd]. sess_run. reflexivity. }
  clearbody s2. subst s2.
  eassert (E3a : s3a = _).
  { subst s3a. sess_run. reflexivity. }
  clearbody s3a.
  eassert (E3b : s3b = _).
  { subst s3b. sess_run. reflexivity. }
  clearbody s3b.
  set (mid := handle (ServicesDiscovered _ None true command) _) in s3c.
  eassert (Emid : mid = _).
  { subst mid. sess_run. reflexivity. }
  clearbody mid. subst mid.
  eassert (E3c : s3c = _).
  { subst s3c. sess_run. reflexivity. }
  clearbody s3c.
  subst s3a s3b s3c.
  sess_run. repeat split.
Qed.

Lemma failed_connect_rejects_command_witness :
  outcome_of 0
    (run [AdapterConnect None; ServicesDiscovered 2 (Some "gatt error"%string) false false]
       (snd (getStatus Scenario.noon (new "disconnected"))))
  = Some (Rejected (AdapterError "gatt error"), 0).
Proof.
  exact (proj1 (proj2 (proj2 (failed_connect_rejects_command (new "disconnected")
                                (getStatus_buffer Scenario.noon) status "gatt error"
                                false false ltac:(discriminate) eq_refl)))).
Defined.



(** X10: on a peripheral the adapter reports connected while no command
    characteristic has been resolved, the connection promise of a command
    resolves at once, and the command is rejected at once with a
    [TypeError]: nothing is asked of the adapter, and the data listener
    that was registered before the write stays registered. *)
Theorem command_without_characteristic
    (s : Session.t) (buffer : Buffer.t) (ev : EventName) :
  peripheral_state s = "connected"%string ->
  commandCharacteristic s = false ->
  let c := length (cells s) in
  let s1 := snd (_sendCommand buffer ev s) in
  fst (_sendCommand buffer ev s) = c
  /\ outcome_of (S c) s1 = Some (Fulfilled Undefined, now s)
  /\ outcome_of c s1 = Some (Rejected TypeError, now s)
  /\ effects s1 = effects s
  /\ listeners s1 = listeners s ++ [(OnData ev, c)].
Proof.
  intros Hp Hc.
  destruct s as [ps ic dc cc ls cs ts nw es].
  cbn [peripheral_state commandCharacteristic] in Hp, Hc. subst ps cc.
  intros c s1. subst c.
  split; [reflexivity|].
  eassert (E1 : s1 = _).
  { subst s1. unfold _sendCommand, connect. sdata. cbn [String.eqb Ascii.eqb Bool.eqb]; sess_run. reflexivity. }
  clearbody s1. subst s1.
  sess_run. repeat split.
Qed.

Lemma command_without_characteristic_witness :
  outcome_of 0 (snd (getStatus Scenario.noon (new "connected")))
  = Some (Rejected TypeError, 0).
Proof.
  exact (proj1 (proj2 (proj2 (command_without_characteristic (new "connected")
                                (getStatus_buffer Scenario.noon) status
                                eq_refl eq_refl)))).
Defined.

(** X15: [disconnect()] on a peripheral that is not disconnected asks the
    adapter to disconnect and is pending; it resolves at the next
    ['disconnect'] event whether or not that event carries an error, and
    no ['disconnect'] listener is left. [isConnected] is cleared only when
    the event carries no error. *)
Theorem disconnect_resolves_on_event (s : Session.t) (error : option string) :
  peripheral_state s <> "disconnected"%string ->
  let d := length (cells s) in
  let s1 := snd (disconnect s) in
  let s2 := handle (AdapterDisconnect error) s1 in
  fst (disconnect s) = d
  /\ pending d s1 = true
  /\ effects s1
     = effects s ++ [Debug "closing connection"; Adapter PeripheralDisconnect]
  /\ outcome_of d s2 = Some (Fulfilled Undefined, now s)
  /\ registered OnDisconnect s2 = []
  /\ isConnected s2 = match error with None => false | Some _ => isConnected s end.
Proof.
  intros Hp.
  destruct s as [ps ic dc cc ls cs ts nw es].
  cbn [peripheral_state] in Hp. apply String.eqb_neq in Hp.
  intros d s1 s2. subst d.
  split; [reflexivity|].
  eassert (E1 : s1 = _).
  { subst s1. unfold connect, disconnect. sdata. rewrite Hp. sdata_run. reflexivity. }
  clearbody s1. subst s1.
  split; [sess_run; reflexivity|]. split; [reflexivity|].
  subst s2. cbn [handle]. rewrite on_disconnect_eq.
  split; [|split].
  - rewrite marks_outcome.
    rewrite decide_True.
    + sess_run. reflexivity.
    + unfold registered. apply list_elem_of_fmap. exists (OnDisconnect, length cs).
      split; [reflexivity|]. apply list_elem_of_filter. split; [reflexivity|].
      cbn. apply elem_of_app. right. left.
  - rewrite foldl_mark. unfold registered at 1. cbn [listeners set_cells remove_listeners set_listeners].
    apply registered_filter_same.
  - rewrite foldl_mark. destruct error; reflexivity.
Qed.

Lemma disconnect_resolves_on_event_witness :
  outcome_of 2
    (handle (AdapterDisconnect None) (snd (disconnect Scenario.ready)))
  = Some (Fulfilled Undefined, 0).
Proof.
  exact (proj1 (proj2 (proj2 (proj2 (disconnect_resolves_on_event Scenario.ready None
                                       ltac:(discriminate)))))).
Defined.



(** X11: when the adapter reports that the write of a command failed, the
    write and the command are rejected with no reason ([reject()] is called
    without an argument), nothing more is asked of the adapter, and the
    data listener of the command stays registered. *)
Theorem failed_write_rejects_command (s : Session.t) (buffer : Buffer.t) (ev : EventName) :
  peripheral_state s = "connected"%string ->
  commandCharacteristic s = true ->
  let c := length (cells s) in
  let s1 := snd (_sendCommand buffer ev s) in
  let s2 := handle (Written (S (S c)) true) s1 in
  pending c s1 = true
  /\ outcome_of (S (S c)) s2 = Some (Rejected NoReason, now s)
  /\ outcome_of c s2 = Some (Rejected NoReason, now s)
  /\ listeners s2 = listeners s ++ [(OnData ev, c)]
  /\ effects s2 = effects s1.
Proof.
  intros Hp Hc c s1 s2. subst c.
  assert (E1 : s1 = snd (_sendCommand buffer ev s)) by reflexivity.
  rewrite (sendCommand_connected buffer ev s Hp Hc) in E1. cbn [snd] in E1.
  clearbody s1. subst s1.
  destruct s as [ps ic dc cc ls cs ts nw es]. cbn [cells now effects isConnected dataCharacteristic listeners timers] in *.
  eassert (E2 : s2 = _).
  { subst s2. sess_run. reflexivity. }
  clearbody s2. subst s2.
  sess_run. repeat split.
Qed.


Lemma failed_write_rejects_command_witness :
  outcome_of 2 (handle (Written 4 true) Scenario.awaiting_status)
  = Some (Rejected NoReason, 0).
Proof.
  exact (proj1 (proj2 (proj2 (failed_write_rejects_command Scenario.ready
                                (getStatus_buffer Scenario.noon) status
                                eq_refl eq_refl)))).
Defined.


Lemma registered_last tg c (ls : list (target * nat)) :
  c ∈ map snd (filter (fun l : target * nat => target_eqb (fst l) tg = true)
                 (ls ++ [(tg, c)])).
Proof.
  apply list_elem_of_fmap. exists (tg, c). split; [reflexivity|].
  apply list_elem_of_filter. split.
  - cbn. by apply target_eqb_eq.
  - apply elem_of_app. right. left.
Qed.

(** X12: the round trip of [getInfo()] on a connected session: the buffer
    [0x00] is written; the acknowledgement of the write resolves the write
    and leaves the command pending; a notification whose first byte is 0x01
    resolves the command with [_parseInfo] of that notification, and no
    ['version'] listener is left. *)
Theorem getInfo_round_trip (s : Session.t) (data : Buffer.t) :
  peripheral_state s = "connected"%string ->
  commandCharacteristic s = true ->
  Buffer.get data 0 = Some 0x01 ->
  let c := length (cells s) in
  let s1 := snd (getInfo s) in
  let s2 := handle (Written (S (S c)) false) s1 in
  let s3 := handle (Notification data) s2 in
  fst (getInfo s) = c
  /\ effects s1 = effects s ++ [Adapter (CharacteristicWrite (S (S c)) [x00])]
  /\ outcome_of (S (S c)) s2 = Some (Fulfilled Undefined, now s)
  /\ pending c s2 = true
  /\ outcome_of c s3 = Some (Fulfilled (VersionInfo (Codec._parseInfo data)), now s)
  /\ registered (OnData version) s3 = [].
Proof.
  intros Hp Hc H0 c s1 s2 s3. subst c.
  unfold getInfo in *.
  split; [by rewrite (sendCommand_connected _ _ s Hp Hc)|].
  assert (E1 : s1 = snd (_sendCommand Codec.getInfo_buffer version s)) by reflexivity.
  rewrite (sendCommand_connected _ _ s Hp Hc) in E1. cbn [snd] in E1.
  clearbody s1. subst s1.
  destruct s as [ps ic dc cc ls cs ts nw es].
  cbn [cells now effects isConnected dataCharacteristic listeners timers] in *.
  split; [reflexivity|].
  eassert (E2 : s2 = _).
  { subst s2. sess_run. reflexivity. }
  clearbody s2. subst s2.
  split; [sess_run; reflexivity|]. split; [sess_run; reflexivity|].
  subst s3. cbn [handle]. unfold _dataHandler. rewrite H0.
  split.
  - rewrite emit_outcome. rewrite decide_True by apply registered_last.
    sdata_run. reflexivity.
  - unfold registered at 1. rewrite emit_listeners. apply registered_filter_same.
Qed.

Lemma getInfo_round_trip_witness :
  outcome_of 2
    (run [Written 4 false;
          Notification [x01; x78; x00; x00; x7f; x75; x81; x60; x66; x61; x66; x63; x69; x60]]
       (snd (getInfo Scenario.ready)))
  = Some (Fulfilled
            (VersionInfo
               (Codec._parseInfo
                  [x01; x78; x00; x00; x7f; x75; x81; x60; x66; x61; x66; x63; x69; x60])),
          0).
Proof.
  exact (proj1 (proj2 (proj2 (proj2 (proj2
    (getInfo_round_trip Scenario.ready
       [x01; x78; x00; x00; x7f; x75; x81; x60; x66; x61; x66; x63; x69; x60]
       eq_refl eq_refl eq_refl)))))).
Defined.

(** X13: replies are not matched to commands. When two commands that wait
    for ['status'] are pending on a connected session, one status
    notification resolves both of them with the same decoded record. *)
Theorem one_status_reply_resolves_every_status_command
    (s : Session.t) (b1 b2 data : Buffer.t) :
  peripheral_state s = "connected"%string ->
  commandCharacteristic s = true ->
  Buffer.get data 0 = Some 0x02 ->
  let c1 := length (cells s) in
  let s1 := snd (_sendCommand b1 status s) in
  let c2 := length (cells s1) in
  let s2 := snd (_sendCommand b2 status s1) in
  let s3 := handle (Notification data) s2 in
  c2 = (3 + c1)%nat
  /\ pending c1 s2 = true /\ pending c2 s2 = true
  /\ outcome_of c1 s3
     = Some (Fulfilled (StatusInfo (fst (Codec._parseStatus data))), now s)
  /\ outcome_of c2 s3
     = Some (Fulfilled (StatusInfo (fst (Codec._parseStatus data))), now s)
  /\ registered (OnData status) s3 = [].
Proof.
  intros Hp Hc H0 c1 s1 c2 s2 s3. subst c1.
  eassert (E1 : s1 = _).
  { subst s1. rewrite (sendCommand_connected _ _ s Hp Hc). cbn [snd]. reflexivity. }
  clearbody s1. subst s1.
  eassert (E2 : s2 = _).
  { subst s2. rewrite sendCommand_connected by reflexivity. cbn [snd]. reflexivity. }
  clearbody s2. subst s2. subst c2.
  destruct s as [ps ic dc cc ls cs ts nw es].
  cbn [cells now effects isConnected dataCharacteristic listeners timers] in *.
  split; [sdata_run; reflexivity|].
  split; [sdata_run; reflexivity|]. split; [sdata_run; reflexivity|].
  subst s3. cbn [handle]. unfold _dataHandler. rewrite H0.
  destruct (Codec._parseStatus data) as [r lines]. cbn [fst].
  split; [|split].
  - rewrite emit_outcome. rewrite decide_True.
    + sdata_run. reflexivity.
    + unfold registered. cbn [listeners emit_effects].
      apply list_elem_of_fmap. exists (OnData status, length cs). split; [reflexivity|].
      apply list_elem_of_filter. split; [reflexivity|].
      apply elem_of_app. left. apply elem_of_app. right. left.
  - rewrite emit_outcome. rewrite decide_True by apply registered_last.
    sdata_run. reflexivity.
  - unfold registered at 1. rewrite emit_listeners. apply registered_filter_same.
Qed.

Lemma one_status_reply_resolves_every_status_command_witness :
  outcome_of 2
    (handle (Notification (Scenario.status_notification x08 x2b))
       (snd (setBoost true (snd (getStatus Scenario.noon Scenario.ready)))))
  = outcome_of 5
      (handle (Notification (Scenario.status_notification x08 x2b))
         (snd (setBoost true (snd (getStatus Scenario.noon Scenario.ready))))).
Proof.
  pose proof (one_status_reply_resolves_every_status_command Scenario.ready
                (getStatus_buffer Scenario.noon) (Codec.setBoost_buffer true)
                (Scenario.status_notification x08 x2b) eq_refl eq_refl eq_refl)
    as (_ & _ & _ & H1 & H2 & _).
  exact (eq_trans H1 (eq_sym H2)).
Defined.


Lemma dispatch_other {A} (v : option Z) (a b c : A) :
  v <> Some 1 -> v <> Some 2 ->
  match v with Some 1 => a | Some 2 => b | _ => c end = c.
Proof.
  intros H1 H2. destruct v as [z|]; [|reflexivity].
  destruct z as [|p|p]; try reflexivity.
  destruct p as [p|p|]; try reflexivity; [|congruence].
  destruct p; try reflexivity; congruence.
Qed.

(** X14: what a notification does is decided by its first byte alone. With
    0x01 it serves the ['version'] listeners, with 0x02 the ['status']
    listeners, and with any other byte, or none, no listener at all. The
    listeners of the served event are all removed and their pending cells
    resolved with the decoded value; every other listener stays, every
    other cell keeps its outcome, and neither timers nor clock change. *)
Theorem notification_dispatch (data : Buffer.t) (s : Session.t) :
  let s' := _dataHandler data s in
  let kind :=
    match Buffer.get data 0 with
    | Some 0x01 => Some version
    | Some 0x02 => Some status
    | _ => None
    end in
  (forall ev, kind = Some ev -> registered (OnData ev) s' = [])
  /\ (forall tg, (forall ev, kind = Some ev -> tg <> OnData ev) ->
        registered tg s' = registered tg s)
  /\ (forall c, (forall ev, kind = Some ev -> c ∉ registered (OnData ev) s) ->
        outcome_of c s' = outcome_of c s)
  /\ (forall c ev, kind = Some ev -> c ∈ registered (OnData ev) s ->
        pending c s = true ->
        exists v, outcome_of c s' = Some (Fulfilled v, now s)
                  /\ (ev = version -> v = VersionInfo (Codec._parseInfo data))
                  /\ (ev = status -> v = StatusInfo (fst (Codec._parseStatus data))))
  /\ timers s' = timers s
  /\ now s' = now s.
Proof.
  intros s' kind. subst s' kind. unfold _dataHandler.
  assert (Hcase : Buffer.get data 0 = Some 1 \/ Buffer.get data 0 = Some 2
                  \/ (Buffer.get data 0 <> Some 1 /\ Buffer.get data 0 <> Some 2)).
  { destruct (Buffer.get data 0) as [z|]; [|right; right; split; discriminate].
    destruct (Z.eq_dec z 1) as [->|]; [by left|].
    destruct (Z.eq_dec z 2) as [->|]; [right; by left|].
    right; right. split; congruence. }
  destruct Hcase as [H|[H|[H1 H2]]].
  - rewrite H.
    set (s0 := emit_effects [Debug "received version message"]
                 (emit_effects [ConsoleData data] s)).
    split; [|split; [|split; [|split; [|split]]]].
    + intros ev [= <-]. unfold registered at 1. rewrite emit_listeners.
      apply registered_filter_same.
    + intros tg Htg. unfold registered at 1. rewrite emit_listeners.
      apply registered_filter_other. intros E. by apply (Htg version).
    + intros c Hc. rewrite emit_outcome. by rewrite decide_False by (by apply Hc).
    + intros c ev [= <-] Hc Hp. eexists. split; [|split; [reflexivity|discriminate]].
      rewrite emit_outcome. rewrite decide_True by exact Hc.
      change (pending c s0) with (pending c s). by rewrite Hp.
    + unfold emit. by rewrite foldl_mark.
    + unfold emit. by rewrite foldl_mark.
  - rewrite H. destruct (Codec._parseStatus data) as [r lines]. cbn [fst].
    set (s0 := emit_effects (map Console lines)
                 (emit_effects [Debug "received status message"]
                    (emit_effects [ConsoleData data] s))).
    split; [|split; [|split; [|split; [|split]]]].
    + intros ev [= <-]. unfold registered at 1. rewrite emit_listeners.
      apply registered_filter_same.
    + intros tg Htg. unfold registered at 1. rewrite emit_listeners.
      apply registered_filter_other. intros E. by apply (Htg status).
    + intros c Hc. rewrite emit_outcome. by rewrite decide_False by (by apply Hc).
    + intros c ev [= <-] Hc Hp. eexists. split; [|split; [discriminate|reflexivity]].
      rewrite emit_outcome. rewrite decide_True by exact Hc.
      change (pending c s0) with (pending c s). by rewrite Hp.
    + unfold emit. by rewrite foldl_mark.
    + unfold emit. by rewrite foldl_mark.
  - cbv zeta. rewrite !dispatch_other by assumption.
    repeat split; try discriminate; reflexivity.
Qed.


End SessionFlows.

(** ** Sessions: outcomes are final *)
Section FinalFacts.
Import Session.

(** [s'] keeps the settlements of [s]: a cell that has an outcome in [s]
    has the same outcome in [s']. *)
Local Abbreviation keeps s s' :=
  (forall c r, outcome_of c s = Some r -> outcome_of c s' = Some r).

Lemma keeps_trans s1 s2 s3 : keeps s1 s2 -> keeps s2 s3 -> keeps s1 s3.
Proof. auto. Qed.

Lemma keeps_same s s' : cells s' = cells s -> keeps s s'.
Proof. intros H c r. unfold outcome_of. by rewrite H. Qed.

Lemma outcome_not_pending c s r : outcome_of c s = Some r -> pending c s = false.
Proof.
  unfold outcome_of, pending. destruct (cells s !! c) as [cl|]; [|discriminate].
  simpl. by intros ->.
Qed.

Lemma keeps_mark_all o l s : keeps s (mark_all o l s).
Proof.
  intros c0 r0 Hk. rewrite marks_outcome, (outcome_not_pending c0 s r0 Hk), Hk.
  by destruct (decide _).
Qed.

Lemma keeps_mark c o s : keeps s (mark c o s).
Proof. apply (keeps_mark_all o [c] s). Qed.

Lemma keeps_timeout ms o (f : nat -> t -> t) s :
  (forall k s1, keeps s1 (f k s1)) -> keeps s (snd (timeout ms o f s)).
Proof.
  intros Hf c r H. unfold timeout. cbn [alloc snd].
  assert (Harm : forall s0, outcome_of c (arm ms (length (cells s)) s0) = outcome_of c s0).
  { intros s0. unfold arm. by destruct (0 <? ms). }
  rewrite Harm. apply Hf.
  unfold outcome_of in *. cbn [cells set_cells].
  destruct (cells s !! c) as [cl|] eqn:E; [|discriminate].
  by rewrite (lookup_app_l_Some _ _ _ _ E).
Qed.

Lemma keeps_after_write w s : keeps s (after_write w s).
Proof. unfold after_write. repeat case_match; auto using keeps_mark. Qed.

Lemma keeps_writeCharacteristic caller data s :
  keeps s (_writeCharacteristic caller data s).
Proof.
  unfold _writeCharacteristic.
  pose proof (keeps_timeout 10000 (WriteCharacteristic caller)
                (fun w s1 => if commandCharacteristic s1
                             then emit_effects [Adapter (CharacteristicWrite w data)] s1
                             else mark w (Rejected TypeError) s1) s) as H.
  destruct (timeout _ _ _ s) as [w s1]. cbn [snd] in H.
  intros c0 r0 Hk. apply keeps_after_write, H; [|exact Hk].
  intros k s0. destruct (commandCharacteristic s0); [by apply keeps_same|apply keeps_mark].
Qed.

Lemma keeps_after_connect k s : keeps s (after_connect k s).
Proof.
  unfold after_connect. repeat case_match; auto using keeps_mark.
  intros c0 r0 Hk. apply keeps_writeCharacteristic. revert Hk. by apply keeps_same.
Qed.

Lemma keeps_settle_connect k o s : keeps s (settle_connect k o s).
Proof.
  unfold settle_connect. destruct (pending k s); [|auto].
  intros c0 r0 Hk. by apply keeps_after_connect, keeps_mark.
Qed.

Lemma keeps_settle_write w o s : keeps s (settle_write w o s).
Proof.
  unfold settle_write. destruct (pending w s); [|auto].
  intros c0 r0 Hk. by apply keeps_after_write, keeps_mark.
Qed.

Lemma keeps_after_resolve r s : keeps s (after_resolve r s).
Proof.
  unfold after_resolve. repeat case_match; auto using keeps_settle_connect.
Qed.

Lemma keeps_settle_resolve r o s : keeps s (settle_resolve r o s).
Proof.
  unfold settle_resolve. destruct (pending r s); [|auto].
  intros c0 r0 Hk. by apply keeps_after_resolve, keeps_mark.
Qed.

Lemma keeps_settle c o s : keeps s (settle c o s).
Proof.
  unfold settle. repeat case_match;
    auto using keeps_settle_connect, keeps_settle_write, keeps_settle_resolve,
      keeps_mark.
Qed.

Lemma keeps_connect caller s : keeps s (snd (connect caller s)).
Proof.
  apply keeps_timeout. intros k s1.
  destruct (String.eqb _ _); [apply keeps_mark|by apply keeps_same].
Qed.

Lemma keeps_disconnect s : keeps s (snd (disconnect s)).
Proof.
  apply keeps_timeout. intros k s1.
  destruct (String.eqb _ _); [apply keeps_mark|by apply keeps_same].
Qed.

Lemma keeps_sendCommand buffer event s : keeps s (snd (_sendCommand buffer event s)).
Proof.
  unfold _sendCommand.
  pose proof (keeps_timeout 10000 (SendCommand buffer event)
                (fun c s1 => snd (connect (Some c) s1)) s) as H.
  destruct (timeout _ _ _ s) as [cmd s1]. cbn [snd] in *.
  intros c0 r0 Hk. apply keeps_after_connect, H; [|exact Hk].
  intros k s0. apply keeps_connect.
Qed.

Lemma keeps_resolveCharacteristics caller s :
  keeps s (_resolveCharacteristics caller s).
Proof.
  unfold _resolveCharacteristics. apply keeps_timeout.
  intros k s1. by apply keeps_same.
Qed.

Lemma keeps_foldl {A} (f : t -> A -> t) l :
  (forall s x, keeps s (f s x)) -> forall s, keeps s (foldl f s l).
Proof.
  intros Hf. induction l as [|x l IH]; intros s; simpl; [auto|].
  intros c0 r0 Hk. by apply IH, Hf.
Qed.

Lemma keeps_emit ev v s : keeps s (emit ev v s).
Proof.
  unfold emit. intros c0 r0 Hk. apply keeps_mark_all. revert Hk. by apply keeps_same.
Qed.

Lemma dispatch_cases {A} (P : A -> Prop) (v : option Z) (a b c : A) :
  P a -> P b -> P c -> P (match v with Some 1 => a | Some 2 => b | _ => c end).
Proof.
  intros Ha Hb Hc. destruct v as [z|]; [|exact Hc].
  destruct z as [|p|p]; try exact Hc.
  destruct p as [p|p|]; try exact Hc; [|exact Ha].
  destruct p; first [exact Hc | exact Hb].
Qed.

Lemma keeps_dataHandler data s : keeps s (_dataHandler data s).
Proof.
  unfold _dataHandler. intros c0 r0 Hk.
  apply (dispatch_cases (fun s' => outcome_of c0 s' = Some r0)).
  - by apply keeps_emit.
  - destruct (Codec._parseStatus data) as [r lines]. by apply keeps_emit.
  - exact Hk.
Qed.

Lemma keeps_fire tm s : keeps s (fire tm s).
Proof.
  unfold fire. intros c0 r0 Hk. apply keeps_settle. revert Hk. by apply keeps_same.
Qed.

Lemma keeps_handle e s : keeps s (handle e s).
Proof.
  destruct e as [state|error|error|r error d c|k error|w error|data|ms];
    cbn [handle]; intros c0 r0 Hk.
  - revert Hk. by apply keeps_same.
  - apply keeps_foldl; [intros; by apply keeps_resolveCharacteristics|].
    revert Hk. apply keeps_same. unfold on_connect. by destruct error.
  - apply keeps_mark_all. revert Hk. apply keeps_same.
    unfold on_disconnect. by destruct error.
  - repeat case_match; try done.
    + by apply keeps_settle_resolve.
    + apply keeps_settle_resolve. revert Hk. by apply keeps_same.
  - repeat case_match; try done; by apply keeps_settle_connect.
  - repeat case_match; try done.
    + by apply keeps_settle_write.
    + apply keeps_settle_write. revert Hk. by apply keeps_same.
  - by apply keeps_dataHandler.
  - assert (Hn : forall v s0, outcome_of c0 (set_now v s0) = outcome_of c0 s0) by done.
    rewrite Hn. apply keeps_foldl; [intros; by apply keeps_fire|].
    revert Hk. by apply keeps_same.
Qed.

Lemma keeps_run es : forall s, keeps s (run es s).
Proof.
  unfold run. apply keeps_foldl. intros s e. apply keeps_handle.
Qed.

(** X16: an operation that is settled stays settled with the same outcome
    and the same time, whatever happens afterwards: no event, in
    particular no timer of [timeout] firing late (the timers are never
    cleared), and no later call of [connect], [disconnect] or a command
    changes it. *)
Theorem settled_operations_stay_settled
    (s : Session.t) (c : nat) (r : outcome * Z) :
  outcome_of c s = Some r ->
  (forall es, outcome_of c (run es s) = Some r)
  /\ outcome_of c (snd (connect None s)) = Some r
  /\ outcome_of c (snd (disconnect s)) = Some r
  /\ (forall buffer event, outcome_of c (snd (_sendCommand buffer event s)) = Some r).
Proof.
  intros H. split; [|split; [|split]].
  - intros es. by apply keeps_run.
  - by apply keeps_connect.
  - by apply keeps_disconnect.
  - intros. by apply keeps_sendCommand.
Qed.

Lemma settled_operations_stay_settled_witness :
  outcome_of 2
    (run [Elapse 10000]
       (run [Written 4 false; Notification (Scenario.status_notification x08 x2b)]
          Scenario.awaiting_status))
  = Some (Fulfilled
            (StatusInfo (fst (Codec._parseStatus (Scenario.status_notification x08 x2b)))),
          0).
Proof.
  assert (H : outcome_of 2
                (run [Written 4 false;
                      Notification (Scenario.status_notification x08 x2b)]
                   Scenario.awaiting_status)
              = Some (Fulfilled
                        (StatusInfo
                           (fst (Codec._parseStatus
                                   (Scenario.status_notification x08 x2b)))),
                      0)).
  { vm_compute. reflexivity. }
  exact (proj1 (settled_operations_stay_settled _ 2 _ H) [Elapse 10000]).
Defined.

End FinalFacts.

(** ** Discovery: listeners, calls and the device map *)
Section ListenerFacts.
Import Value Discovery.

Lemma act_act l1 l2 s : act l2 (act l1 s) = act (l1 ++ l2) s.
Proof. unfold act. cbn. by rewrite app_assoc. Qed.

Lemma act_nil s : act [] s = s.
Proof. destruct s. unfold act. cbn. by rewrite app_nil_r. Qed.

(** A run of listeners that each only write the same line to the log, or
    nothing. *)
Lemma foldl_only_logs (f : Discovery.t -> nat -> Discovery.t)
    (P : nat -> Discovery.t -> Prop) (x : action) (lo : nat) :
  (forall c s l, P c s -> P c (act l s)) ->
  (forall c s, P c s ->
     exists n, (lo <= n <= 1)%nat /\ f s c = act (replicate n x) s) ->
  forall cs s, (forall c, c ∈ cs -> P c s) ->
    exists n, (lo * length cs <= n <= length cs)%nat
              /\ foldl f s cs = act (replicate n x) s.
Proof.
  intros Hact Hf. induction cs as [|c cs IH]; intros s HP; simpl.
  - exists 0%nat. split; [lia|]. by rewrite act_nil.
  - destruct (Hf c s) as (n1 & Hn1 & ->); [apply HP; left|].
    destruct (IH (act (replicate n1 x) s)) as (n2 & Hn2 & ->).
    + intros c' Hc'. apply Hact, HP. by right.
    + exists (n1 + n2)%nat. split; [nia|].
      rewrite act_act. by rewrite replicate_add.
Qed.

(** X17: an advertisement that does not carry the service UUID changes
    nothing in the engine but its log: no device is recorded, no call
    changes, whatever the listeners and their options. Each listener writes
    at most the line that it ignores the device. *)
Theorem unadvertised_service_is_ignored (p : Peripheral) (s : Discovery.t) :
  UUID_SERVICE_CCRTBLE ∉ serviceUuids (advertisement p) ->
  exists n,
    (n <= length (discover_listeners s))%nat
    /\ handle (Discover p) s
       = act (replicate n (Debug "ignoring device with address %s")) s.
Proof.
  intros Hno. cbn [handle].
  destruct (foldl_only_logs (on_discover p) (fun _ _ => True)
              (Debug "ignoring device with address %s") 0)
    with (cs := discover_listeners s) (s := s) as (n & Hn & ->); [done| |done|].
  - intros c s0 _. unfold on_discover.
    destruct (calls s0 !! c) as [cl|]; [|exists 0%nat; split; [lia|by rewrite act_nil]].
    cbv zeta. destruct (optIgnoreUnknown cl && _); [exists 1%nat; split; [lia|done]|].
    rewrite bool_decide_eq_false_2 by exact Hno. cbn [negb].
    exists 0%nat. split; [lia|by rewrite act_nil].
  - exists n. split; [lia|done].
Qed.

Lemma unadvertised_service_is_ignored_witness :
  _devices
    (handle (Discover {| address := "00:1A:22:0E:54:19";
                         advertisement := {| localName := None; serviceUuids := [] |} |})
       (snd (discover None Scenario.fresh_engine)))
  = ∅.
Proof.
  destruct (unadvertised_service_is_ignored
              {| address := "00:1A:22:0E:54:19";
                 advertisement := {| localName := None; serviceUuids := [] |} |}
              (snd (discover None Scenario.fresh_engine)))
    as (n & _ & ->).
  - apply not_elem_of_nil.
  - reflexivity.
Defined.

Lemma find_address_None addrs a :
  EString a ∉ addrs -> find_address addrs a = None.
Proof.
  intros Hno. unfold find_address. induction addrs as [|e addrs IH]; [reflexivity|].
  cbn [List.find].
  destruct e as [x| | |k]; try (apply IH; intros H; apply Hno; by right).
  destruct (String.eqb_spec x a) as [->|Hne].
  - exfalso. apply Hno. left.
  - apply IH. intros H. apply Hno. by right.
Qed.

(** X18: when every registered ['discover'] listener belongs to a call with
    [ignoreUnknown] set whose allow-list does not hold the normalised
    address of the peripheral, the advertisement records no device and
    changes no call: each listener writes one line to the log. In
    particular a call with [ignoreUnknown] set and no allow-list records
    nothing. *)
Theorem unlisted_address_is_ignored (p : Peripheral) (s : Discovery.t) :
  (forall c, c ∈ discover_listeners s ->
     exists cl, calls s !! c = Some cl
                /\ optIgnoreUnknown cl = true
                /\ EString (Codec.normaliseAddress (address p))
                   ∉ array_at (heap s) (optAddresses cl)) ->
  handle (Discover p) s
  = act (replicate (length (discover_listeners s))
           (Debug "ignoring device with address %s")) s.
Proof.
  intros H. cbn [handle].
  destruct (foldl_only_logs (on_discover p)
              (fun c s0 => exists cl, calls s0 !! c = Some cl
                                      /\ optIgnoreUnknown cl = true
                                      /\ EString (Codec.normaliseAddress (address p))
                                         ∉ array_at (heap s0) (optAddresses cl))
              (Debug "ignoring device with address %s") 1)
    with (cs := discover_listeners s) (s := s) as (n & Hn & ->); [done| |exact H|].
  - intros c s0 (cl & Hc & Hi & Hno). unfold on_discover. rewrite Hc. cbv zeta.
    rewrite Hi, (find_address_None _ _ Hno). cbn.
    exists 1%nat. split; [lia|done].
  - replace n with (length (discover_listeners s)) by lia. reflexivity.
Qed.

Lemma unlisted_address_is_ignored_witness :
  _devices
    (handle (Discover Scenario.stranger)
       (snd (discover (Some Scenario.pair_listed) Scenario.pair_engine)))
  = ∅.
Proof.
  rewrite (unlisted_address_is_ignored Scenario.stranger
             (snd (discover (Some Scenario.pair_listed) Scenario.pair_engine))).
  - reflexivity.
  - intros c Hc. apply list_elem_of_singleton in Hc. subst c.
    eexists. split; [reflexivity|]. split; [reflexivity|].
    vm_compute. intros H.
    repeat (apply elem_of_cons in H as [H|H]; [discriminate|]).
    by apply elem_of_nil in H.
Defined.



(** What one listener does to the device map: nothing, or it records the
    device of the peripheral under its normalised address, which was not a
    key before. *)
Lemma on_discover_devices p s c :
  _devices (on_discover p s c) = _devices s
  \/ (UUID_SERVICE_CCRTBLE ∈ serviceUuids (advertisement p)
      /\ _devices s !! Codec.normaliseAddress (address p) = None
      /\ _devices (on_discover p s c)
         = <[Codec.normaliseAddress (address p) := new_CcrtbleDevice p]> (_devices s)).
Proof.
  unfold on_discover. destruct (calls s !! c) as [cl|]; [|by left].
  cbv zeta. destruct (optIgnoreUnknown cl && _); [by left|].
  destruct (bool_decide _) eqn:Hu; cbn [negb]; [|by left].
  apply bool_decide_eq_true_1 in Hu.
  destruct (get_device _ _) eqn:Hg; try (by left).
  apply get_device_Missing in Hg.
  right. split; [exact Hu|]. split; [exact Hg|].
  destruct (_ && _); [|reflexivity].
  match goal with
  | |- _devices (resolve_scan ?c0 ?s0) = _ =>
      rewrite (proj1 (resolve_scan_frame c0 s0))
  end.
  destruct (call_timer cl); reflexivity.
Qed.

Lemma foldl_startScan_devices l : forall s,
  _devices (foldl (fun s c => _startScan c s) s l) = _devices s.
Proof.
  induction l as [|c l IH]; intros s; simpl; [done|].
  rewrite IH. apply startScan_frame.
Qed.

Lemma discover_devices options s : _devices (snd (discover options s)) = _devices s.
Proof.
  unfold discover. cbv zeta.
  repeat case_match; cbn [snd]; try reflexivity.
  all: by rewrite (proj1 (ensurePowerOnState_frame _ _)).
Qed.

Lemma handle_devices_other e s :
  (forall p, e <> Discover p) -> _devices (handle e s) = _devices s.
Proof.
  intros He. destruct e as [state|p|c|c error|]; simpl.
  - destruct (String.eqb state "poweredOn"); [|done].
    by rewrite foldl_startScan_devices.
  - by destruct (He p).
  - destruct (timer_of c s) as [[]|]; try done.
    by rewrite (proj1 (resolve_scan_frame _ _)).
  - by destruct (phase_of c s) as [[]|].
  - apply (proj1 (handle_ScanStop s)).
Qed.

(** Every entry of the map is the device of a peripheral that advertised
    the service, under the normalised address of that peripheral. *)
Local Abbreviation recorded devices :=
  (forall k d, devices !! k = Some d ->
     exists p, d = new_CcrtbleDevice p
               /\ k = Codec.normaliseAddress (address p)
               /\ UUID_SERVICE_CCRTBLE ∈ serviceUuids (advertisement p)).

Lemma recorded_on_discover p l : forall s,
  recorded (_devices s) -> recorded (_devices (foldl (on_discover p) s l)).
Proof.
  induction l as [|c l IH]; intros s Hs; simpl; [exact Hs|].
  apply IH.
  destruct (on_discover_devices p s c) as [->|(Hu & Hnone & ->)]; [exact Hs|].
  intros k d Hk.
  destruct (decide (k = Codec.normaliseAddress (address p))) as [->|Hne].
  - rewrite lookup_insert_eq in Hk. injection Hk as <-. by exists p.
  - rewrite lookup_insert_ne in Hk by done. by apply Hs.
Qed.

Lemma recorded_run sts : forall s,
  recorded (_devices s) -> recorded (_devices (run sts s)).
Proof.
  unfold run. induction sts as [|st sts IH]; intros s Hs; simpl; [exact Hs|].
  apply IH. clear IH sts.
  destruct st as [options|e]; simpl.
  - by rewrite discover_devices.
  - assert (He : (exists p, e = Discover p) \/ (forall p, e <> Discover p)).
    { destruct e; try (right; discriminate). left. eauto. }
    destruct He as [[p ->]|He]; [|by rewrite handle_devices_other].
    by apply recorded_on_discover.
Qed.

(** X19: in every run of a new engine, a device in the map is stored under
    the normalised address of its peripheral, which is also its [address]
    property; its name is the local name its peripheral advertised, and
    its peripheral advertised the service UUID. *)
Theorem devices_are_recorded_under_their_address
    (state : string) (h : Value.heap) (sts : list step) (k : string) (d : Device) :
  _devices (run sts (Discovery.new state h)) !! k = Some d ->
  device_address d = k
  /\ k = Codec.normaliseAddress (address (device_peripheral d))
  /\ name d = localName (advertisement (device_peripheral d))
  /\ UUID_SERVICE_CCRTBLE ∈ serviceUuids (advertisement (device_peripheral d)).
Proof.
  intros Hk.
  destruct (recorded_run sts (Discovery.new state h)) with (k := k) (d := d)
    as (p & -> & -> & Hu); [|exact Hk|by repeat split].
  intros k0 d0 H0. cbn in H0. by rewrite lookup_empty in H0.
Qed.

Lemma devices_are_recorded_under_their_address_witness :
  exists d,
    _devices Scenario.after_full_scan !! "00:1a:22:0e:54:19"%string = Some d
    /\ device_address d = "00:1a:22:0e:54:19"%string.
Proof.
  exists (new_CcrtbleDevice Scenario.thermostat).
  assert (H : _devices Scenario.after_full_scan !! "00:1a:22:0e:54:19"%string
              = Some (new_CcrtbleDevice Scenario.thermostat)).
  { vm_compute. reflexivity. }
  split; [exact H|].
  exact (proj1 (devices_are_recorded_under_their_address "poweredOn" _ _ _ _ H)).
Defined.

Lemma normalise_entries_prefix (pre : list string) e rest :
  (forall x, e <> EString x) ->
  normalise_entries ((EString <$> pre) ++ e :: rest)
  = ((EString <$> (Codec.normaliseAddress <$> pre)) ++ e :: rest, false).
Proof.
  intros He. induction pre as [|x pre IH].
  - cbn. destruct e; try reflexivity. by destruct (He s).
  - rewrite !fmap_cons. cbn [app normalise_entries]. by rewrite IH.
Qed.

(** X20: when the [addresses] array holds an entry that is not a string,
    [discover] raises a [TypeError] at that entry: the entries before it
    are already normalised in the caller's array, the entry and those after
    it are as they were, no call is started, nothing is logged or asked of
    the adapter, and the device map is untouched. *)
Theorem entry_without_replace_stops_discover
    (s : Discovery.t) (o : Options) (a : nat) (pre : list string)
    (e : element) (rest : list element) :
  addresses o = VArray a ->
  heap s !! a = Some ((EString <$> pre) ++ e :: rest) ->
  (forall x, e <> EString x) ->
  isNaN (heap s) (getOpt (Some (duration o)) (VNumber (JS.of_int 10000))) = false ->
  isBoolean (getOpt (Some (ignoreUnknown o)) (VBool false)) = true ->
  exists message s',
    discover (Some o) s = (Throw (TypeError message), s')
    /\ heap s' !! a
       = Some ((EString <$> (Codec.normaliseAddress <$> pre)) ++ e :: rest)
    /\ (forall a', a' <> a -> heap s' !! a' = heap s !! a')
    /\ calls s' = calls s
    /\ trace s' = trace s
    /\ discover_listeners s' = discover_listeners s
    /\ _devices s' = _devices s.
Proof.
  intros Ha Hl He Hd Hi.
  unfold discover. cbn [fmap option_fmap option_map].
  rewrite Ha.
  change (getOpt (Some (VArray a)) VUndefined) with (VArray a).
  cbv beta iota zeta. rewrite Hd.
  destruct (getOpt (Some (ignoreUnknown o)) (VBool false)) as [| |ignore| | | |];
    try discriminate.
  unfold array_at. rewrite Hl.
  rewrite (normalise_entries_prefix pre e rest He).
  eexists _, _. split; [reflexivity|].
  unfold set_heap. cbn [heap calls trace discover_listeners _devices].
  split; [apply lookup_insert_eq|].
  split; [intros a1 Hne; by rewrite lookup_insert_ne|].
  repeat split.
Qed.

Lemma entry_without_replace_stops_discover_witness :
  exists message s',
    discover (Some Scenario.listed)
      (Discovery.new "poweredOn"
         {[ 0%nat := [EString "00-1A-22-0E-54-19"; ENull; EString "00-1A-22-0E-54-20"] ]})
    = (Throw (TypeError message), s')
    /\ heap s' !! 0%nat
       = Some [EString "00:1a:22:0e:54:19"; ENull; EString "00-1A-22-0E-54-20"]
    /\ calls s' = [].
Proof.
  destruct (entry_without_replace_stops_discover
              (Discovery.new "poweredOn"
                 {[ 0%nat := [EString "00-1A-22-0E-54-19"; ENull;
                              EString "00-1A-22-0E-54-20"] ]})
              Scenario.listed 0 ["00-1A-22-0E-54-19"%string] ENull
              [EString "00-1A-22-0E-54-20"])
    as (m & s' & H1 & H2 & _ & H3 & _); try reflexivity; try discriminate.
  exists m, s'. split; [exact H1|]. split; [exact H2|exact H3].
Defined.



(** *** What the steps of the engine do to one call *)

Lemma calls_update_call c c0 f s :
  calls (update_call c0 f s) !! c
  = if decide (c = c0) then f <$> calls s !! c else calls s !! c.
Proof.
  unfold update_call. cbn. destruct (decide (c = c0)) as [->|Hne].
  - by rewrite list_lookup_alter_eq.
  - by rewrite list_lookup_alter_ne.
Qed.

Lemma calls_resolve_scan c c0 s :
  calls (resolve_scan c0 s) !! c = calls s !! c
  \/ (c = c0 /\ phase_of c s = Some Scanning
      /\ calls (resolve_scan c0 s) !! c = with_phase Stopping <$> calls s !! c).
Proof.
  unfold resolve_scan. destruct (phase_of c0 s) as [[]|] eqn:E; try by left.
  unfold _stopScan. cbn [calls act]. rewrite calls_update_call.
  destruct (decide (c = c0)) as [->|]; [right|by left]. done.
Qed.

Lemma calls_startScan_other c c0 s :
  c <> c0 -> calls (_startScan c0 s) !! c = calls s !! c.
Proof.
  intros Hne. unfold _startScan. destruct (calls s !! c0) as [cl|]; [|done].
  cbv zeta.
  set (s1 := act _ (update_call c0 (with_phase Scanning) s)).
  assert (H1 : calls s1 !! c = calls s !! c).
  { subst s1. cbn [calls act]. rewrite calls_update_call. by rewrite decide_False. }
  assert (H2 : forall s2, calls s2 !! c = calls s !! c ->
                 calls (resolve_scan c0 s2) !! c = calls s !! c).
  { intros s2 Hs2. destruct (calls_resolve_scan c c0 s2) as [->|(-> & _)]; done. }
  assert (H3 : forall s2, calls s2 !! c = calls s !! c ->
                 calls (act [SetTimeout c0 (optDuration cl); OnDiscover c0; StartScanning c0]
                          (set_discover_listeners (discover_listeners s2 ++ [c0])
                             (update_call c0 (with_timer Armed) s2))) !! c
                 = calls s !! c).
  { intros s2 Hs2. cbn [calls act set_discover_listeners].
    rewrite calls_update_call. by rewrite decide_False. }
  destruct (0 <? length _)%nat; cbn [andb].
  - destruct (_checkDiscovered _ _); [by apply H2|by apply H3].
  - by apply H3.
Qed.

Lemma startScan_heap c s :
  heap (_startScan c s) = heap s.
Proof. apply startScan_frame. Qed.

(** A listener leaves every other call alone, and its own call too unless
    the allow-list of that call is not empty; then the phase stays, or goes
    from scanning to stopping. *)
Lemma calls_on_discover p s c0 c :
  calls (on_discover p s c0) !! c = calls s !! c
  \/ (c = c0
      /\ exists cl cl',
           calls s !! c = Some cl
           /\ array_at (heap s) (optAddresses cl) <> []
           /\ calls (on_discover p s c0) !! c = Some cl'
           /\ (call_phase cl' = call_phase cl
               \/ (call_phase cl = Scanning /\ call_phase cl' = Stopping))).
Proof.
  unfold on_discover. destruct (calls s !! c0) as [cl|] eqn:Hc0; [|by left].
  cbv zeta. destruct (optIgnoreUnknown cl && _); [by left|].
  destruct (negb _); [by left|].
  destruct (get_device _ _); try by left.
  set (addrs := array_at (heap s) (optAddresses cl)).
  destruct (0 <? length addrs)%nat eqn:Hlen; cbn [andb]; [|by left].
  destruct (_checkDiscovered _ addrs); [|by left].
  destruct (decide (c = c0)) as [->|Hne].
  - right. split; [done|].
    assert (Hne : addrs <> []) by (by destruct addrs).
    set (s1 := act _ (set_devices _ s)).
    set (s2 := match call_timer cl with
               | Armed => update_call c0 (with_timer Cleared) (act _ s1)
               | _ => act _ s1
               end).
    assert (H2 : exists cl2, calls s2 !! c0 = Some cl2 /\ call_phase cl2 = call_phase cl).
    { subst s2. destruct (call_timer cl).
      all: try (exists cl; split; [exact Hc0|reflexivity]).
      exists (with_timer Cleared cl). split; [|reflexivity].
      rewrite calls_update_call, decide_True by done.
      subst s1. cbn [calls act set_devices]. by rewrite Hc0. }
    destruct H2 as (cl2 & Hcl2 & Hph2).
    destruct (calls_resolve_scan c0 c0 (act [ClearTimeout c0] s2))
      as [H|(_ & Hsc & H)].
    + exists cl, cl2. split; [done|]. split; [done|].
      split; [by rewrite H|]. by left.
    + exists cl, (with_phase Stopping cl2). split; [done|]. split; [done|].
      split.
      * rewrite H. cbn [calls act]. by rewrite Hcl2.
      * right. split; [|reflexivity].
        unfold phase_of in Hsc. cbn [calls act] in Hsc. rewrite Hcl2 in Hsc.
        cbn in Hsc. congruence.
  - left.
    set (s1 := act _ (set_devices _ s)).
    set (s2 := match call_timer cl with
               | Armed => update_call c0 (with_timer Cleared) (act _ s1)
               | _ => act _ s1
               end).
    assert (H2 : calls s2 !! c = calls s !! c).
    { subst s2. destruct (call_timer cl); try reflexivity.
      rewrite calls_update_call. by rewrite decide_False. }
    destruct (calls_resolve_scan c c0 (act [ClearTimeout c0] s2)) as [->|(-> & _)];
      [exact H2|done].
Qed.

Lemma on_discover_heap p s c : heap (on_discover p s c) = heap s.
Proof.
  unfold on_discover. destruct (calls s !! c) as [cl|]; [|done].
  cbv zeta. destruct (optIgnoreUnknown cl && _); [done|].
  destruct (negb _); [done|]. destruct (get_device _ _); try done.
  destruct (_ && _); [|done].
  match goal with
  | |- heap (resolve_scan ?c0 ?s0) = _ =>
      rewrite (proj1 (proj2 (resolve_scan_frame c0 s0)))
  end.
  by destruct (call_timer cl).
Qed.

(** A call without an allow-list is not touched by any advertisement. *)
Lemma discover_event_plain_call p c cl : forall s,
  calls s !! c = Some cl ->
  array_at (heap s) (optAddresses cl) = [] ->
  calls (handle (Discover p) s) !! c = Some cl
  /\ heap (handle (Discover p) s) = heap s.
Proof.
  intros s. cbn [handle]. generalize (discover_listeners s) as l. intros l.
  revert s. induction l as [|c0 l IH]; intros s Hc Ha; simpl; [done|].
  assert (H1 : calls (on_discover p s c0) !! c = Some cl).
  { destruct (calls_on_discover p s c0 c) as [->|(_ & cl1 & cl2 & H1 & H2 & _)];
      [done|]. congruence. }
  destruct (IH (on_discover p s c0) H1) as [IH1 IH2].
  - by rewrite on_discover_heap.
  - split; [exact IH1|]. by rewrite IH2, on_discover_heap.
Qed.

Lemma phase_of_Some c s ph :
  phase_of c s = Some ph -> exists cl, calls s !! c = Some cl /\ call_phase cl = ph.
Proof.
  unfold phase_of. destruct (calls s !! c) as [cl|]; [|discriminate].
  intros [= <-]. eauto.
Qed.

(** When the scan has stopped, a call that was waiting for it has the
    values of the device map as its result. *)
Lemma ScanStop_resolves c s :
  phase_of c s = Some Stopping ->
  phase_of c (handle ScanStop s) = Some (Resolved (Object_values (_devices s))).
Proof.
  intros Hph. cbn [handle]. set (s0 := act _ s).
  assert (Hin : c ∈ stopping s0).
  { unfold stopping. apply list_elem_of_In, filter_In. split.
    - apply in_seq. apply phase_of_Some in Hph as (cl & Hcl & _).
      apply lookup_lt_Some in Hcl. cbn. lia.
    - change (phase_of c s0) with (phase_of c s). by rewrite Hph. }
  assert (H : forall l s1,
             _devices s1 = _devices s ->
             is_Some (calls s1 !! c) ->
             c ∈ l \/ phase_of c s1 = Some (Resolved (Object_values (_devices s))) ->
             phase_of c
               (foldl (fun s c => update_call c
                                    (with_phase (Resolved (Object_values (_devices s)))) s)
                  s1 l)
             = Some (Resolved (Object_values (_devices s)))).
  { induction l as [|c0 l IH]; intros s1 Hd Hs Hor; simpl.
    - destruct Hor as [Hor|Hor]; [by apply elem_of_nil in Hor|done].
    - apply IH; [done| |].
      + rewrite calls_update_call. destruct (decide _); [|done].
        destruct Hs as [x ->]. by eexists.
      + destruct (decide (c = c0)) as [->|Hne].
        * right. unfold phase_of. rewrite calls_update_call, decide_True by done.
          destruct Hs as [x ->]. cbn. by rewrite Hd.
        * destruct Hor as [Hor|Hor].
          -- left. apply elem_of_cons in Hor as [?|?]; [done|done].
          -- right. unfold phase_of in *. rewrite calls_update_call.
             by rewrite decide_False. }
  apply H; [done| |by left].
  apply phase_of_Some in Hph as (cl & Hcl & _). by exists cl.
Qed.

Ltac engine :=
  cbv beta iota zeta delta
    [_ensurePowerOnState _startScan resolve_scan _stopScan update_call act
     set_calls set_heap set_discover_listeners set_devices
     phase_of timer_of with_phase with_timer
     _devices heap calls discover_listeners noble_state trace
     optAddresses optDuration optIgnoreUnknown call_phase call_timer
     fst snd String.eqb Ascii.eqb Bool.eqb andb
     fmap option_fmap option_map].

(** X21: [discover()] without options on a powered-on adapter sets the
    timer to 10 000 ms, registers its listener and starts scanning. No
    advertisement ends it early: it is scanning with its timer armed after
    any number of them. When the timer fires it asks the adapter to stop,
    and when the adapter has stopped it resolves with the values of the
    device map as it then is. *)
Theorem plain_scan_runs_full_duration (s : Discovery.t) (ps : list Peripheral) :
  noble_state s = "poweredOn"%string ->
  let c := length (calls s) in
  let s1 := snd (discover None s) in
  let s2 := foldl (fun s p => handle (Discover p) s) s1 ps in
  let s3 := handle (DurationElapsed c) s2 in
  let s4 := handle ScanStop s3 in
  fst (discover None s) = Promise c
  /\ trace s1
     = trace s
       ++ [Debug "starting discovery with %sms duration";
           SetTimeout c (VNumber (JS.of_int 10000)); OnDiscover c; StartScanning c]
  /\ phase_of c s2 = Some Scanning /\ timer_of c s2 = Some Armed
  /\ phase_of c s3 = Some Stopping /\ timer_of c s3 = Some Fired
  /\ _devices s3 = _devices s2
  /\ phase_of c s4 = Some (Resolved (Object_values (_devices s2))).
Proof.
  intros Hst c s1 s2 s3 s4.
  set (r := fresh (dom (heap s))).
  set (cl := {| optAddresses := r; optDuration := VNumber (JS.of_int 10000);
                optIgnoreUnknown := false; call_phase := Scanning;
                call_timer := Armed |}).
  assert (E1 : discover None s
               = (Promise c,
                  {| _devices := _devices s;
                     heap := <[r := []]> (<[r := []]> (heap s));
                     calls := calls s ++ [cl];
                     discover_listeners := discover_listeners s ++ [c];
                     noble_state := "poweredOn";
                     trace := trace s
                              ++ [Debug "starting discovery with %sms duration";
                                  SetTimeout c (VNumber (JS.of_int 10000));
                                  OnDiscover c; StartScanning c] |})).
  { subst c cl r. destruct s as [devs h cs ls st tr]. cbn in Hst. subst st.
    unfold discover. cbn [fmap option_fmap option_map getOpt heap].
    cbv beta iota zeta. cbn [isNaN JS.of_int].
    unfold array_at at 1. rewrite lookup_insert_eq. cbn [normalise_entries].
    engine. rewrite lookup_new. engine.
    unfold array_at. rewrite lookup_insert_eq. cbn [length Nat.ltb Nat.leb].
    engine. rewrite !alter_new. engine.
    rewrite <- !app_assoc. reflexivity. }
  split; [by rewrite E1|].
  assert (Es1 : s1 = snd (discover None s)) by reflexivity.
  rewrite E1 in Es1. cbn [snd] in Es1.
  split; [by rewrite Es1|].
  assert (H2 : calls s2 !! c = Some cl /\ heap s2 !! r = Some []).
  { subst s2. clear s3 s4.
    assert (H1 : calls s1 !! c = Some cl /\ heap s1 !! r = Some []).
    { rewrite Es1. cbn [calls heap]. split; [apply lookup_new|apply lookup_insert_eq]. }
    clear Es1. revert H1. generalize s1. clear s1.
    induction ps as [|p ps IH]; intros s1 [Hc Hh]; cbn [foldl]; [done|].
    apply IH.
    destruct (discover_event_plain_call p c cl s1 Hc) as [H1 H2].
    - unfold array_at. cbn [optAddresses cl]. by rewrite Hh.
    - split; [exact H1|]. by rewrite H2. }
  destruct H2 as [Hc2 Hh2].
  assert (Hph2 : phase_of c s2 = Some Scanning) by (unfold phase_of; by rewrite Hc2).
  assert (Htm2 : timer_of c s2 = Some Armed) by (unfold timer_of; by rewrite Hc2).
  split; [exact Hph2|]. split; [exact Htm2|].
  assert (E3 : s3 = act [StopScanning c]
                      (update_call c (with_phase Stopping)
                         (act [Debug "duration reached, stopping discovery"]
                            (update_call c (with_timer Fired) s2)))).
  { subst s3. cbn [handle]. rewrite Htm2. unfold resolve_scan.
    unfold phase_of at 1. cbn [calls act]. rewrite calls_update_call, decide_True by done.
    rewrite Hc2. reflexivity. }
  assert (Hc3 : calls s3 !! c = Some (with_phase Stopping (with_timer Fired cl))).
  { rewrite E3. cbn [calls act]. rewrite calls_update_call, decide_True by done.
    cbn [calls act]. rewrite calls_update_call, decide_True by done.
    by rewrite Hc2. }
  assert (Hph3 : phase_of c s3 = Some Stopping) by (unfold phase_of; by rewrite Hc3).
  split; [exact Hph3|]. split; [unfold timer_of; by rewrite Hc3|].
  assert (Hd3 : _devices s3 = _devices s2) by (by rewrite E3).
  split; [exact Hd3|].
  subst s4. rewrite (ScanStop_resolves c s3 Hph3). by rewrite Hd3.
Qed.

Lemma plain_scan_runs_full_duration_witness :
  phase_of 0
    (run [CallDiscover None;
          Event (Discover Scenario.thermostat);
          Event (DurationElapsed 0);
          Event ScanStop] Scenario.fresh_engine)
  = Some (Resolved
            (Object_values
               (_devices
                  (run [CallDiscover None; Event (Discover Scenario.thermostat)]
                     Scenario.fresh_engine)))).
Proof.
  exact (proj2 (proj2 (proj2 (proj2 (proj2 (proj2 (proj2
    (plain_scan_runs_full_duration Scenario.fresh_engine [Scenario.thermostat]
       eq_refl)))))))).
Defined.



(** *** Calls that have ended *)

Lemma phase_startScan_other c c0 s :
  c <> c0 -> phase_of c (_startScan c0 s) = phase_of c s.
Proof. intros H. unfold phase_of. by rewrite calls_startScan_other. Qed.

Lemma phase_foldl_startScan_other c l : forall s,
  c ∉ l -> phase_of c (foldl (fun s c => _startScan c s) s l) = phase_of c s.
Proof.
  induction l as [|c0 l IH]; intros s Hc; simpl; [done|].
  rewrite IH by (intros H; apply Hc; by right).
  apply phase_startScan_other. intros ->. apply Hc. left.
Qed.

Lemma phase_foldl_update_other c (g : Discovery.t -> Call -> Call) l : forall s,
  c ∉ l -> phase_of c (foldl (fun s c => update_call c (g s) s) s l) = phase_of c s.
Proof.
  induction l as [|c0 l IH]; intros s Hc; simpl; [done|].
  rewrite IH by (intros H; apply Hc; by right).
  unfold phase_of. rewrite calls_update_call, decide_False; [done|].
  intros ->. apply Hc. left.
Qed.

Lemma elem_of_awaiting_power c s :
  c ∈ awaiting_power s -> phase_of c s = Some AwaitingPowerOn.
Proof.
  unfold awaiting_power. intros H. apply list_elem_of_In, filter_In in H as [_ H].
  by destruct (phase_of c s) as [[]|].
Qed.

Lemma elem_of_stopping c s :
  c ∈ stopping s -> phase_of c s = Some Stopping.
Proof.
  unfold stopping. intros H. apply list_elem_of_In, filter_In in H as [_ H].
  by destruct (phase_of c s) as [[]|].
Qed.

(** A call that has ended: it has resolved, or it has failed. *)
Local Abbreviation ended ph :=
  ((exists ds, ph = Resolved ds) \/ (exists error, ph = Failed error)).

Lemma ended_on_discover p c ph l : forall s,
  phase_of c s = Some ph -> ended ph ->
  phase_of c (foldl (on_discover p) s l) = Some ph.
Proof.
  induction l as [|c0 l IH]; intros s Hph He; simpl; [done|].
  apply IH; [|done].
  unfold phase_of in *.
  destruct (calls_on_discover p s c0 c)
    as [->|(_ & cl & cl' & Hcl & _ & -> & Hor)]; [done|].
  rewrite Hcl in Hph. cbn in *. injection Hph as <-.
  destruct Hor as [->|[Hsc _]]; [done|].
  rewrite Hsc in He. destruct He as [[? ?]|[? ?]]; discriminate.
Qed.

Lemma ended_handle e c ph s :
  phase_of c s = Some ph -> ended ph -> phase_of c (handle e s) = Some ph.
Proof.
  intros Hph He.
  assert (Hnot : forall ph', phase_of c s = Some ph' -> ph' = ph) by congruence.
  destruct e as [state|p|c0|c0 error|]; cbn [handle].
  - destruct (String.eqb state "poweredOn"); [|done].
    rewrite phase_foldl_startScan_other; [done|].
    intros Hin. apply elem_of_awaiting_power in Hin.
    change (phase_of c s = Some AwaitingPowerOn) in Hin.
    rewrite Hin in Hph. injection Hph as <-.
    destruct He as [[? ?]|[? ?]]; discriminate.
  - by apply ended_on_discover.
  - destruct (timer_of c0 s) as [[]|]; try done.
    set (s1 := act _ (update_call c0 (with_timer Fired) s)).
    assert (H1 : phase_of c s1 = Some ph).
    { subst s1. unfold phase_of in *. cbn [calls act]. rewrite calls_update_call.
      destruct (decide _); [|done]. by destruct (calls s !! c). }
    unfold phase_of in *.
    destruct (calls_resolve_scan c c0 s1) as [->|(_ & Hsc & _)]; [done|].
    unfold phase_of in Hsc. rewrite H1 in Hsc. injection Hsc as ->.
    destruct He as [[? ?]|[? ?]]; discriminate.
  - destruct (phase_of c0 s) as [[]|] eqn:E; try done.
    unfold phase_of in *. rewrite calls_update_call.
    destruct (decide (c = c0)) as [->|]; [|done].
    rewrite E in Hph. injection Hph as <-.
    destruct He as [[? ?]|[? ?]]; discriminate.
  - rewrite phase_foldl_update_other
      with (g := fun s => with_phase (Resolved (Object_values (_devices s)))); [done|].
    intros Hin. apply elem_of_stopping in Hin.
    change (phase_of c s = Some Stopping) in Hin.
    rewrite Hin in Hph. injection Hph as <-.
    destruct He as [[? ?]|[? ?]]; discriminate.
Qed.

Lemma phase_ensurePowerOnState_other c c0 s :
  c <> c0 -> phase_of c (_ensurePowerOnState c0 s) = phase_of c s.
Proof.
  intros H. unfold _ensurePowerOnState. destruct (String.eqb _ _); [|done].
  by apply phase_startScan_other.
Qed.

Lemma phase_discover_old options c s :
  (c < length (calls s))%nat ->
  phase_of c (snd (discover options s)) = phase_of c s.
Proof.
  intros Hlt. unfold discover. cbv zeta.
  repeat case_match; cbn [snd]; try reflexivity.
  all: rewrite phase_ensurePowerOnState_other by (cbn [calls set_heap]; lia).
  all: unfold phase_of; cbn [calls set_calls set_heap]; by rewrite lookup_app_l.
Qed.

(** X22: a call of [discover] that has resolved or failed keeps its result:
    no later call and no later event changes it, although the listener of
    the call stays registered and the device map keeps growing. *)
Theorem ended_calls_keep_their_result
    (s : Discovery.t) (sts : list step) (c : nat) (ph : phase) :
  phase_of c s = Some ph ->
  (exists ds, ph = Resolved ds) \/ (exists error, ph = Failed error) ->
  phase_of c (run sts s) = Some ph.
Proof.
  unfold run. revert s. induction sts as [|st sts IH]; intros s Hph He; simpl; [done|].
  apply IH; [|done].
  destruct st as [options|e]; simpl.
  - rewrite phase_discover_old; [done|].
    apply phase_of_Some in Hph as (cl & Hcl & _). by apply lookup_lt_Some in Hcl.
  - by apply ended_handle.
Qed.

Lemma ended_calls_keep_their_result_witness :
  phase_of 0
    (run [CallDiscover (Some Scenario.listed); Event (Discover Scenario.thermostat);
          Event ScanStop]
       Scenario.after_empty_scan)
  = Some (Resolved []).
Proof.
  apply (ended_calls_keep_their_result Scenario.after_empty_scan).
  - vm_compute. reflexivity.
  - left. by exists [].
Defined.



(** *** Waiting for the adapter *)

Local Abbreviation started ph := (ph = Some Scanning \/ ph = Some Stopping).

Lemma startScan_self c cl s :
  calls s !! c = Some cl -> started (phase_of c (_startScan c s)).
Proof.
  intros Hc. unfold _startScan. rewrite Hc. cbv zeta.
  set (s1 := act _ (update_call c (with_phase Scanning) s)).
  assert (H1 : forall l s2, calls s2 = calls s1 ->
                 phase_of c (act l s2) = Some Scanning).
  { intros l s2 Hs2. unfold phase_of. cbn [calls act]. rewrite Hs2. subst s1.
    cbn [calls act]. rewrite calls_update_call, decide_True by done.
    by rewrite Hc. }
  assert (H2 : forall l s2, calls s2 = calls s1 ->
                 started (phase_of c (resolve_scan c (act l s2)))).
  { intros l s2 Hs2. unfold resolve_scan. rewrite (H1 l s2 Hs2).
    right. unfold _stopScan, phase_of. cbn [calls act].
    rewrite calls_update_call, decide_True by done. cbn [calls act].
    specialize (H1 l s2 Hs2). unfold phase_of in H1. cbn [calls act] in H1.
    destruct (calls s2 !! c); [reflexivity|discriminate]. }
  assert (H3 : forall s2, calls s2 = calls s1 ->
                 phase_of c
                   (act [SetTimeout c (optDuration cl); OnDiscover c; StartScanning c]
                      (set_discover_listeners (discover_listeners s2 ++ [c])
                         (update_call c (with_timer Armed) s2)))
                 = Some Scanning).
  { intros s2 Hs2. unfold phase_of. cbn [calls act set_discover_listeners].
    rewrite calls_update_call, decide_True by done.
    specialize (H1 [] s2 Hs2). unfold phase_of in H1. cbn [calls act] in H1.
    destruct (calls s2 !! c); [|discriminate]. exact H1. }
  destruct (0 <? length _)%nat; cbn [andb].
  - destruct (_checkDiscovered _ _).
    + apply (H2 [Debug "(discovery will be stopped when %o %s found)"] s1 eq_refl).
    + left. by apply H3.
  - left. rewrite <- (act_nil s1) at 1 2. by apply H3.
Qed.

Lemma foldl_startScan_started c l : forall s,
  is_Some (calls s !! c) ->
  c ∈ l \/ started (phase_of c s) ->
  started (phase_of c (foldl (fun s c => _startScan c s) s l)).
Proof.
  induction l as [|c0 l IH]; intros s Hs Hor; simpl.
  - destruct Hor as [Hor|Hor]; [by apply elem_of_nil in Hor|done].
  - destruct (decide (c = c0)) as [<-|Hne].
    + destruct Hs as [cl Hcl].
      pose proof (startScan_self c cl s Hcl) as H1.
      apply IH; [|by right].
      destruct H1 as [H1|H1]; apply phase_of_Some in H1 as (x & -> & _); by eexists.
    + apply IH.
      * by rewrite calls_startScan_other.
      * destruct Hor as [Hor|Hor].
        -- left. apply elem_of_cons in Hor as [?|?]; done.
        -- right. by rewrite phase_startScan_other.
Qed.

(** X23: a call of [discover] that passes validation while the adapter is
    not powered on asks nothing of the adapter but to be told of state
    changes: no listener for advertisements is registered, no timer is set.
    It keeps waiting through every state change to another state than
    "poweredOn", and at the change to "poweredOn" it starts scanning (or,
    with an allow-list already satisfied, goes straight to stopping). *)
Theorem discover_waits_for_power_on
    (s : Discovery.t) (options : option Options) (c : nat) (s1 : Discovery.t) :
  noble_state s <> "poweredOn"%string ->
  discover options s = (Promise c, s1) ->
  c = length (calls s)
  /\ phase_of c s1 = Some AwaitingPowerOn
  /\ trace s1 = trace s ++ [Debug "waiting for adapter state change"; OnStateChange c]
  /\ discover_listeners s1 = discover_listeners s
  /\ (forall state,
        state <> "poweredOn"%string ->
        phase_of c (handle (StateChange state) s1) = Some AwaitingPowerOn
        /\ trace (handle (StateChange state) s1)
           = trace s1 ++ [Debug "adapter changed to to '%s'"])
  /\ (phase_of c (handle (StateChange "poweredOn") s1) = Some Scanning
      \/ phase_of c (handle (StateChange "poweredOn") s1) = Some Stopping).
Proof.
  intros Hst H. apply String.eqb_neq in Hst.
  assert (Hs1 : exists h cl,
            c = length (calls s) /\ call_phase cl = AwaitingPowerOn
            /\ s1 = act [Debug "waiting for adapter state change"; OnStateChange c]
                      (set_calls (calls s ++ [cl]) (set_heap h s))).
  { revert H. unfold discover. cbv zeta.
    repeat case_match; try discriminate.
    all: intros [= <- <-]; eexists _, _; split; [reflexivity|].
    all: (split; [|unfold _ensurePowerOnState; cbn [noble_state set_calls set_heap];
                   rewrite Hst; reflexivity]); reflexivity. }
  destruct Hs1 as (h & cl & -> & Hcl & ->). clear H.
  assert (Hc : forall l st, calls (act l (set_noble_state st
                 (act [Debug "waiting for adapter state change";
                       OnStateChange (length (calls s))]
                    (set_calls (calls s ++ [cl]) (set_heap h s)))))
                 !! length (calls s) = Some cl).
  { intros. cbn [calls act set_noble_state set_calls]. apply lookup_new. }
  split; [reflexivity|].
  split; [unfold phase_of; cbn [calls act set_calls]; rewrite lookup_new; cbn; by rewrite Hcl|].
  split; [reflexivity|]. split; [reflexivity|]. split.
  - intros state Hne. apply String.eqb_neq in Hne. cbn [handle]. rewrite Hne.
    split; [|reflexivity].
    unfold phase_of. rewrite Hc. cbn. by rewrite Hcl.
  - cbn [handle]. cbn [String.eqb Ascii.eqb Bool.eqb].
    apply foldl_startScan_started.
    + rewrite Hc. by eexists.
    + left. unfold awaiting_power. apply list_elem_of_In, filter_In. split.
      * apply in_seq. cbn [calls act set_noble_state set_calls].
        rewrite length_app. cbn. lia.
      * unfold phase_of. rewrite Hc. cbn. by rewrite Hcl.
Qed.

Lemma discover_waits_for_power_on_witness :
  phase_of 0
    (snd (discover None (Discovery.new "poweredOff" ∅)))
  = Some AwaitingPowerOn.
Proof.
  exact (proj1 (proj2 (discover_waits_for_power_on
                         (Discovery.new "poweredOff" ∅) None 0 _
                         ltac:(discriminate) eq_refl))).
Defined.



(** *** The options of a call *)

(** [s'] has the heap of [s], and every call of [s'] is a call of [s] with
    the same allow-list and the same [ignoreUnknown]. *)
Local Abbreviation same_options s s' :=
  (heap s' = heap s
   /\ forall c cl', calls s' !! c = Some cl' ->
        exists cl, calls s !! c = Some cl
                   /\ optAddresses cl' = optAddresses cl
                   /\ optIgnoreUnknown cl' = optIgnoreUnknown cl).

Lemma same_options_refl s : same_options s s.
Proof. split; [done|]. eauto. Qed.

Lemma same_options_trans s1 s2 s3 :
  same_options s1 s2 -> same_options s2 s3 -> same_options s1 s3.
Proof.
  intros [H1 H2] [H3 H4]. split; [congruence|].
  intros c cl3 Hc3. destruct (H4 c cl3 Hc3) as (cl2 & Hc2 & Ha & Hi).
  destruct (H2 c cl2 Hc2) as (cl1 & Hc1 & Ha' & Hi').
  exists cl1. split; [done|]. split; congruence.
Qed.

Lemma same_options_update c0 f s :
  (forall cl, optAddresses (f cl) = optAddresses cl
              /\ optIgnoreUnknown (f cl) = optIgnoreUnknown cl) ->
  same_options s (update_call c0 f s).
Proof.
  intros Hf. split; [done|]. intros c cl'. rewrite calls_update_call.
  destruct (decide (c = c0)) as [->|]; [|eauto].
  destruct (calls s !! c0) as [cl|]; [|discriminate].
  cbn. intros [= <-]. exists cl. split; [done|]. apply Hf.
Qed.

Lemma same_options_calls s s' :
  heap s' = heap s -> calls s' = calls s -> same_options s s'.
Proof. intros Hh Hc. rewrite Hc. split; [done|]. eauto. Qed.

Lemma same_options_stopScan c s : same_options s (_stopScan c s).
Proof.
  unfold _stopScan.
  eapply same_options_trans; [apply (same_options_update c (with_phase Stopping))|].
  - done.
  - by apply same_options_calls.
Qed.

Lemma same_options_resolve_scan c s : same_options s (resolve_scan c s).
Proof.
  unfold resolve_scan. destruct (phase_of c s) as [[]|];
    first [apply same_options_stopScan | apply same_options_refl].
Qed.

Lemma same_options_startScan c s : same_options s (_startScan c s).
Proof.
  unfold _startScan. destruct (calls s !! c) as [cl|]; [|apply same_options_refl].
  cbv zeta.
  set (s1 := act _ (update_call c (with_phase Scanning) s)).
  assert (H1 : same_options s s1).
  { eapply same_options_trans; [apply (same_options_update c (with_phase Scanning))|].
    - done.
    - by apply same_options_calls. }
  assert (H3 : forall s2, same_options s s2 ->
                 same_options s
                   (act [SetTimeout c (optDuration cl); OnDiscover c; StartScanning c]
                      (set_discover_listeners (discover_listeners s2 ++ [c])
                         (update_call c (with_timer Armed) s2)))).
  { intros s2 Hs2. eapply same_options_trans; [exact Hs2|].
    eapply same_options_trans; [apply (same_options_update c (with_timer Armed))|].
    - done.
    - by apply same_options_calls. }
  destruct (0 <? length _)%nat; cbn [andb].
  - destruct (_checkDiscovered _ _).
    + eapply same_options_trans; [|apply same_options_resolve_scan].
      eapply same_options_trans; [exact H1|]. by apply same_options_calls.
    + apply H3. eapply same_options_trans; [exact H1|]. by apply same_options_calls.
  - by apply H3.
Qed.

Lemma same_options_on_discover p s c : same_options s (on_discover p s c).
Proof.
  unfold on_discover. destruct (calls s !! c) as [cl|]; [|apply same_options_refl].
  cbv zeta. destruct (optIgnoreUnknown cl && _); [by apply same_options_calls|].
  destruct (negb _); [apply same_options_refl|].
  destruct (get_device _ _); try apply same_options_refl.
  destruct (_ && _); [|by apply same_options_calls].
  eapply same_options_trans; [|apply same_options_resolve_scan].
  destruct (call_timer cl); try (by apply same_options_calls).
  eapply same_options_trans;
    [|eapply same_options_trans;
        [apply (same_options_update c (with_timer Cleared)); done
        |by apply same_options_calls]].
  by apply same_options_calls.
Qed.

Lemma same_options_foldl {A} (f : Discovery.t -> A -> Discovery.t) l :
  (forall s x, same_options s (f s x)) -> forall s, same_options s (foldl f s l).
Proof.
  intros Hf. induction l as [|x l IH]; intros s; simpl; [apply same_options_refl|].
  eapply same_options_trans; [apply Hf|apply IH].
Qed.

Lemma same_options_handle e s : same_options s (handle e s).
Proof.
  destruct e as [state|p|c|c error|]; cbn [handle].
  - destruct (String.eqb state "poweredOn").
    + eapply same_options_trans;
        [|apply same_options_foldl; intros; apply same_options_startScan].
      by apply same_options_calls.
    + by apply same_options_calls.
  - apply same_options_foldl. intros. apply same_options_on_discover.
  - destruct (timer_of c s) as [[]|]; try apply same_options_refl.
    eapply same_options_trans; [|apply same_options_resolve_scan].
    eapply same_options_trans;
      [apply (same_options_update c (with_timer Fired)); done
      |by apply same_options_calls].
  - destruct (phase_of c s) as [[]|]; try apply same_options_refl.
    by apply same_options_update.
  - eapply same_options_trans; [by apply (same_options_calls s (act [Debug "discovery finished"] s))|].
    apply (same_options_foldl
             (fun s c => update_call c
                           (with_phase (Resolved (Object_values (_devices s)))) s)).
    intros. by apply same_options_update.
Qed.

(** *** The sample script *)

(** Every call ignores addresses that are not listed, and lists the wanted
    address only; every key of the device map is that address; every call
    that has resolved did so with no device or with the wanted one. *)
Local Abbreviation sample_state s :=
  ((forall c cl, calls s !! c = Some cl ->
      optIgnoreUnknown cl = true
      /\ array_at (heap s) (optAddresses cl) = [EString Sample.wanted])
   /\ (forall k d, _devices s !! k = Some d ->
         k = Sample.wanted /\ device_address d = Sample.wanted)
   /\ (forall c ds, phase_of c s = Some (Resolved ds) ->
         ds = [] \/ exists d, ds = [d] /\ device_address d = Sample.wanted)).

Lemma find_address_other (a : string) :
  a <> Sample.wanted -> find_address [EString Sample.wanted] a = None.
Proof.
  intros Hne. apply find_address_None. intros H.
  apply list_elem_of_singleton in H. congruence.
Qed.

Lemma sample_on_discover p l : forall s,
  (forall c cl, calls s !! c = Some cl ->
      optIgnoreUnknown cl = true
      /\ array_at (heap s) (optAddresses cl) = [EString Sample.wanted]) ->
  (forall k d, _devices s !! k = Some d ->
      k = Sample.wanted /\ device_address d = Sample.wanted) ->
  forall k d, _devices (foldl (on_discover p) s l) !! k = Some d ->
      k = Sample.wanted /\ device_address d = Sample.wanted.
Proof.
  induction l as [|c l IH]; intros s Hcalls Hdev; simpl; [exact Hdev|].
  apply IH.
  - destruct (same_options_on_discover p s c) as [Hh Hc].
    intros c1 cl1 H1. destruct (Hc c1 cl1 H1) as (cl & Hcl & Ha & Hi).
    destruct (Hcalls c1 cl Hcl) as [H2 H3]. rewrite Hh, Ha, Hi. done.
  - destruct (on_discover_devices p s c) as [->|(_ & _ & Heq)]; [exact Hdev|].
    destruct (decide (Codec.normaliseAddress (address p) = Sample.wanted)) as [E|Hne].
    + rewrite Heq. intros k d Hk. rewrite E in Hk.
      destruct (decide (k = Sample.wanted)) as [->|Hk'].
      * rewrite lookup_insert_eq in Hk. injection Hk as <-.
        split; [done|exact E].
      * rewrite lookup_insert_ne in Hk by done. by apply Hdev.
    + (* the listener ignores the peripheral *)
      assert (Hsame : on_discover p s c = s \/ _devices (on_discover p s c) = _devices s).
      { unfold on_discover. destruct (calls s !! c) as [cl|] eqn:Hc; [|by left].
        destruct (Hcalls c cl Hc) as [Hi Ha]. cbv zeta.
        rewrite Hi, Ha, (find_address_other _ Hne). cbn. by right. }
      destruct Hsame as [->| ->]; exact Hdev.
Qed.

Lemma Object_values_sample (devices : gmap string Device) :
  (forall k d, devices !! k = Some d ->
     k = Sample.wanted /\ device_address d = Sample.wanted) ->
  Object_values devices = []
  \/ exists d, Object_values devices = [d] /\ device_address d = Sample.wanted.
Proof.
  intros H. destruct (devices !! Sample.wanted) as [d|] eqn:E.
  - right. exists d. split; [|by apply (H _ _ E)].
    assert (Hm : devices = {[ Sample.wanted := d ]}).
    { apply map_eq. intros k. destruct (decide (k = Sample.wanted)) as [->|Hne].
      - by rewrite lookup_singleton_eq.
      - rewrite lookup_singleton_ne by done.
        destruct (devices !! k) as [d'|] eqn:E'; [|done].
        by destruct (H _ _ E'). }
    rewrite Hm. unfold Object_values. by rewrite map_to_list_singleton.
  - left.
    assert (Hm : devices = ∅).
    { apply map_eq. intros k. rewrite lookup_empty.
      destruct (devices !! k) as [d'|] eqn:E'; [|done].
      destruct (H _ _ E') as [-> _]. congruence. }
    rewrite Hm. unfold Object_values. by rewrite map_to_list_empty.
Qed.

Lemma sample_handle e s : sample_state s -> sample_state (handle e s).
Proof.
  intros (Hcalls & Hdev & Hres).
  assert (Hcalls' : forall c cl, calls (handle e s) !! c = Some cl ->
            optIgnoreUnknown cl = true
            /\ array_at (heap (handle e s)) (optAddresses cl) = [EString Sample.wanted]).
  { destruct (same_options_handle e s) as [Hh Hc].
    intros c1 cl1 H1. destruct (Hc c1 cl1 H1) as (cl & Hcl & Ha & Hi).
    destruct (Hcalls c1 cl Hcl) as [H2 H3]. rewrite Hh, Ha, Hi. done. }
  assert (Hdev' : forall k d, _devices (handle e s) !! k = Some d ->
            k = Sample.wanted /\ device_address d = Sample.wanted).
  { assert (He : (exists p, e = Discover p) \/ (forall p, e <> Discover p)).
    { destruct e; try (right; discriminate). left. eauto. }
    destruct He as [[p ->]|He]; [|by rewrite handle_devices_other].
    cbn [handle]. by apply sample_on_discover. }
  split; [exact Hcalls'|]. split; [exact Hdev'|].
  intros c ds Hph.
  assert (He : e = ScanStop \/ e <> ScanStop).
  { destruct e; try (right; discriminate). by left. }
  destruct He as [->|Hne].
  - destruct (proj2 (handle_ScanStop s) c ds Hph) as [H| ->]; [by apply (Hres c)|].
    by apply Object_values_sample.
  - apply (Hres c). exact (proj2 (extends_handle e s Hne) c ds Hph).
Qed.


Lemma same_options_ensurePowerOnState c s : same_options s (_ensurePowerOnState c s).
Proof.
  unfold _ensurePowerOnState. destruct (String.eqb _ _);
    [apply same_options_startScan|by apply same_options_calls].
Qed.

Lemma sample_run es : forall s,
  sample_state s -> sample_state (run (map Event es) s).
Proof.
  unfold run. induction es as [|e es IH]; intros s Hs; simpl; [exact Hs|].
  apply IH. by apply sample_handle.
Qed.

(** X24: the sample script in a process of its own. Whatever the state of
    the adapter and whatever events follow the call, when
    [ccrtble.discover(discoverOptions)] resolves, it resolves with no
    device, and then [find] gives nothing, or with exactly one device, the
    one with the wanted address, and then [find] gives that device. *)
Theorem sample_finds_its_thermostat_or_nothing
    (state : string) (es : list event) (devices : list Device) :
  phase_of 0 (Sample.scan state es) = Some (Resolved devices) ->
  (devices = [] /\ Sample.find_device devices = None)
  \/ (exists device,
        devices = [device]
        /\ device_address device = Sample.wanted
        /\ Sample.find_device devices = Some device).
Proof.
  intros Hph.
  set (s0 := {| _devices := ∅;
                heap := <[0%nat := [EString Sample.wanted]]> Sample.arrays;
                calls := [{| optAddresses := 0; optDuration := VNumber (JS.of_int 30000);
                             optIgnoreUnknown := true; call_phase := AwaitingPowerOn;
                             call_timer := NotSet |}];
                discover_listeners := []; noble_state := state; trace := [] |}).
  assert (E : snd (discover (Some Sample.discoverOptions) (Sample.ccrtble state))
              = _ensurePowerOnState 0 s0) by reflexivity.
  assert (H1 : sample_state (snd (discover (Some Sample.discoverOptions)
                                    (Sample.ccrtble state)))).
  { split; [|split].
    - rewrite E. destruct (same_options_ensurePowerOnState 0 s0) as [Hh Hc].
      intros c cl Hcl. destruct (Hc c cl Hcl) as (cl0 & Hcl0 & Ha & Hi).
      rewrite Hh, Ha, Hi.
      destruct c as [|c]; [|discriminate]. injection Hcl0 as <-.
      split; reflexivity.
    - rewrite discover_devices. intros k d H. cbn in H. by rewrite lookup_empty in H.
    - intros c ds H.
      apply (proj2 (extends_discover (Some Sample.discoverOptions)
                      (Sample.ccrtble state))) in H.
      unfold phase_of in H. cbn in H. by rewrite lookup_nil in H. }
  destruct (sample_run es _ H1) as (_ & _ & Hres).
  destruct (Hres 0%nat devices Hph) as [->|(d & -> & Hd)].
  - left. split; reflexivity.
  - right. exists d. split; [reflexivity|]. split; [exact Hd|].
    unfold Sample.find_device. cbn [List.find]. rewrite Hd. reflexivity.
Qed.

Lemma sample_finds_its_thermostat_or_nothing_witness :
  exists device,
    phase_of 0
      (Sample.scan "poweredOn" [Discover Scenario.stranger; Discover Scenario.thermostat;
                                ScanStop])
    = Some (Resolved [device])
    /\ Sample.find_device [device] = Some device.
Proof.
  exists (new_CcrtbleDevice Scenario.thermostat).
  assert (H : phase_of 0
                (Sample.scan "poweredOn"
                   [Discover Scenario.stranger; Discover Scenario.thermostat; ScanStop])
              = Some (Resolved [new_CcrtbleDevice Scenario.thermostat])).
  { vm_compute. reflexivity. }
  split; [exact H|].
  destruct (sample_finds_its_thermostat_or_nothing "poweredOn" _ _ H)
    as [[Hnil _]|(d & Hd & _ & Hfind)].
  - discriminate.
  - injection Hd as <-. exact Hfind.
Defined.

Lemma sole_listener_stops_early_witness :
  phase_of 0 Scenario.first_call_sees_thermostat = Some Stopping
  /\ timer_of 0 Scenario.first_call_sees_thermostat = Some Cleared.
Proof.
  apply (sole_listener_stops_early Scenario.thermostat
           (snd (discover (Some Scenario.listed) Scenario.fresh_engine)) 0
           {| optAddresses := 0; optDuration := VNumber (JS.of_int 10000);
              optIgnoreUnknown := false; call_phase := Scanning;
              call_timer := Armed |}).
  - reflexivity.
  - reflexivity.
  - reflexivity.
  - reflexivity.
  - vm_compute. discriminate.
  - vm_compute. reflexivity.
  - vm_compute. reflexivity.
Defined.

End ListenerFacts.

(** ** Discovery: the listeners for advertisements *)
Section LeakFacts.
Import Value Discovery.

Lemma on_discover_listeners p s c :
  discover_listeners (on_discover p s c) = discover_listeners s.
Proof.
  unfold on_discover. destruct (calls s !! c) as [cl|]; [|done].
  cbv zeta. destruct (optIgnoreUnknown cl && _); [done|].
  destruct (negb _); [done|]. destruct (get_device _ _); try done.
  destruct (_ && _); [|done].
  match goal with
  | |- discover_listeners (resolve_scan ?c0 ?s0) = _ =>
      rewrite (proj2 (proj2 (resolve_scan_frame c0 s0)))
  end.
  by destruct (call_timer cl).
Qed.

Lemma startScan_listeners c s :
  discover_listeners (_startScan c s) = discover_listeners s
  \/ discover_listeners (_startScan c s) = discover_listeners s ++ [c].
Proof.
  unfold _startScan. destruct (calls s !! c) as [cl|]; [|by left].
  cbv zeta. destruct (0 <? length _)%nat; cbn [andb].
  - destruct (_checkDiscovered _ _); [|by right].
    left. match goal with
    | |- discover_listeners (resolve_scan ?c0 ?s0) = _ =>
        rewrite (proj2 (proj2 (resolve_scan_frame c0 s0)))
    end. done.
  - by right.
Qed.

Lemma prefix_foldl {A} (f : Discovery.t -> A -> Discovery.t) l0 l :
  (forall s x, discover_listeners s `prefix_of` discover_listeners (f s x)) ->
  forall s, l0 `prefix_of` discover_listeners s ->
            l0 `prefix_of` discover_listeners (foldl f s l).
Proof.
  intros Hf. induction l as [|x l IH]; intros s Hs; simpl; [done|].
  apply IH. etrans; [exact Hs|apply Hf].
Qed.

Lemma startScan_prefix c s :
  discover_listeners s `prefix_of` discover_listeners (_startScan c s).
Proof.
  destruct (startScan_listeners c s) as [-> | ->]; [done|by apply prefix_app_r].
Qed.

Lemma handle_prefix e s :
  discover_listeners s `prefix_of` discover_listeners (handle e s).
Proof.
  destruct e as [state|p|c|c error|]; cbn [handle].
  - cbv zeta. destruct (String.eqb state "poweredOn"); [|done].
    apply (prefix_foldl (fun s c => _startScan c s)); [|done].
    intros. apply startScan_prefix.
  - apply prefix_foldl; [|done]. intros s0 c. by rewrite on_discover_listeners.
  - destruct (timer_of c s) as [[]|]; try done.
    by rewrite (proj2 (proj2 (resolve_scan_frame _ _))).
  - by destruct (phase_of c s) as [[]|].
  - cbv zeta.
    apply (prefix_foldl
             (fun s c => update_call c
                           (with_phase (Resolved (Object_values (_devices s)))) s));
      [|done].
    intros. done.
Qed.

Lemma discover_prefix options s :
  discover_listeners s `prefix_of` discover_listeners (snd (discover options s)).
Proof.
  unfold discover. cbv zeta. repeat case_match; cbn [snd]; try done.
  all: unfold _ensurePowerOnState; destruct (String.eqb _ _); [|done].
  all: etrans; [|apply startScan_prefix]; done.
Qed.

(** X26: a ['discover'] listener is never removed. Whatever calls and events
    follow, the listeners registered so far stay registered, in the order
    they were added: a call that has ended still has its listener on the
    adapter. *)
Theorem discover_listeners_are_never_removed (s : Discovery.t) (sts : list step) :
  discover_listeners s `prefix_of` discover_listeners (run sts s).
Proof.
  unfold run. revert s. induction sts as [|st sts IH]; intros s; simpl; [done|].
  etrans; [|apply IH].
  destruct st as [options|e]; [apply discover_prefix|apply handle_prefix].
Qed.

End LeakFacts.

(** ** Sessions: timeouts are never early *)
Section TimeoutFacts.
Import Session.

(** The cell [p] awaits the cell of the operation [o]. *)
Local Abbreviation awaited_by o p :=
  (o = Connect (Some p%nat) \/ o = WriteCharacteristic p%nat
   \/ o = ResolveCharacteristics p%nat).

(** A cell was created and settled in the past, a timeout it was rejected
    with is the one of 10 000 ms and came no earlier than that after its
    creation, and the cell that awaits it is older. *)
Local Abbreviation cell_sound s cl :=
  (created cl <= now s
   /\ (forall o t, result cl = Some (o, t) -> t <= now s)
   /\ (forall ms t, result cl = Some (Rejected (TimeoutError ms), t) ->
         ms = 10000 /\ created cl + 10000 <= t)
   /\ (forall p, awaited_by (op cl) p ->
         exists pc, cells s !! p = Some pc /\ created pc <= created cl)).

Local Abbreviation sound s :=
  ((forall c cl, cells s !! c = Some cl -> cell_sound s cl)
   /\ (forall tg c, (tg, c) ∈ listeners s -> lt c (length (cells s)))).

(** The outcome [o] may be given to the cell [c] now. *)
Local Abbreviation may_settle c o s :=
  (forall ms, o = Rejected (TimeoutError ms) ->
     ms = 10000
     /\ forall cl, cells s !! c = Some cl -> created cl + 10000 <= now s).

Lemma sound_frame s s' :
  cells s' = cells s -> now s <= now s' ->
  (forall x, x ∈ listeners s' -> x ∈ listeners s) ->
  sound s -> sound s'.
Proof.
  intros Hc Hn Hl [H1 H2]. split.
  - intros c cl H. rewrite Hc in *. destruct (H1 c cl H) as (A & B & C & D).
    refine (conj _ (conj _ (conj C D))); [lia|].
    intros o t Hr. specialize (B o t Hr). lia.
  - intros tg c H. rewrite Hc. apply (H2 tg), Hl, H.
Qed.

Lemma kept_valid s s' c :
  (forall c cl, cells s !! c = Some cl ->
     exists cl', cells s' !! c = Some cl' /\ created cl' = created cl) ->
  (c < length (cells s))%nat -> (c < length (cells s'))%nat.
Proof.
  intros H Hc. destruct (lookup_lt_is_Some_2 _ _ Hc) as [cl Hcl].
  destruct (H c cl Hcl) as (cl' & H' & _). by apply lookup_lt_Some in H'.
Qed.

Lemma mark_cell c o s i cl' :
  cells (mark c o s) !! i = Some cl' ->
  exists cl,
    cells s !! i = Some cl /\ op cl' = op cl /\ created cl' = created cl
    /\ (result cl' = result cl
        \/ (i = c /\ result cl = None /\ result cl' = Some (o, now s))).
Proof.
  unfold mark. cbn. destruct (decide (i = c)) as [->|Hne].
  - rewrite list_lookup_alter_eq. destruct (cells s !! c) as [cl|]; [|discriminate].
    simpl. intros [= <-]. exists cl. unfold settle_cell.
    destruct (result cl) eqn:E; simpl; eauto 10.
  - rewrite list_lookup_alter_ne by done. intros H. exists cl'. eauto 10.
Qed.

Lemma sound_mark c o s : sound s -> may_settle c o s -> sound (mark c o s).
Proof.
  intros [H1 H2] Hok. split.
  - intros i cl' H. destruct (mark_cell _ _ _ _ _ H) as (cl & Hcl & Eop & Ecr & Hres).
    destruct (H1 i cl Hcl) as (A & B & C & D).
    change (now (mark c o s)) with (now s). rewrite Eop, Ecr.
    refine (conj A (conj _ (conj _ _))).
    + intros o0 t Hr. destruct Hres as [E|(-> & En & E)]; rewrite E in Hr.
      * eauto.
      * injection Hr as <- <-. lia.
    + intros ms t Hr. destruct Hres as [E|(-> & En & E)]; rewrite E in Hr.
      * eauto.
      * injection Hr as -> <-. destruct (Hok ms eq_refl) as [-> Hc].
        split; [done|]. eauto.
    + intros p Hp. destruct (D p Hp) as (pc & Hpc & Hle).
      destruct (proj1 (calm_mark c o s) p pc Hpc) as (pc' & Hpc' & E).
      exists pc'. split; [done|lia].
  - intros tg k Hk. change (listeners (mark c o s)) with (listeners s) in Hk.
    unfold mark; cbn. rewrite length_alter. eauto.
Qed.

Lemma sound_mark_all v l : forall s, sound s -> sound (mark_all (Fulfilled v) l s).
Proof.
  unfold mark_all. induction l as [|c l IH]; intros s Hs; simpl; [done|].
  apply IH. apply sound_mark; [done|]. discriminate.
Qed.

Lemma sound_alloc o s :
  sound s -> (forall p, awaited_by o p -> (p < length (cells s))%nat) ->
  sound (snd (alloc o s)).
Proof.
  intros [H1 H2] Hp. split.
  - intros c cl H. cbn in H. change (now (snd (alloc o s))) with (now s).
    apply lookup_app_Some in H as [H|[Hlen H]].
    + destruct (H1 c cl H) as (A & B & C & D). refine (conj A (conj B (conj C _))).
      intros p Hpp. destruct (D p Hpp) as (pc & Hpc & Hle). exists pc.
      split; [|done]. cbn. by apply lookup_app_l_Some.
    + apply list_lookup_singleton_Some in H as [_ <-]. cbn.
      refine (conj _ (conj _ (conj _ _))); [lia|discriminate|discriminate|].
      intros p Hpp. specialize (Hp p Hpp).
      destruct (lookup_lt_is_Some_2 _ _ Hp) as [pc Hpc].
      exists pc. split; [by apply lookup_app_l_Some|].
      by destruct (H1 p pc Hpc) as (A & _).
  - intros tg k Hk. cbn in *. rewrite length_app. specialize (H2 tg k Hk).
    simpl. lia.
Qed.

Lemma sound_once tg c s :
  sound s -> (c < length (cells s))%nat -> sound (once tg c s).
Proof.
  intros [H1 H2] Hc. split; [exact H1|].
  intros tg' k [H|[= -> ->]%list_elem_of_singleton]%elem_of_app; [eauto|].
  exact Hc.
Qed.

Lemma sound_emit_effects es s : sound s -> sound (emit_effects es s).
Proof. by apply sound_frame. Qed.

(** The pattern of [timeout]. *)
Lemma sound_timeout o (f : nat -> t -> t) s :
  sound s ->
  (forall p, awaited_by o p -> (p < length (cells s))%nat) ->
  (forall s1, sound s1 -> (length (cells s) < length (cells s1))%nat ->
              sound (f (length (cells s)) s1)) ->
  sound (arm 10000 (length (cells s)) (f (length (cells s)) (snd (alloc o s)))).
Proof.
  intros Hs Hp Hf.
  eapply sound_frame; [| | |apply Hf; [by apply sound_alloc|]]; try done.
  cbn. rewrite length_app. simpl. lia.
Qed.

Lemma sound_after_write w s : sound s -> sound (after_write w s).
Proof.
  intros Hs. unfold after_write.
  destruct (cells s !! w) as [cl|] eqn:Hw; [|done].
  destruct (op cl) as [| | | |caller] eqn:Eop; try done.
  destruct (result cl) as [[[v|e] t]|] eqn:Er; try done.
  apply sound_mark; [done|].
  intros ms [= ->]. destruct (proj1 Hs w cl Hw) as (A & B & C & D).
  destruct (C ms t Er) as [-> Hle]. specialize (B _ _ Er).
  destruct (D caller) as (pc & Hpc & Hcr); [rewrite Eop; auto|].
  split; [done|]. intros cl0 H0. assert (cl0 = pc) by congruence. subst. lia.
Qed.

Lemma sound_writeCharacteristic caller data s :
  sound s -> (caller < length (cells s))%nat ->
  sound (_writeCharacteristic caller data s).
Proof.
  intros Hs Hc. unfold _writeCharacteristic, timeout. cbn [alloc].
  apply sound_after_write.
  apply (sound_timeout (WriteCharacteristic caller)
           (fun w s1 => if commandCharacteristic s1
                        then emit_effects [Adapter (CharacteristicWrite w data)] s1
                        else mark w (Rejected TypeError) s1)); [done| |].
  - intros p [H|[H|H]]; try discriminate. by injection H as <-.
  - intros s1 H1 _. destruct (commandCharacteristic s1);
      [by apply sound_emit_effects|]. apply sound_mark; [done|discriminate].
Qed.

Lemma sound_after_connect k s : sound s -> sound (after_connect k s).
Proof.
  intros Hs. unfold after_connect.
  destruct (cells s !! k) as [cl|] eqn:Hk; [|done].
  destruct (op cl) as [[caller|]| | | |] eqn:Eop; try done.
  destruct (result cl) as [[[v|e] t]|] eqn:Er; try done.
  - destruct (cells s !! caller) as [pc|] eqn:Hpc; [|done]. simpl.
    destruct (op pc); try done.
    assert (Hv : (caller < length (cells s))%nat) by (by apply lookup_lt_Some in Hpc).
    apply sound_writeCharacteristic; [|exact Hv]. by apply sound_once.
  - apply sound_mark; [done|].
    intros ms [= ->]. destruct (proj1 Hs k cl Hk) as (A & B & C & D).
    destruct (C ms t Er) as [-> Hle]. specialize (B _ _ Er).
    destruct (D caller) as (pc & Hpc & Hcr); [rewrite Eop; auto|].
    split; [done|]. intros cl0 H0. assert (cl0 = pc) by congruence. subst. lia.
Qed.

Lemma sound_settle_connect k o s :
  sound s -> may_settle k o s -> sound (settle_connect k o s).
Proof.
  intros Hs Hok. unfold settle_connect. destruct (pending k s); [|done].
  apply sound_after_connect. by apply sound_mark.
Qed.

Lemma sound_settle_write w o s :
  sound s -> may_settle w o s -> sound (settle_write w o s).
Proof.
  intros Hs Hok. unfold settle_write. destruct (pending w s); [|done].
  apply sound_after_write. by apply sound_mark.
Qed.

Lemma sound_after_resolve r s : sound s -> sound (after_resolve r s).
Proof.
  intros Hs. unfold after_resolve.
  destruct (cells s !! r) as [cl|] eqn:Hr; [|done].
  destruct (op cl) as [| | |k|] eqn:Eop; try done.
  destruct (result cl) as [[[v|e] t]|] eqn:Er; try done.
  - destruct (dataCharacteristic s); [by apply sound_emit_effects|].
    apply sound_settle_connect; [done|discriminate].
  - apply sound_settle_connect; [done|].
    intros ms [= ->]. destruct (proj1 Hs r cl Hr) as (A & B & C & D).
    destruct (C ms t Er) as [-> Hle]. specialize (B _ _ Er).
    destruct (D k) as (pc & Hpc & Hcr); [rewrite Eop; auto|].
    split; [done|]. intros cl0 H0. assert (cl0 = pc) by congruence. subst. lia.
Qed.

Lemma sound_settle_resolve r o s :
  sound s -> may_settle r o s -> sound (settle_resolve r o s).
Proof.
  intros Hs Hok. unfold settle_resolve. destruct (pending r s); [|done].
  apply sound_after_resolve. by apply sound_mark.
Qed.

Lemma sound_settle c o s : sound s -> may_settle c o s -> sound (settle c o s).
Proof.
  intros Hs Hok. unfold settle.
  destruct (cells s !! c) as [cl|] eqn:Hc; [|done]. rewrite <- Hc in Hok. simpl.
  destruct (op cl);
    first [by apply sound_settle_connect | by apply sound_settle_write
          | by apply sound_settle_resolve | by apply sound_mark].
Qed.

Lemma sound_connect caller s :
  sound s -> (forall c, caller = Some c -> (c < length (cells s))%nat) ->
  sound (snd (connect caller s)).
Proof.
  intros Hs Hc.
  apply (sound_timeout (Connect caller)
           (fun k s1 => if String.eqb (peripheral_state s1) "connected"
                        then mark k (Fulfilled Undefined) s1
                        else emit_effects
                               [Debug "initiating connection"; Adapter PeripheralConnect]
                               (once OnConnect k s1))); [done| |].
  - intros p [H|[H|H]]; try discriminate. injection H as ->. by apply Hc.
  - intros s1 H1 Hk. destruct (String.eqb _ _).
    + apply sound_mark; [done|discriminate].
    + apply sound_emit_effects. by apply sound_once.
Qed.

Lemma sound_disconnect s : sound s -> sound (snd (disconnect s)).
Proof.
  intros Hs.
  apply (sound_timeout Disconnect
           (fun d s1 => if String.eqb (peripheral_state s1) "disconnected"
                        then mark d (Fulfilled Undefined) s1
                        else emit_effects
                               [Debug "closing connection"; Adapter PeripheralDisconnect]
                               (once OnDisconnect d s1))); [done| |].
  - intros p [H|[H|H]]; discriminate.
  - intros s1 H1 Hk. destruct (String.eqb _ _).
    + apply sound_mark; [done|discriminate].
    + apply sound_emit_effects. by apply sound_once.
Qed.

Lemma sound_sendCommand buffer event s :
  sound s -> sound (snd (_sendCommand buffer event s)).
Proof.
  intros Hs. unfold _sendCommand, timeout. cbn [alloc snd].
  apply sound_after_connect.
  apply (sound_timeout (SendCommand buffer event)
           (fun k s1 => snd (connect (Some k) s1))); [done| |].
  - intros p [H|[H|H]]; discriminate.
  - intros s1 H1 Hk. apply sound_connect; [done|]. by intros c [= <-].
Qed.

Lemma sound_resolveCharacteristics caller s :
  sound s -> (caller < length (cells s))%nat ->
  sound (_resolveCharacteristics caller s).
Proof.
  intros Hs Hc.
  apply (sound_timeout (ResolveCharacteristics caller)
           (fun r s1 =>
              emit_effects
                [Debug "resolving services and characteristic";
                 Adapter (DiscoverAllServicesAndCharacteristics r)] s1)); [done| |].
  - intros p [H|[H|H]]; try discriminate. by injection H as <-.
  - intros s1 H1 _. by apply sound_emit_effects.
Qed.

Lemma sound_resolve_all ks : forall s,
  sound s -> (forall k, k ∈ ks -> (k < length (cells s))%nat) ->
  sound (foldl (fun s k => _resolveCharacteristics k s) s ks).
Proof.
  induction ks as [|k ks IH]; intros s Hs Hv; simpl; [done|].
  apply IH.
  - apply sound_resolveCharacteristics; [done|]. apply Hv. left.
  - intros k' Hk'.
    apply (kept_valid s); [apply (calm_resolveCharacteristics k s)|].
    apply Hv. by right.
Qed.

Lemma sound_remove_listeners tg s : sound s -> sound (remove_listeners tg s).
Proof.
  apply sound_frame; try done.
  intros x Hx. cbn in Hx. by apply list_elem_of_filter in Hx as [_ ?].
Qed.

Lemma sound_emit ev v s : sound s -> sound (emit ev v s).
Proof.
  intros Hs. unfold emit. apply sound_mark_all. by apply sound_remove_listeners.
Qed.

Lemma sound_dataHandler data s : sound s -> sound (_dataHandler data s).
Proof.
  intros Hs. unfold _dataHandler. cbv zeta.
  repeat case_match; try (apply sound_emit); by repeat apply sound_emit_effects.
Qed.

Lemma sound_fire tm s :
  sound s -> timer_of_operation s tm -> sound (fire tm s).
Proof.
  intros Hs (Hd & cl & Hcl & Hdl). unfold fire.
  apply sound_settle.
  - revert Hs. apply sound_frame; try done. cbn. lia.
  - intros ms [= <-]. split; [done|].
    intros cl0 H0. cbn in *. assert (cl0 = cl) by congruence. subst. lia.
Qed.

Lemma sound_fire_all due : forall s,
  sound s -> (forall tm, tm ∈ due -> timer_of_operation s tm) ->
  sound (foldl (fun s tm => fire tm s) s due).
Proof.
  induction due as [|tm due IH]; intros s Hs Ht; simpl; [done|].
  apply IH.
  - apply sound_fire; [done|]. apply Ht. left.
  - intros tm' Hin. destruct (Ht tm') as (Hd & cl & Hcl & Hdl); [by right|].
    split; [done|].
    destruct (proj1 (fire_keeps tm s) _ cl Hcl) as (cl' & H' & E').
    exists cl'. split; [done|congruence].
Qed.

Lemma sound_handle e s :
  sound s -> (forall tm, tm ∈ timers s -> timer_of_operation s tm) ->
  sound (handle e s).
Proof.
  intros Hs Ht.
  destruct e as [state|error|error|r error d c|k error|w error|data|ms];
    cbn [handle].
  - revert Hs. by apply sound_frame.
  - cbv zeta.
    assert (H1 : sound (on_connect error s)).
    { unfold on_connect. destruct error; revert Hs; by apply sound_frame. }
    apply sound_resolve_all; [by apply sound_remove_listeners|].
    intros k Hk. unfold registered in Hk.
    apply list_elem_of_fmap in Hk as ([tg k'] & -> & Hin).
    apply list_elem_of_filter in Hin as [_ Hin].
    exact (proj2 H1 tg k' Hin).
  - cbv zeta.
    assert (H1 : sound (on_disconnect error s)).
    { unfold on_disconnect. destruct error; revert Hs; by apply sound_frame. }
    apply sound_mark_all. by apply sound_remove_listeners.
  - destruct (cells s !! r) as [cl|]; [|done]. simpl.
    destruct (op cl); try done. destruct error.
    + apply sound_settle_resolve; [done|discriminate].
    + apply sound_settle_resolve; [|discriminate]. revert Hs. by apply sound_frame.
  - destruct (cells s !! k) as [cl|]; [|done]. simpl.
    destruct (op cl); try done.
    destruct error; (apply sound_settle_connect; [done|discriminate]).
  - destruct (cells s !! w) as [cl|]; [|done]. simpl.
    destruct (op cl); try done. destruct error.
    + apply sound_settle_write; [done|discriminate].
    + apply sound_settle_write; [|discriminate]. by apply sound_emit_effects.
  - by apply sound_dataHandler.
  - cbv zeta.
    set (limit := now s + Z.max 0 ms).
    set (due := filter (fun tm => is_due limit tm = true) (timers s)).
    set (rest := filter (fun tm => is_due limit tm = false) (timers s)).
    assert (Hdue : Forall (fun tm => deadline tm <= limit) due).
    { apply Forall_forall. intros x [Hx _]%list_elem_of_filter.
      unfold is_due in Hx. by apply Z.leb_le. }
    destruct (fire_all limit due (set_timers rest s) Hdue) as (_ & Hle & _).
    { cbn. lia. }
    cbv zeta in Hle.
    assert (Hf : sound (foldl (fun s tm => fire tm s) (set_timers rest s) due)).
    { apply sound_fire_all; [revert Hs; by apply sound_frame|].
      intros tm [_ Hin]%list_elem_of_filter. exact (Ht tm Hin). }
    revert Hf. by apply sound_frame.
Qed.

Lemma reachable_sound s : reachable s -> sound s.
Proof.
  induction 1 as [state|s Hs IH|s Hs IH|buffer event s Hs IH|e s Hs IH].
  - split.
    + intros c cl H. cbn in H. by rewrite lookup_nil in H.
    + intros tg c H. cbn in H. by apply elem_of_nil in H.
  - by apply sound_connect.
  - by apply sound_disconnect.
  - by apply sound_sendCommand.
  - apply sound_handle; [done|]. by apply reachable_timers.
Qed.

(** X27: no timeout comes early. In every reachable session, an operation
    that was rejected with a timeout error was rejected with the one of
    10 000 ms, no earlier than 10 000 ms after it was started and no later
    than the time the clock shows. This holds for a command that fails
    with the timeout of its connection or of its write as well. *)
Theorem no_premature_timeout
    (s : Session.t) (c : nat) (cl : Session.cell) (ms t : Z) :
  Session.reachable s ->
  Session.cells s !! c = Some cl ->
  Session.result cl
  = Some (Session.Rejected (Session.TimeoutError ms), t) ->
  ms = 10000
  /\ Session.created cl + 10000 <= t
  /\ t <= Session.now s.
Proof.
  intros Hr Hc Hres.
  destruct (proj1 (reachable_sound s Hr) c cl Hc) as (_ & B & C & _).
  destruct (C ms t Hres) as [-> Hle]. specialize (B _ _ Hres). done.
Qed.

Lemma no_premature_timeout_witness :
  10000 = 10000 /\ 0 + 10000 <= 10000 /\ 10000 <= 10000.
Proof.
  assert (Hr : Session.reachable
                 (Session.handle (Session.Elapse 10000) Scenario.awaiting_status)).
  { apply Session.reachable_event.
    apply (Session.reachable_command (Session.getStatus_buffer Scenario.noon)
             Session.status Scenario.ready).
    unfold Scenario.ready, Session.run. cbn [foldl].
    apply (Session.reachable_event (Session.Subscribed 0 None)).
    apply (Session.reachable_event (Session.ServicesDiscovered 1 None true true)).
    apply (Session.reachable_event (Session.AdapterConnect None)).
    apply (Session.reachable_event (Session.PeripheralState "connected")).
    apply (Session.reachable_connect (Session.new "disconnected")).
    apply Session.reachable_new. }
  exact (no_premature_timeout _ 2
           {| Session.op :=
                Session.SendCommand (Session.getStatus_buffer Scenario.noon)
                  Session.status;
              Session.created := 0;
              Session.result :=
                Some (Session.Rejected (Session.TimeoutError 10000), 10000) |}
           10000 10000 Hr eq_refl eq_refl).
Defined.

End TimeoutFacts.

(** ** Discovery: which calls pass the guards *)
Section GuardFacts.
Import Value Discovery.

Lemma normalise_entries_ok (l : list element) :
  snd (normalise_entries l) = true
  <-> (forall e, e ∈ l -> exists x, e = EString x).
Proof.
  induction l as [|e l IH].
  - split; [|done]. intros _ e []%elem_of_nil.
  - destruct e as [x| | |im]; cbn [normalise_entries].
    + destruct (normalise_entries l) as [rest ok]. cbn [snd] in *.
      rewrite IH. split.
      * intros H e [->|He]%elem_of_cons; eauto.
      * intros H e He. apply H. by right.
    + split; [discriminate|]. intros H.
      destruct (H EUndefined) as [x Hx]; [left|discriminate].
    + split; [discriminate|]. intros H.
      destruct (H ENull) as [x Hx]; [left|discriminate].
    + split; [discriminate|]. intros H.
      destruct (H (EOther im)) as [x Hx]; [left|discriminate].
Qed.

(** X28: what [discover] does with its options, as the code has it. The
    call returns a promise, the next call of the engine, exactly when
    [isNaN] of the duration is false, [addresses] is absent or an array
    whose entries are all strings, and [ignoreUnknown] is absent or a
    boolean. In every other case it raises a [TypeError] and starts no
    call: no listener, nothing logged or asked of the adapter, the device
    map and the state of the adapter as they were. *)
Theorem discover_passes_exactly_when_its_guards_do
    (options : option Options) (s : Discovery.t) :
  let d := getOpt (duration <$> options) (VNumber (JS.of_int 10000)) in
  let a := getOpt (addresses <$> options) VUndefined in
  let i := getOpt (ignoreUnknown <$> options) (VBool false) in
  let passes :=
    isNaN (heap s) d = false
    /\ (a = VUndefined
        \/ exists r, a = VArray r
             /\ forall e, e ∈ array_at (heap s) r -> exists x, e = EString x)
    /\ isBoolean i = true in
  (passes
   /\ exists s', discover options s = (Promise (length (calls s)), s'))
  \/ (~ passes
      /\ exists message s',
           discover options s = (Throw (TypeError message), s')
           /\ calls s' = calls s
           /\ discover_listeners s' = discover_listeners s
           /\ trace s' = trace s
           /\ _devices s' = _devices s
           /\ noble_state s' = noble_state s).
Proof.
  intros d a i passes. subst passes. unfold discover. fold d a i.
  destruct (isNaN (heap s) d) eqn:Ed.
  { right. split; [intros (H & _); discriminate|].
    destruct a; cbv beta iota zeta; rewrite ?isNaN_fresh, Ed; eauto 10. }
  destruct a as [| | | | |r|]; cbv beta iota zeta; rewrite ?isNaN_fresh, Ed.
  - destruct i as [| |b| | | |].
    3: { left. split; [auto|]. unfold array_at. rewrite lookup_insert_eq.
         cbn [normalise_entries]. eauto. }
    all: right; split; [intros (_ & _ & H); discriminate|eauto 10].
  - right. split; [|eauto 10].
    intros (_ & [H|(r & H & _)] & _); discriminate.
  - right. split; [|eauto 10].
    intros (_ & [H|(r & H & _)] & _); discriminate.
  - right. split; [|eauto 10].
    intros (_ & [H|(r & H & _)] & _); discriminate.
  - right. split; [|eauto 10].
    intros (_ & [H|(r & H & _)] & _); discriminate.
  - destruct i as [| |b| | | |].
    3: { pose proof (normalise_entries_ok (array_at (heap s) r)) as Hok.
         destruct (normalise_entries (array_at (heap s) r)) as [entries ok].
         cbn [snd] in Hok. destruct ok.
         - left. split; [|eauto].
           split; [done|]. split; [|done]. right. exists r. split; [done|].
           by apply Hok.
         - right. split; [|eauto 10].
           intros (_ & [H|(r' & [= <-] & H)] & _); [discriminate|].
           apply Hok in H. discriminate. }
    all: right; split; [intros (_ & _ & H); discriminate|eauto 10].
  - right. split; [|eauto 10].
    intros (_ & [H|(r & H & _)] & _); discriminate.
Qed.

End GuardFacts.
